(** * SHOGUN functional prediction: a shallow embedding of
      [shogun/function/_function.py] and the properties of its tables.

    The Python module builds a sparse strain-by-KEGG reference matrix from a
    flat annotation file, collapses it to a coarser taxonomic rank, pushes a
    sample taxatable through it and summarises the result by module and
    pathway.  Each Python function is rendered below under its own name.

    Conventions of the embedding:
    - a Python [dict] is an insertion-ordered association list with unique
      keys ([pydict]); [setdefault], [in] and [get] are written out;
    - a Python exception is the [Raise] branch of [result];
    - [np.int8] and [np.int64] values are integers of [Z] with the
      wrap-around of the width written out ([int8], [int64]);
    - a float that the code compares or truncates is an exact rational of
      [Q]: every quotient formed by the code has operands far below 2^53,
      where binary64 division followed by a comparison against [.8] or [.5]
      agrees with the exact comparison ([binary64_boundaries] evaluates the
      boundary cases on primitive floats);
    - a [str] is held as its UTF-8 encoding: splitting at, counting and
      replacing an ASCII character, equality and the order of two strings
      are the same on the bytes as on the code points, while [rstrip] and
      slicing are done on the code points;
    - a file is the list of rows that [csv.reader] yields, each row a list
      of fields. *)

From Stdlib Require Import Floats.PrimFloat.
From Stdlib Require Import ZArith List String Ascii Bool Lia QArith Qround.
From Stdlib Require Import Sorting.Sorted Permutation.
From Stdlib Require OrderedTypeEx.
Import ListNotations.

Set Implicit Arguments.
Open Scope string_scope.
Open Scope list_scope.
Open Scope Z_scope.

Abbreviation length := List.length.

(** ** Exceptions *)

Inductive exn : Type :=
| IndexError
| ValueError
| ZeroDivisionError
| FileNotFoundError
| KeyError.

Inductive result (A : Type) : Type :=
| Ok (a : A)
| Raise (e : exn).

Arguments Ok {A} a.
Arguments Raise {A} e.

Definition bind {A B} (r : result A) (k : A -> result B) : result B :=
  match r with
  | Ok a => k a
  | Raise e => Raise e
  end.

Notation "x <- r ;; k" := (bind r (fun x => k))
  (at level 61, r at next level, right associativity).

(** [for x in xs: st = body st x], stopping at the first exception. *)
Fixpoint for_each {S X} (body : S -> X -> result S) (xs : list X) (st : S)
  : result S :=
  match xs with
  | [] => Ok st
  | x :: xs' => st' <- body st x ;; for_each body xs' st'
  end.

(** ** Fixed-width integers *)

Definition wrap (bits : Z) (x : Z) : Z :=
  (x + 2 ^ (bits - 1)) mod 2 ^ bits - 2 ^ (bits - 1).

Definition int8 (x : Z) : Z := wrap 8 x.
Definition int64 (x : Z) : Z := wrap 64 x.

Definition fits (bits : Z) (x : Z) : Prop :=
  - 2 ^ (bits - 1) <= x < 2 ^ (bits - 1).

(** ** Python dictionaries *)

Definition pydict (V : Type) : Type := list (string * V).

Fixpoint dict_get {V} (d : pydict V) (k : string) : option V :=
  match d with
  | [] => None
  | (k', v) :: d' => if String.eqb k' k then Some v else dict_get d' k
  end.

Definition dict_mem {V} (d : pydict V) (k : string) : bool :=
  match dict_get d k with Some _ => true | None => false end.

Definition keys {V} (d : pydict V) : list string := map fst d.

(** [d.setdefault(k, v)]: the dictionary afterwards and the value returned. *)
Definition setdefault {V} (d : pydict V) (k : string) (v : V) : pydict V * V :=
  match dict_get d k with
  | Some x => (d, x)
  | None => (d ++ [(k, v)], v)
  end.

(** [collections.Counter(xs)], keys in order of first occurrence. *)
Fixpoint counter_add (c : pydict nat) (k : string) : pydict nat :=
  match c with
  | [] => [(k, 1%nat)]
  | (k', n) :: c' =>
      if String.eqb k' k then (k', S n) :: c' else (k', n) :: counter_add c' k
  end.

Definition Counter (xs : list string) : pydict nat :=
  fold_left counter_add xs [].

(** ** Sorting

    [sorted(xs, key=...)] and the key order of a pandas [groupby] are stable
    sorts; insertion from the right keeps equal elements in input order. *)

Fixpoint insert_by {A} (le : A -> A -> bool) (x : A) (l : list A) : list A :=
  match l with
  | [] => [x]
  | y :: t => if le x y then x :: l else y :: insert_by le x t
  end.

Definition sort_by {A} (le : A -> A -> bool) (l : list A) : list A :=
  fold_right (insert_by le) [] l.

Definition sorted_by_key {A} (key : A -> nat) (l : list A) : list A :=
  sort_by (fun a b => Nat.leb (key a) (key b)) l.

Fixpoint unique (l : list string) : list string :=
  match l with
  | [] => []
  | x :: t => x :: filter (fun y => negb (String.eqb x y)) (unique t)
  end.

(** ** Strings *)

Definition semicolon : ascii := ";"%char.
Definition space : ascii := " "%char.
Definition underscore : ascii := "_"%char.

(** [s.split(sep)] for a one-character separator. *)
Fixpoint split (sep : ascii) (s : string) : list string :=
  match s with
  | EmptyString => [EmptyString]
  | String c s' =>
      if Ascii.eqb c sep then EmptyString :: split sep s'
      else match split sep s' with
           | h :: t => String c h :: t
           | [] => [String c EmptyString]
           end
  end.

(** [s.replace(a, b)] for single characters. *)
Fixpoint replace (a b : ascii) (s : string) : string :=
  match s with
  | EmptyString => EmptyString
  | String c s' => String (if Ascii.eqb c a then b else c) (replace a b s')
  end.

(** [s.count(a)]. *)
Fixpoint count (a : ascii) (s : string) : nat :=
  match s with
  | EmptyString => 0%nat
  | String c s' => ((if Ascii.eqb c a then 1 else 0) + count a s')%nat
  end.

Fixpoint contains (a : ascii) (s : string) : bool :=
  match s with
  | EmptyString => false
  | String c s' => Ascii.eqb c a || contains a s'
  end.

(** A continuation byte of UTF-8, [10xxxxxx]. *)
Definition is_continuation (c : ascii) : bool :=
  let n := nat_of_ascii c in (Nat.leb 128 n && Nat.ltb n 192)%bool.

Definition starts_with_continuation (s : string) : bool :=
  match s with
  | EmptyString => false
  | String c _ => is_continuation c
  end.

(** The code points of a string, each as the bytes that encode it. *)
Fixpoint code_points (s : string) : list string :=
  match s with
  | EmptyString => []
  | String c s' =>
      match code_points s' with
      | h :: t =>
          if starts_with_continuation s' then String c h :: t
          else String c EmptyString :: h :: t
      | [] => [String c EmptyString]
      end
  end.

Definition payload (c : ascii) (bits : Z) : Z :=
  Z.of_nat (nat_of_ascii c) mod 2 ^ bits.

(** [ord(ch)] of one encoded code point; [-1] for bytes that encode none. *)
Definition ord (ch : string) : Z :=
  match ch with
  | String a EmptyString =>
      if Z.of_nat (nat_of_ascii a) <? 128 then Z.of_nat (nat_of_ascii a)
      else -1
  | String a (String b EmptyString) => payload a 5 * 64 + payload b 6
  | String a (String b (String c EmptyString)) =>
      payload a 4 * 4096 + payload b 6 * 64 + payload c 6
  | String a (String b (String c (String d EmptyString))) =>
      payload a 3 * 262144 + payload b 6 * 4096 + payload c 6 * 64
      + payload d 6
  | _ => -1
  end.

(** [ch.isspace()], the characters that [rstrip] removes: U+0009 to U+000D,
    U+001C to U+0020, U+0085, U+00A0, U+1680, U+2000 to U+200A, U+2028,
    U+2029, U+202F, U+205F and U+3000. *)
Definition is_space (cp : Z) : bool :=
  ((9 <=? cp) && (cp <=? 13) || (28 <=? cp) && (cp <=? 32)
   || (cp =? 133) || (cp =? 160) || (cp =? 5760)
   || (8192 <=? cp) && (cp <=? 8202)
   || (cp =? 8232) || (cp =? 8233) || (cp =? 8239) || (cp =? 8287)
   || (cp =? 12288))%bool.

(** [s[:n]]: the first [n] code points. *)
Definition str_take (n : nat) (s : string) : string :=
  String.concat EmptyString (firstn n (code_points s)).

Fixpoint drop_spaces (chs : list string) : list string :=
  match chs with
  | [] => []
  | ch :: rest => if is_space (ord ch) then drop_spaces rest else chs
  end.

(** [s.rstrip()]. *)
Definition rstrip (s : string) : string :=
  String.concat EmptyString (rev (drop_spaces (rev (code_points s)))).

(** [";".join(label.split(';')[:level])]. *)
Definition truncate_lineage (level : nat) (label : string) : string :=
  String.concat ";" (firstn level (split semicolon label)).

(** ** Compressed sparse row matrices ([scipy.sparse.csr_matrix]) *)

Record csr : Type := {
  data : list Z;
  indices : list nat;
  indptr : list nat;
  shape : nat * nat
}.

(** [csr_matrix((data, indices, indptr), dtype=np.int8)]: no shape is given,
    so scipy infers [(len(indptr) - 1, max(indices) + 1)] and raises
    [ValueError] when [indices] is empty.  [data] goes through
    [np.array(data, dtype=np.int8)]; the numpy releases that still have
    [np.int], which [_create_kegg_table] needs, convert an out-of-range
    integer by wrap-around. *)
Definition csr_matrix (d : list Z) (ind : list nat) (ptr : list nat)
  : result csr :=
  match ind with
  | [] => Raise ValueError
  | _ :: _ =>
      Ok {| data := map int8 d;
            indices := ind;
            indptr := ptr;
            shape := ((length ptr - 1)%nat, S (list_max ind)) |}
  end.

(** The stored [(column, value)] pairs of row [i]. *)
Definition row_entries (m : csr) (i : nat) : list (nat * Z) :=
  let lo := nth i (indptr m) 0%nat in
  let hi := nth (S i) (indptr m) 0%nat in
  firstn (hi - lo) (skipn lo (combine (indices m) (data m))).

(** [.todense()] of one row: duplicates of a column are added in 8 bits. *)
Definition dense_of (ncols : nat) (es : list (nat * Z)) : list Z :=
  map (fun j =>
         fold_left (fun acc e =>
                      if Nat.eqb (fst e) j then int8 (acc + snd e) else acc)
                   es 0)
      (seq 0 ncols).

(** [m.getrow(i).todense()]. *)
Definition getrow (m : csr) (i : nat) : result (list Z) :=
  if Nat.ltb i (fst (shape m))
  then Ok (dense_of (snd (shape m)) (row_entries m i))
  else Raise IndexError.

(** [m[rows, :].todense()]. *)
Fixpoint getrows (m : csr) (rows : list nat) : result (list (list Z)) :=
  match rows with
  | [] => Ok []
  | i :: rows' =>
      r <- getrow m i ;;
      rs <- getrows m rows' ;;
      Ok (r :: rs)
  end.

(** ** [parse_kegg_table] *)

Record kegg_state : Type := {
  st_indptr : list nat;
  st_indices : list nat;
  st_kegg_ids : pydict nat;
  st_row_names : pydict nat;
  st_data : list Z
}.

(** Body of [for key, value in counts.items()]. *)
Definition add_count (acc : list nat * pydict nat * list Z)
                     (kv : string * nat) : list nat * pydict nat * list Z :=
  let '(ind, ids, d) := acc in
  if String.eqb (fst kv) "" then acc
  else
    let (ids', col) := setdefault ids (fst kv) (length ids) in
    (ind ++ [col], ids', d ++ [Z.of_nat (snd kv)]).

(** Body of [for line in csv_inf]; [line[0]] raises on an empty row. *)
Definition parse_line (st : kegg_state) (line : list string)
  : result kegg_state :=
  match line with
  | [] => Raise IndexError
  | label :: fields =>
      let row_names :=
        fst (setdefault (st_row_names st) label (length (st_row_names st))) in
      let counts := Counter fields in
      let '(ind, ids, d) :=
        fold_left add_count counts
                  (st_indices st, st_kegg_ids st, st_data st) in
      Ok {| st_indptr := st_indptr st ++ [length ind];
            st_indices := ind;
            st_kegg_ids := ids;
            st_row_names := row_names;
            st_data := d |}
  end.

Definition kegg_state0 : kegg_state :=
  {| st_indptr := [0%nat]; st_indices := []; st_kegg_ids := [];
     st_row_names := []; st_data := [] |}.

Definition parse_kegg_table (infile : list (list string))
  : result (pydict nat * pydict nat * csr) :=
  st <- for_each parse_line infile kegg_state0 ;;
  m <- csr_matrix (st_data st) (st_indices st) (st_indptr st) ;;
  Ok (st_row_names st, st_kegg_ids st, m).

(** ** [summarize_at_level] *)

(** [count / n] as numpy's true division. *)
Definition fraction (k n : nat) : Q :=
  (inject_Z (Z.of_nat k) / inject_Z (Z.of_nat n))%Q.

Definition Qgtb (x y : Q) : bool := negb (Qle_bool x y).

(** Column [j] of a dense block. *)
Definition column (mat : list (list Z)) (j : nat) : list Z :=
  map (fun row => nth j row 0) mat.

(** [(_mat > 0).sum(axis=0)] at column [j]. *)
Definition count_positive (col : list Z) : nat :=
  length (filter (fun v => 0 <? v) col).

(** [np.divide((_mat > 0).sum(axis=0), _mat.shape[0]) > .8]. *)
Definition mat_thresh (mat : list (list Z)) (ncols : nat) : list bool :=
  map (fun j => Qgtb (fraction (count_positive (column mat j)) (length mat))
                     (8 # 10)%Q)
      (seq 0 ncols).

(** [np.where(mask)[0]]. *)
Definition np_where (mask : list bool) : list nat :=
  filter (fun j => nth j mask false) (seq 0 (length mask)).

(** [np.median] along a column: the middle element, or the mean of the two
    middle elements, as a float. *)
Definition median (xs : list Z) : Q :=
  let s := sort_by Z.leb xs in
  let n := length s in
  if Nat.even n
  then Qdiv (inject_Z (nth (n / 2 - 1) s 0 + nth (n / 2) s 0)) (inject_Z 2)
  else inject_Z (nth (n / 2) s 0).

(** The float-to-integer cast of [dtype=np.int8]: truncation toward zero. *)
Definition trunc (q : Q) : Z := Z.quot (Qnum q) (Zpos (Qden q)).

Record collapse_state : Type := {
  cs_indptr : list nat;
  cs_indices : list nat;
  cs_row_names : pydict nat;
  cs_data : list Q
}.

(** [s.groupby("group")]: the distinct keys in ascending order, each with
    the positions (the frame's default integer index) that carry it. *)
Definition positions_of (g : string) (groups : list string) : list nat :=
  filter (fun i => String.eqb (nth i groups "") g) (seq 0 (length groups)).

Definition groupby (groups : list string) : list (string * list nat) :=
  map (fun g => (g, positions_of g groups))
      (sort_by String.leb (unique groups)).

(** Body of [for name, df in s.groupby("group")]. *)
Definition collapse_group (m : csr) (st : collapse_state)
                          (g : string * list nat) : result collapse_state :=
  let (name, df_index) := g in
  _mat <- getrows m df_index ;;
  let _mat_thresh := mat_thresh _mat (snd (shape m)) in
  if existsb (fun b => b) _mat_thresh then
    let cols := np_where _mat_thresh in
    let _medians := map (fun j => median (column _mat j)) cols in
    let ind := cs_indices st ++ cols in
    Ok {| cs_indptr := cs_indptr st ++ [length ind];
          cs_indices := ind;
          cs_row_names :=
            fst (setdefault (cs_row_names st) name
                            (length (cs_row_names st)));
          cs_data := cs_data st ++ _medians |}
  else Ok st.

Definition collapse_state0 : collapse_state :=
  {| cs_indptr := [0%nat]; cs_indices := []; cs_row_names := [];
     cs_data := [] |}.

(** The [names] column of [s]: labels sorted by their row index. *)
Definition sorted_names (names : pydict nat) : list string :=
  map fst (sorted_by_key snd names).

Definition summarize_at_level (m : csr) (names : pydict nat)
                              (kegg_ids : pydict nat) (level : nat)
  : result (csr * pydict nat) :=
  let s_group := map (truncate_lineage level) (sorted_names names) in
  st <- for_each (collapse_group m) (groupby s_group) collapse_state0 ;;
  m' <- csr_matrix (map trunc (cs_data st)) (cs_indices st) (cs_indptr st) ;;
  Ok (m', cs_row_names st).

(** ** Data frames and logging *)

Record DataFrame (A : Type) : Type := {
  index : list string;
  columns : list string;
  values : list (list A)
}.

Inductive log_level : Type := DEBUG | INFO | WARNING.

Inductive log_message : Type :=
| KeggTableShape (s : nat * nat)
| TaxatableShape (s : nat * nat)
| OverlapOfTaxaAndFunction (overlap : Q)
| RowNamesFound (n : nat).

Definition log : Type := list (log_level * log_message).

Definition tabulate {A} (n : nat) (f : nat -> A) : list A := map f (seq 0 n).

Definition entry (mat : list (list Z)) (i j : nat) : Z :=
  nth j (nth i mat []) 0.

Definition sum (xs : list Z) : Z := fold_right Z.add 0 xs.

(** [df.shape]. *)
Definition df_shape {A} (df : DataFrame A) : nat * nat :=
  (length (index df), length (columns df)).

(** [df.iterrows()]: each row with its label. *)
Definition iterrows {A} (df : DataFrame A) : list (string * list A) :=
  combine (index df) (values df).

(** [df.T]. *)
Definition df_T (df : DataFrame Z) : DataFrame Z :=
  {| index := columns df;
     columns := index df;
     values := tabulate (length (columns df)) (fun j =>
               tabulate (length (index df)) (fun i => entry (values df) i j)) |}.

(** [df[(df.T != 0).any()]]: the rows that are not entirely zero. *)
Definition drop_zero_rows (df : DataFrame Z) : DataFrame Z :=
  let kept := filter (fun r => existsb (fun v => negb (v =? 0)) (snd r))
                     (iterrows df) in
  {| index := map fst kept; columns := columns df; values := map snd kept |}.

(** ** [_create_kegg_table] *)

(** [np.outer(row, ref)] on 64-bit integers. *)
Definition outer (ns nk : nat) (row ref : list Z) : list (list Z) :=
  tabulate ns (fun s => tabulate nk (fun f => int64 (nth s row 0 * nth f ref 0))).

(** [a += b] on 64-bit integer arrays of shape [(ns, nk)]. *)
Definition iadd (ns nk : nat) (a b : list (list Z)) : list (list Z) :=
  tabulate ns (fun s => tabulate nk (fun f => int64 (entry a s f + entry b s f))).

(** Body of [for i, row in taxatable_df.iterrows()]. *)
Definition propagate_row (ns nk : nat) (row_names : pydict nat) (m : csr)
                         (st : list (list Z) * nat) (r : string * list Z)
  : result (list (list Z) * nat) :=
  let (kegg_table, row_names_found) := st in
  let (name, row) := r in
  match dict_get row_names name with
  | Some idx =>
      ref <- getrow m idx ;;
      Ok (iadd ns nk kegg_table (outer ns nk row ref), S row_names_found)
  | None => Ok st
  end.

Definition _create_kegg_table (taxatable_df : DataFrame Z)
                              (row_names column_names : pydict nat)
                              (kegg_table_csr : csr)
  : result (DataFrame Z * log) :=
  let (num_taxa_kegg, num_kegg_ids) := shape kegg_table_csr in
  let log1 := [(DEBUG, KeggTableShape (shape kegg_table_csr))] in
  let (num_taxa, num_samples) := df_shape taxatable_df in
  let log2 := log1 ++ [(DEBUG, TaxatableShape (df_shape taxatable_df))] in
  let kegg_table :=
    tabulate num_samples (fun _ => tabulate num_kegg_ids (fun _ => 0)) in
  st <- for_each (propagate_row num_samples num_kegg_ids row_names
                                kegg_table_csr)
                 (iterrows taxatable_df) (kegg_table, 0%nat) ;;
  let (kegg_table, row_names_found) := st in
  if Nat.eqb num_taxa 0 then Raise ZeroDivisionError
  else
    let overlap := fraction row_names_found num_taxa in
    let log3 :=
      log2 ++ [(if Qgtb (5 # 10)%Q overlap then WARNING else DEBUG,
                OverlapOfTaxaAndFunction overlap)] in
    let log4 := log3 ++ [(DEBUG, RowNamesFound row_names_found)] in
    let functions := sorted_names column_names in
    if Nat.eqb (length functions) num_kegg_ids then
      let out_kegg_table_df :=
        df_T {| index := columns taxatable_df;
                columns := functions;
                values := kegg_table |} in
      Ok (drop_zero_rows out_kegg_table_df, log4)
    else Raise ValueError.

(** ** [summarize_kegg_table] and [_do_function] *)

Fixpoint nodupb (l : list string) : bool :=
  match l with
  | [] => true
  | x :: t => negb (existsb (String.eqb x) t) && nodupb t
  end.

Fixpoint labels_eqb (a b : list string) : bool :=
  match a, b with
  | [], [] => true
  | x :: a', y :: b' => String.eqb x y && labels_eqb a' b'
  | _, _ => false
  end.

(** [df.reindex(labels, fill_value=0.)]: the rows of [df] named by [labels],
    a row of zeros for a label [df] does not have.  pandas refuses to
    reindex an axis with duplicated labels unless the target is that axis. *)
Definition reindex (df : DataFrame Z) (labels : list string)
  : result (DataFrame Z) :=
  if labels_eqb (index df) labels then Ok df
  else if nodupb (index df) then
    Ok {| index := labels;
          columns := columns df;
          values := map (fun l => match dict_get (iterrows df) l with
                                  | Some row => row
                                  | None => repeat 0 (length (columns df))
                                  end) labels |}
  else Raise ValueError.

(** One cell of a matrix product: a row of the left factor against column
    [s] of the right factor. *)
Definition dot_cell (arow : list Z) (b : list (list Z)) (s : nat) : Z :=
  sum (map (fun p => fst p * nth s (snd p) 0) (combine arow b)).

(** Whether [reindex] has to fill: some label has no row in [df].  The
    fill value is the float [0.], so a frame that is filled is held in
    float64, while a frame that loses no label stays in int64. *)
Definition reindex_fills (df : DataFrame Z) (labels : list string) : bool :=
  negb (forallb (fun l => existsb (String.eqb l) (index df)) labels).

(** [df > 0] as 0/1. *)
Definition df_positive (df : DataFrame Z) : DataFrame Z :=
  {| index := index df; columns := columns df;
     values := map (map (fun v => if 0 <? v then 1 else 0)) (values df) |}.

(** A float quotient: [None] stands for the [nan] or [inf] of a zero
    divisor. *)
Definition true_divide (x d : Z) : option Q :=
  if d =? 0 then None else Some (inject_Z x / inject_Z d)%Q.

(** [df.div(df2.sum(axis=1), axis=0)]: the row sums are int64 sums. *)
Definition div_by_row_sum (df divisor : DataFrame Z) : DataFrame (option Q) :=
  {| index := index df; columns := columns df;
     values := map (fun p => map (fun v => true_divide v (int64 (sum (snd p))))
                                 (fst p))
                   (combine (values df) (values divisor)) |}.

Definition float_nonzero (v : option Q) : bool :=
  match v with
  | None => true
  | Some q => negb (Qeq_bool q 0)
  end.

Definition drop_zero_rows_float (df : DataFrame (option Q))
  : DataFrame (option Q) :=
  let kept := filter (fun r => existsb float_nonzero (snd r)) (iterrows df) in
  {| index := map fst kept; columns := columns df; values := map snd kept |}.

Record function_tables : Type := {
  out_kegg_table_df : DataFrame Z;
  out_kegg_modules_df : DataFrame Z;
  out_kegg_modules_coverage : DataFrame (option Q);
  out_kegg_pathways_df : DataFrame Z;
  out_kegg_pathways_coverage : DataFrame (option Q)
}.

Section Summaries.

(** [np.dot] with a float64 operand goes through the BLAS at hand, which
    fixes neither the order of the additions nor the rounding of the
    intermediate sums; it is taken as given.  Its arguments are the frames
    with the integers they hold before the conversion to float64; its
    result, integral like every float64 sum of products of integers, is
    held as integers. *)
Variable dot_float64 : DataFrame Z -> DataFrame Z -> list (list Z).

(** [a.dot(b)] for frames whose inner labels coincide: in int64, with
    wrap-around, or in float64 when [b] is held in float64. *)
Definition dot (a b : DataFrame Z) (float64 : bool) : DataFrame Z :=
  {| index := index a;
     columns := columns b;
     values :=
       if float64 then dot_float64 a b
       else map (fun arow =>
                   tabulate (length (columns b))
                            (fun s => int64 (dot_cell arow (values b) s)))
                (values a) |}.

Definition summarize_kegg_table (kegg_table summary_table : DataFrame Z)
  : result (DataFrame Z * DataFrame (option Q)) :=
  filtered_kegg_ids <- reindex kegg_table (columns summary_table) ;;
  let df_summary :=
    dot summary_table filtered_kegg_ids
        (reindex_fills kegg_table (columns summary_table)) in
  let df_coverage :=
    div_by_row_sum (dot summary_table (df_positive filtered_kegg_ids) false)
                   summary_table in
  Ok (drop_zero_rows df_summary, drop_zero_rows_float df_coverage).

Definition _do_function (taxatable_df : DataFrame Z)
                        (row_names column_names : pydict nat)
                        (kegg_table_csr : csr)
                        (kegg_modules_df kegg_pathways_df : DataFrame Z)
  : result (function_tables * log) :=
  r <- _create_kegg_table taxatable_df row_names column_names kegg_table_csr ;;
  let (kegg, lg) := r in
  mods <- summarize_kegg_table kegg kegg_modules_df ;;
  paths <- summarize_kegg_table kegg kegg_pathways_df ;;
  Ok ({| out_kegg_table_df := kegg;
         out_kegg_modules_df := fst mods;
         out_kegg_modules_coverage := snd mods;
         out_kegg_pathways_df := fst paths;
         out_kegg_pathways_coverage := snd paths |}, lg).

End Summaries.

(** ** Membership tables: [_parse_modules] and [_parse_pathways] *)

(** [d[outer].update([inner])] on a [defaultdict(Counter)]. *)
Fixpoint tally_add (d : pydict (pydict nat)) (outer inner : string)
  : pydict (pydict nat) :=
  match d with
  | [] => [(outer, counter_add [] inner)]
  | (k, c) :: d' =>
      if String.eqb k outer then (k, counter_add c inner) :: d'
      else (k, c) :: tally_add d' outer inner
  end.

(** [pd.DataFrame(d).fillna(0.0).astype(int)]: one column per outer key, one
    row per inner key.  Rows are listed by first appearance; nothing below
    depends on their order. *)
Definition frame_of_tally (d : pydict (pydict nat)) : DataFrame Z :=
  let idx := unique (flat_map (fun kc => keys (snd kc)) d) in
  {| index := idx;
     columns := keys d;
     values := map (fun r =>
                      map (fun kc => match dict_get (snd kc) r with
                                     | Some n => Z.of_nat n
                                     | None => 0
                                     end) d) idx |}.

(** [row[i]]. *)
Definition item (row : list string) (i : nat) : result string :=
  match nth_error row i with
  | Some x => Ok x
  | None => Raise IndexError
  end.

Definition modules_row (d : pydict (pydict nat)) (row : list string)
  : result (pydict (pydict nat)) :=
  first <- item row 0 ;;
  final <- item row (length row - 1) ;;
  Ok (tally_add d (rstrip first) (str_take 7 final)).

Definition _parse_modules (infile : list (list string)) : result (DataFrame Z) :=
  d <- for_each modules_row infile [] ;;
  Ok (frame_of_tally d).

Definition pathways_row (d : pydict (pydict nat)) (row : list string)
  : result (pydict (pydict nat)) :=
  r1 <- item row 1 ;;
  if String.eqb r1 "Enzymes" then
    r4 <- item row 4 ;;
    if negb (String.eqb r4 "") then
      r0 <- item row 0 ;;
      Ok (tally_add d (rstrip r0) r4)
    else Ok d
  else Ok d.

Definition _parse_pathways (infile : list (list string)) : result (DataFrame Z) :=
  d <- for_each pathways_row infile [] ;;
  Ok (frame_of_tally d).

(** ** [parse_function_db] *)

(** A directory tree: each existing path with the rows of its file. *)
Definition filesystem : Type := pydict (list (list string)).

(** [open(path)]. *)
Definition open (fs : filesystem) (path : string) : result (list (list string)) :=
  match dict_get fs path with
  | Some rows => Ok rows
  | None => Raise FileNotFoundError
  end.

Fixpoint ends_with_slash (s : string) : bool :=
  match s with
  | EmptyString => false
  | String c EmptyString => Ascii.eqb c "/"%char
  | String _ s' => ends_with_slash s'
  end.

(** [os.path.join(a, b)] on POSIX. *)
Definition path_join (a b : string) : string :=
  match b with
  | String "/"%char _ => b
  | _ => if String.eqb a "" || ends_with_slash a then a ++ b
         else a ++ "/" ++ b
  end%string.

Inductive db_value : Type :=
| DbPath (p : string)
| DbNames (d : pydict nat)
| DbCsr (m : csr)
| DbFrame (df : DataFrame Z).

Definition suffices : list string :=
  ["module-annotations.txt"; "strain2ko.txt"; "pathway-annotations.txt"].

Definition db_keys : list string :=
  ["modules_file"; "file"; "pathways_file"; "names"; "kegg_ids"; "csr";
   "modules"; "pathways"].

(** ["%s-%s" % (os.path.join(database, name), suffix)]. *)
Definition db_file (database name suffix : string) : string :=
  (path_join database name ++ "-" ++ suffix)%string.

Section FunctionDb.

(** [glob.glob] is taken as given: it lists paths that exist. *)
Variable glob : filesystem -> string -> list string.

Definition parse_function_db (fs : filesystem) (metadata : pydict string)
                             (database : string)
  : result (pydict db_value) :=
  match dict_get metadata "function" with
  | None => Ok []
  | Some name =>
      let file_set := glob fs (path_join database (name ++ "*")%string) in
      let files := map (db_file database name) suffices in
      if forallb (fun file => existsb (String.eqb file) file_set) files then
        modules_df <- (rows <- open fs (nth 0 files "") ;; _parse_modules rows) ;;
        pathway_df <- (rows <- open fs (nth 2 files "") ;; _parse_pathways rows) ;;
        strains <- (rows <- open fs (nth 1 files "") ;; parse_kegg_table rows) ;;
        let '(row_names, kegg_ids, m) := strains in
        Ok (combine db_keys
                    (map DbPath files
                     ++ [DbNames row_names; DbNames kegg_ids; DbCsr m]
                     ++ [DbFrame modules_df; DbFrame pathway_df]))
      else Ok []
  end.

End FunctionDb.

(** ** [function_run_and_save] *)

(** The key under which a taxatable row is summed:
    [';'.join(label.split(';')[:level]).replace(' ', '_')]. *)
Definition taxatable_summary (level : nat) (label : string) : string :=
  replace space underscore (truncate_lineage level label).

(** Column-wise int64 sum of rows of width [n]. *)
Definition sum_rows (n : nat) (rows : list (list Z)) : list Z :=
  tabulate n (fun j => int64 (sum (column rows j))).

(** Lines 42 to 47, on a taxatable of int64 abundances: rows with a
    non-string index ([None]) are dropped, each label is truncated and
    underscored, keys with fewer than [level] fields are dropped, and the
    rows are summed per key in ascending key order.  When no row is left
    after line 42, the mask of line 46 is the empty list, which selects no
    column rather than no row: the [summary] column is gone and
    [groupby('summary')] raises [KeyError]. *)
Definition regroup_taxatable (level : nat) (cols : list string)
                             (rows : list (option string * list Z))
  : result (DataFrame Z) :=
  let strs := flat_map (fun r => match fst r with
                                 | Some label => [(label, snd r)]
                                 | None => []
                                 end) rows in
  match strs with
  | [] => Raise KeyError
  | _ :: _ =>
      let summary :=
        map (fun r => (taxatable_summary level (fst r), snd r)) strs in
      let kept := filter (fun r => Nat.leb level (count semicolon (fst r) + 1))
                         summary in
      let ks := sort_by String.leb (unique (map fst kept)) in
      Ok {| index := ks;
            columns := cols;
            values :=
              map (fun k =>
                     sum_rows (length cols)
                              (map snd (filter (fun r => String.eqb (fst r) k)
                                               kept))) ks |}
  end.

Record func_db : Type := {
  db_pathways : DataFrame Z;
  db_modules : DataFrame Z;
  db_names : pydict nat;
  db_kegg_ids : pydict nat;
  db_csr : csr
}.

Definition TAXA : list string :=
  ["kingdom"; "phylum"; "class"; "order"; "family"; "genus"; "species";
   "strain"].

(** [TAXA[level - 1]]: index -1, for level 0, is the last element. *)
Definition taxa_name (level : nat) : result string :=
  match level with
  | O => Ok "strain"
  | S l => item TAXA l
  end.

Section FunctionRun.

(** The float64 product of [summarize_kegg_table]. *)
Variable dot_float64 : DataFrame Z -> DataFrame Z -> list (list Z).

(** [shogun.utils.normalize_by_median_depth] lives outside this module. *)
Variable normalize_by_median_depth : DataFrame Z -> DataFrame Z.

(** The tables that [function_run_and_save] writes: the normalized
    taxatable and the five function tables.  The names of the output
    files are left out, except that [TAXA[level - 1]], which goes into
    them, raises for a level above 8. *)
Definition function_run_and_save (cols : list string)
                                 (input : list (option string * list Z))
                                 (db : func_db) (level : nat)
  : result (DataFrame Z * function_tables * log) :=
  collapsed <- (if Nat.ltb level 8
                then summarize_at_level (db_csr db) (db_names db)
                                        (db_kegg_ids db) level
                else Ok (db_csr db, db_names db)) ;;
  let (kegg_table_csr, row_names) := collapsed in
  _ <- taxa_name level ;;
  summed <- regroup_taxatable level cols input ;;
  let taxatable_df := normalize_by_median_depth summed in
  r <- _do_function dot_float64 taxatable_df row_names (db_kegg_ids db)
                    kegg_table_csr (db_modules db) (db_pathways db) ;;
  Ok (taxatable_df, fst r, snd r).

End FunctionRun.

(** * Definitions used by the statements

    Quantities the theorems speak about, the wording of the specification
    where a theorem compares the code with it, and the inputs of the
    examples. *)

(** The group abundance as the specification words it: the membership table
    reindexed along its function axis to the rows of the function table,
    zero where it has no such function, multiplied with the function
    abundances. *)
Definition reindex_function_axis (summary_table : DataFrame Z)
                                 (functions : list string) : DataFrame Z :=
  {| index := index summary_table;
     columns := functions;
     values := map (fun arow =>
                      map (fun f =>
                             match dict_get (combine (columns summary_table) arow) f with
                             | Some a => a
                             | None => 0
                             end) functions)
                   (values summary_table) |}.

(** The matrix product of two frames over the integers. *)
Definition matrix_product (a b : DataFrame Z) : DataFrame Z :=
  {| index := index a;
     columns := columns b;
     values := map (fun arow =>
                      tabulate (length (columns b)) (dot_cell arow (values b)))
                   (values a) |}.

(** That product. *)
Definition group_abundance_spec (kegg_table summary_table : DataFrame Z)
  : DataFrame Z :=
  matrix_product (reindex_function_axis summary_table (index kegg_table))
                 kegg_table.

(** A frame with every value reduced to 64 bits. *)
Definition df_int64 (df : DataFrame Z) : DataFrame Z :=
  {| index := index df; columns := columns df;
     values := map (map int64) (values df) |}.

(** The sum of the absolute values of the products that make up one cell
    of a matrix product. *)
Definition product_magnitude (arow : list Z) (b : list (list Z)) (s : nat)
  : Z :=
  dot_cell (map Z.abs arow) (map (map Z.abs) b) s.

(** What is known of a float64 product of integers: it is the exact
    product as long as, in every cell, the absolute values of the products
    sum to at most 2^53, whatever the order of the additions. *)
Definition float64_exact
    (dot_float64 : DataFrame Z -> DataFrame Z -> list (list Z)) : Prop :=
  forall a b,
    (forall arow s, In arow (values a) -> (s < length (columns b))%nat ->
                    product_magnitude arow (values b) s <= 2 ^ 53) ->
    dot_float64 a b = values (matrix_product a b).

(** A float64 product for the examples, which stay far below 2^53. *)
Definition small_dot_float64 (a b : DataFrame Z) : list (list Z) :=
  values (matrix_product a b).

(** [not key == '']. *)
Definition nonblank (kv : string * nat) : bool := negb (String.eqb (fst kv) "").

(** The dense reference row that [getrow] returns for a valid index. *)
Definition reference_row (m : csr) (idx : nat) : list Z :=
  dense_of (snd (shape m)) (row_entries m idx).

(** The contribution of one taxatable row to cell (sample [s], function
    [f]): nothing unless its name is a key of [row_names]. *)
Definition contribution (row_names : pydict nat) (m : csr) (s f : nat)
                        (r : string * list Z) : Z :=
  match dict_get row_names (fst r) with
  | Some idx => nth s (snd r) 0 * nth f (reference_row m idx) 0
  | None => 0
  end.

(** The abundance-weighted sum of reference counts, over the integers. *)
Definition predicted (rows : list (string * list Z)) (row_names : pydict nat)
                     (m : csr) (s f : nat) : Z :=
  sum (map (contribution row_names m s f) rows).

(** Abundance times the total of the taxon's reference row, summed over the
    rows whose taxon is in the reference. *)
Definition weighted_reference_total (rows : list (string * list Z))
                                    (row_names : pydict nat) (m : csr)
                                    (s : nat) : Z :=
  sum (map (fun r => match dict_get row_names (fst r) with
                     | Some idx => nth s (snd r) 0 * sum (reference_row m idx)
                     | None => 0
                     end) rows).

(** The total of sample column [s] of a function table. *)
Definition sample_total (df : DataFrame Z) (s : nat) : Z :=
  sum (map (fun row => nth s row 0) (values df)).

(** [row.name in row_names]. *)
Definition matched (row_names : pydict nat) (r : string * list Z) : bool :=
  dict_mem row_names (fst r).

(** The sparse row a group contributes: the columns that pass the threshold,
    each with its median; [None] when no column passes. *)
Definition group_row (m : csr) (g : string * list nat)
  : option (list (nat * Q)) :=
  match getrows m (snd g) with
  | Ok mat =>
      let th := mat_thresh mat (snd (shape m)) in
      if existsb (fun b => b) th
      then Some (map (fun j => (j, median (column mat j))) (np_where th))
      else None
  | Raise _ => None
  end.

(** The retained groups in loop order, each with its row. *)
Definition retained (m : csr) (gs : list (string * list nat))
  : list (string * list (nat * Q)) :=
  flat_map (fun g => match group_row m g with
                     | Some row => [(fst g, row)]
                     | None => []
                     end) gs.

(** Row pointers: running totals of the row lengths. *)
Fixpoint offsets {X} (base : nat) (rows : list (list X)) : list nat :=
  match rows with
  | [] => []
  | r :: rs => (base + length r)%nat :: offsets (base + length r) rs
  end.

(** Strict order of strings, character by character. *)
Definition str_lt (a b : string) : Prop := String.ltb a b = true.

(** A column with its median as it is stored: truncated, in 8 bits. *)
Definition stored (p : nat * Q) : nat * Z := (fst p, int8 (trunc (snd p))).

Unset Implicit Arguments.

(** The number of group members with a strictly positive, respectively a
    nonzero, count in column [j]. *)
Definition members_positive (m : csr) (members : list nat) (j : nat) : nat :=
  length (filter (fun i => 0 <? nth j (reference_row m i) 0) members).

Definition members_nonzero (m : csr) (members : list nat) (j : nat) : nat :=
  length (filter (fun i => negb (nth j (reference_row m i) 0 =? 0)) members).

(** Whether the group with key [k] keeps at least one column. *)
Definition group_passes (m : csr) (groups : list string) (k : string) : bool :=
  match group_row m (k, positions_of k groups) with
  | Some _ => true
  | None => false
  end.

(** The order of rows as the specification words it: retained groups in the
    order in which their key is first met when the strain rows are walked by
    row index. *)
Definition first_encountered_keys (m : csr) (groups : list string)
  : list string :=
  filter (group_passes m groups) (unique groups).

(** A directory listing filtered by the literal part of the pattern: a
    stand-in for [glob.glob] on patterns of the form [prefix*]. *)
Fixpoint literal_part (pattern : string) : string :=
  match pattern with
  | EmptyString => EmptyString
  | String c rest =>
      if Ascii.eqb c "*"%char then EmptyString else String c (literal_part rest)
  end.

Definition listing_glob (fs : filesystem) (pattern : string) : list string :=
  filter (String.prefix (literal_part pattern)) (keys fs).

(** The tally of [k] in a counter, zero when it is not a key. *)
Definition tally (c : pydict nat) (k : string) : nat :=
  match dict_get c k with
  | Some n => n
  | None => 0%nat
  end.

(** The [(column, tally)] pairs that the inner loop of [parse_kegg_table]
    appends for one row, with the column mapping afterwards. *)
Definition line_row_step (acc : list (nat * Z) * pydict nat)
                         (kv : string * nat) : list (nat * Z) * pydict nat :=
  let (row, ids) := acc in
  if String.eqb (fst kv) "" then acc
  else
    let (ids', col) := setdefault ids (fst kv) (length ids) in
    (row ++ [(col, Z.of_nat (snd kv))], ids').

Definition line_row (ids : pydict nat) (cs : pydict nat)
  : list (nat * Z) * pydict nat :=
  fold_left line_row_step cs ([], ids).

(** The rows of a whole file, in order, with the final column mapping. *)
Fixpoint file_rows (ids : pydict nat) (lines : list (list string))
  : list (list (nat * Z)) * pydict nat :=
  match lines with
  | [] => ([], ids)
  | line :: rest =>
      let (row, ids') := line_row ids (Counter (tl line)) in
      let (rows, ids'') := file_rows ids' rest in
      (row :: rows, ids'')
  end.

(** The column of a token under a column mapping. *)
Definition column_of (ids : pydict nat) (kv : string * nat) : nat * Z :=
  (tally ids (fst kv), Z.of_nat (snd kv)).

(** A mapping whose values are 0, 1, 2, ... in insertion order. *)
Definition numbered (d : pydict nat) : Prop :=
  map snd d = seq 0 (length d).

(** [d'] keeps every entry of [d]. *)
Definition extends (d d' : pydict nat) : Prop :=
  forall k c, dict_get d k = Some c -> dict_get d' k = Some c.

(** The shape of a column mapping built by [setdefault(key, len(ids))] on
    non-empty keys. *)
Definition ids_ok (ids : pydict nat) : Prop :=
  numbered ids /\ NoDup (keys ids) /\ ~ In "" (keys ids).

(** [for label in labels: d.setdefault(label, len(d))]. *)
Definition register_labels (d : pydict nat) (labels : list string)
  : pydict nat :=
  fold_left (fun d l => fst (setdefault d l (length d))) labels d.

(** Whether the reference has the row that [row_names] gives for a
    taxatable row; a row whose name is not a key asks for none. *)
Definition row_in_range (row_names : pydict nat) (m : csr)
                        (r : string * list Z) : bool :=
  match dict_get row_names (fst r) with
  | Some idx => Nat.ltb idx (fst (shape m))
  | None => true
  end.

(** The function table before its all-zero rows are dropped: one row per
    function, one column per sample, each cell the 64-bit reduction of the
    predicted abundance. *)
Definition predicted_table (taxatable_df : DataFrame Z)
                           (row_names column_names : pydict nat) (m : csr)
  : DataFrame Z :=
  {| index := sorted_names column_names;
     columns := columns taxatable_df;
     values :=
       tabulate (snd (shape m)) (fun f =>
       tabulate (length (columns taxatable_df)) (fun s =>
         int64 (predicted (iterrows taxatable_df) row_names m s f))) |}.

(** The messages of one complete run of [_create_kegg_table]. *)
Definition propagation_log (taxatable_df : DataFrame Z)
                           (row_names : pydict nat) (m : csr) : log :=
  let found := length (filter (matched row_names) (iterrows taxatable_df)) in
  let overlap := fraction found (length (index taxatable_df)) in
  [(DEBUG, KeggTableShape (shape m));
   (DEBUG, TaxatableShape (df_shape taxatable_df));
   (if Qgtb (5 # 10)%Q overlap then WARNING else DEBUG,
    OverlapOfTaxaAndFunction overlap);
   (DEBUG, RowNamesFound found)].

(** The taxatable rows that reach the sums of [function_run_and_save]: a
    string label with at least [level] ranks. *)
Definition resolved_rows (level : nat) (rows : list (option string * list Z))
  : list (string * list Z) :=
  flat_map (fun r => match fst r with
                     | Some label =>
                         if Nat.leb level (count semicolon label + 1)
                         then [(label, snd r)] else []
                     | None => []
                     end) rows.

(** The cell of a frame at row label [r] and column label [c]. *)
Definition cell (df : DataFrame Z) (r c : string) : option Z :=
  match dict_get (iterrows df) r with
  | Some row => dict_get (combine (columns df) row) c
  | None => None
  end.

(** The number of [(outer, inner)] pairs in a list of pairs. *)
Definition links (pairs : list (string * string)) (outer inner : string)
  : nat :=
  length (filter (fun p => String.eqb (fst p) outer && String.eqb (snd p) inner)
                 pairs).

(** [d[outer].update([inner])] for each pair in turn. *)
Definition tally_pairs (pairs : list (string * string))
                       (d : pydict (pydict nat)) : pydict (pydict nat) :=
  fold_left (fun d p => tally_add d (fst p) (snd p)) pairs d.

(** The count that a nested tally holds for [inner] under [outer]. *)
Definition nested_tally (d : pydict (pydict nat)) (outer inner : string)
  : nat :=
  match dict_get d outer with
  | Some c => tally c inner
  | None => 0%nat
  end.

(** [df] is the membership table of [pairs]: one column per distinct first
    component, one row per distinct second component, each cell the number
    of times the pair occurs. *)
Definition membership_table (pairs : list (string * string))
                            (df : DataFrame Z) : Prop :=
  NoDup (columns df)
  /\ NoDup (index df)
  /\ (forall c, In c (columns df) <-> In c (map fst pairs))
  /\ (forall r, In r (index df) <-> In r (map snd pairs))
  /\ (forall r c, In r (index df) -> In c (columns df) ->
                  cell df r c = Some (Z.of_nat (links pairs c r)))
  /\ length (values df) = length (index df)
  /\ Forall (fun row => length row = length (columns df)) (values df).

(** What a row of the module file adds:
    [(row[0].rstrip(), row[-1][:7])]. *)
Definition module_pair (row : list string) : string * string :=
  (rstrip (hd "" row), str_take 7 (last row "")).

(** The rows of the pathway file that are counted, what such a row adds,
    and the rows that have the fields the loop reads. *)
Definition pathway_counted (row : list string) : bool :=
  String.eqb (nth 1 row "") "Enzymes" && negb (String.eqb (nth 4 row "") "").

Definition pathway_pair (row : list string) : string * string :=
  (rstrip (hd "" row), nth 4 row "").

Definition pathway_row_ok (row : list string) : bool :=
  Nat.leb 2 (length row)
  && (if String.eqb (nth 1 row "") "Enzymes" then Nat.leb 5 (length row)
      else true).

(** Whether some row of the taxatable has a string label. *)
Definition has_string_label (rows : list (option string * list Z)) : bool :=
  existsb (fun r => match fst r with Some _ => true | None => false end) rows.

(** The total of sample [j] over the rows that carry key [k], among the
    rows that reach the sums. *)
Definition key_total (level : nat) (rows : list (option string * list Z))
                     (k : string) (j : nat) : Z :=
  sum (map (fun r => nth j (snd r) 0)
           (filter (fun r => String.eqb (taxatable_summary level (fst r)) k)
                   (resolved_rows level rows))).

(** The table of lines 42 to 47 in terms of the rows that reach the
    sums. *)
Definition summed_taxatable (level : nat) (cols : list string)
                            (rows : list (option string * list Z))
  : DataFrame Z :=
  let kept := map (fun r => (taxatable_summary level (fst r), snd r))
                  (resolved_rows level rows) in
  let ks := sort_by String.leb (unique (map fst kept)) in
  {| index := ks;
     columns := cols;
     values := map (fun k =>
                      sum_rows (length cols)
                               (map snd (filter (fun r => String.eqb (fst r) k)
                                                kept))) ks |}.

Set Implicit Arguments.

(** ** Inputs of the examples *)

Definition two_strains : list (list string) :=
  [["G;s1"; "K1"; "K2"; "K1"; ""]; ["G;s2"; "K2"]].

Definition duplicated_label : list (list string) :=
  [["A"; "K1"]; ["A"; "K2"]; ["B"; "K3"]].

Definition two_taxa : DataFrame Z :=
  {| index := ["G"; "H"]; columns := ["s1"; "s2"];
     values := [[10; 1]; [7; 7]] |}.

Definition large_taxon : DataFrame Z :=
  {| index := ["G"]; columns := ["s1"]; values := [[2 ^ 62]] |}.

Definition doubled_reference : csr :=
  {| data := [2]; indices := [0%nat]; indptr := [0; 1]%nat;
     shape := (1%nat, 1%nat) |}.

Definition genus_G_reference : csr :=
  {| data := [6; 2]; indices := [0; 1]%nat; indptr := [0; 2]%nat;
     shape := (1%nat, 2%nat) |}.

Definition five_strains : list (list string) :=
  [["G;s1"; "K1"; "K2"]; ["G;s2"; "K1"; "K2"]; ["G;s3"; "K1"; "K2"];
   ["G;s4"; "K1"; "K2"]; ["G;s5"; "K1"]].

Definition five_strains_names : pydict nat :=
  [("G;s1", 0); ("G;s2", 1); ("G;s3", 2); ("G;s4", 3); ("G;s5", 4)]%nat.

Definition five_strains_csr : csr :=
  {| data := [1; 1; 1; 1; 1; 1; 1; 1; 1];
     indices := [0; 1; 0; 1; 0; 1; 0; 1; 0]%nat;
     indptr := [0; 2; 4; 6; 8; 9]%nat;
     shape := (5%nat, 2%nat) |}.

Definition five_strains_collapsed : csr :=
  {| data := [1]; indices := [0%nat]; indptr := [0; 1]%nat;
     shape := (1%nat, 1%nat) |}.

Definition wrapped_strain : list (list string) :=
  [("G;s1" :: repeat "K1" 128 ++ ["K2"])].

Definition padded_strain : list (list string) :=
  [("G;s1" :: "K1" :: repeat "" 128)].

Definition padded_csr : csr :=
  {| data := [1]; indices := [0%nat]; indptr := [0; 1]%nat;
     shape := (1%nat, 1%nat) |}.

Definition wrapped_csr : csr :=
  {| data := [-128; 1]; indices := [0; 1]%nat; indptr := [0; 2]%nat;
     shape := (1%nat, 2%nat) |}.

Definition wrapped_collapsed : csr :=
  {| data := [1]; indices := [1%nat]; indptr := [0; 1]%nat;
     shape := (1%nat, 2%nat) |}.

Definition two_genera : list (list string) :=
  [["B;s1"; "K1"]; ["A;s2"; "K1"; "K1"]].

Definition two_genera_csr : csr :=
  {| data := [1; 2]; indices := [0; 0]%nat; indptr := [0; 1; 2]%nat;
     shape := (2%nat, 1%nat) |}.

Definition two_genera_collapsed : csr :=
  {| data := [2; 1]; indices := [0; 0]%nat; indptr := [0; 1; 2]%nat;
     shape := (2%nat, 1%nat) |}.

Definition unannotated_strain : list (list string) :=
  [["G;s1"; "K1"]; ["H;s2"; ""]].

Definition unannotated_csr : csr :=
  {| data := [1]; indices := [0%nat]; indptr := [0; 1; 1]%nat;
     shape := (2%nat, 1%nat) |}.

Definition kegg_two_functions : DataFrame Z :=
  {| index := ["K1"; "K2"]; columns := ["s1"]; values := [[60]; [4]] |}.

Definition two_modules : DataFrame Z :=
  {| index := ["M1"; "M2"]; columns := ["K2"; "K3"];
     values := [[2; 1]; [0; 1]] |}.

Definition kegg_one_function : DataFrame Z :=
  {| index := ["K1"]; columns := ["s1"]; values := [[3]] |}.

Definition one_module : DataFrame Z :=
  {| index := ["M1"]; columns := ["K2"]; values := [[1]] |}.

Definition both_functions : DataFrame Z :=
  {| index := ["M1"; "M2"]; columns := ["K2"; "K1"];
     values := [[1; 2]; [0; 0]] |}.

Definition large_function : DataFrame Z :=
  {| index := ["K1"]; columns := ["s1"]; values := [[2 ^ 62]] |}.

Definition one_member : DataFrame Z :=
  {| index := ["M1"]; columns := ["K1"]; values := [[2]] |}.

Definition repeated_function : DataFrame Z :=
  {| index := ["K1"; "K1"]; columns := ["s1"]; values := [[1]; [2]] |}.

Definition kegg_db : filesystem :=
  [("db/kegg-module-annotations.txt", [["K00001"; "M00001"]]);
   ("db/kegg-strain2ko.txt", two_strains);
   ("db/kegg-pathway-annotations.txt",
    [["K00001"; "Enzymes"; ""; ""; "ko00010"]])].

Definition kegg_db_no_pathways : filesystem :=
  [("db/kegg-module-annotations.txt", [["K00001"; "M00001"]]);
   ("db/kegg-strain2ko.txt", two_strains)].

Definition spaced_genus_csr : csr :=
  {| data := [1]; indices := [0%nat]; indptr := [0; 1]%nat;
     shape := (1%nat, 1%nat) |}.

Definition underscored_twin_csr : csr :=
  {| data := [1; 2]; indices := [0; 0]%nat; indptr := [0; 1; 2]%nat;
     shape := (2%nat, 1%nat) |}.

Definition underscored_twin_db : func_db :=
  {| db_pathways := {| index := []; columns := []; values := [] |};
     db_modules := {| index := []; columns := []; values := [] |};
     db_names := [("A b;x", 0%nat); ("A_b;y", 1%nat)];
     db_kegg_ids := [("K1", 0%nat)];
     db_csr := underscored_twin_csr |}.

Definition two_taxa_swapped : DataFrame Z :=
  {| index := ["H"; "G"]; columns := ["s1"; "s2"];
     values := [[7; 7]; [10; 1]] |}.

Definition one_taxon : DataFrame Z :=
  {| index := ["G"]; columns := ["s1"]; values := [[10]] |}.

Definition mixed_taxatable : list (option string * list Z) :=
  [(Some "k;B c;s1", [1; 2]); (None, [5; 5]); (Some "k", [9; 9]);
   (Some "k;A;s2", [3; 4]); (Some "k;B c;s3", [10; 20])].

(** U+00A0, a no-break space, and U+00E9, an e with acute accent, in
    UTF-8. *)
Definition nbsp : string :=
  String (ascii_of_nat 194) (String (ascii_of_nat 160) EmptyString).

Definition e_acute : string :=
  String (ascii_of_nat 195) (String (ascii_of_nat 169) EmptyString).

Definition module_file : list (list string) :=
  [["K00001 "; "x"; "M00001_extra"]; ["K00002"; "M00001"];
   ["K00001"; "M00001"]; ["K00002"; "M00002"];
   [("K00001" ++ nbsp)%string; ("M00" ++ e_acute ++ "01_extra")%string]].

Definition pathway_file : list (list string) :=
  [["K00001 "; "Enzymes"; ""; ""; "ko00010"];
   ["K00001"; "Other"];
   ["K00002"; "Enzymes"; ""; ""; ""];
   ["K00001"; "Enzymes"; ""; ""; "ko00010"; "more"];
   [("K00001" ++ nbsp)%string; "Enzymes"; ""; ""; "ko00010"]].

Definition two_strains_db : func_db :=
  {| db_pathways := one_module;
     db_modules := two_modules;
     db_names := [("G;s1", 0%nat); ("G;s2", 1%nat)];
     db_kegg_ids := [("K1", 0%nat); ("K2", 1%nat)];
     db_csr := {| data := [2; 1; 1]; indices := [0; 1; 1]%nat;
                  indptr := [0; 2; 3]%nat; shape := (2%nat, 2%nat) |} |}.

(** * Properties *)

(** ** Worked examples *)

Example parse_two_strains :
  parse_kegg_table [["G;s1"; "K1"; "K2"; "K1"; ""]; ["G;s2"; "K2"]]
  = Ok ([("G;s1", 0%nat); ("G;s2", 1%nat)],
        [("K1", 0%nat); ("K2", 1%nat)],
        {| data := [2; 1; 1]; indices := [0; 1; 1]%nat;
           indptr := [0; 2; 3]%nat; shape := (2%nat, 2%nat) |}).
Proof. reflexivity. Qed.

(** The end-to-end scenario of the specification: two strains of genus G
    with K1 counts 5 and 7 collapse to one row with K1 = 6. *)
Example collapse_genus_G :
  (r <- parse_kegg_table
          [["G;s1"; "K1"; "K1"; "K1"; "K1"; "K1"];
           ["G;s2"; "K1"; "K1"; "K1"; "K1"; "K1"; "K1"; "K1"]] ;;
   let '(names, ids, m) := r in summarize_at_level m names ids 1)
  = Ok ({| data := [6]; indices := [0%nat]; indptr := [0; 1]%nat;
           shape := (1%nat, 1%nat) |}, [("G", 0%nat)]).
Proof. reflexivity. Qed.

(** The scenario of the specification continued: abundance 10 of genus G
    gives K1 = 60. *)
Example propagate_genus_G :
  _create_kegg_table
    {| index := ["G"]; columns := ["sample1"]; values := [[10]] |}
    [("G", 0%nat)] [("K1", 0%nat)]
    {| data := [6]; indices := [0%nat]; indptr := [0; 1]%nat;
       shape := (1%nat, 1%nat) |}
  = Ok ({| index := ["K1"]; columns := ["sample1"]; values := [[60]] |},
        [(DEBUG, KeggTableShape (1%nat, 1%nat));
         (DEBUG, TaxatableShape (1%nat, 1%nat));
         (DEBUG, OverlapOfTaxaAndFunction (fraction 1 1));
         (DEBUG, RowNamesFound 1)]).
Proof. reflexivity. Qed.

Example summarize_modules :
  summarize_kegg_table small_dot_float64
    {| index := ["K1"; "K2"]; columns := ["s1"]; values := [[60]; [4]] |}
    {| index := ["M1"; "M2"]; columns := ["K2"; "K3"];
       values := [[2; 1]; [0; 1]] |}
  = Ok ({| index := ["M1"]; columns := ["s1"]; values := [[8]] |},
        {| index := ["M1"]; columns := ["s1"];
           values := [[Some (inject_Z 2 / inject_Z 3)%Q]] |}).
Proof. reflexivity. Qed.

(** ** Loops *)

Lemma bind_Ok {A B} (r : result A) (k : A -> result B) (b : B) :
  bind r k = Ok b -> exists a, r = Ok a /\ k a = Ok b.
Proof.
  destruct r as [a | e]; simpl; intros H; [exists a; auto | discriminate].
Qed.

(** An invariant kept by the loop body is kept by the loop. *)
Lemma for_each_inv {S X} (body : S -> X -> result S)
      (I : S -> Prop) (P : X -> Prop) :
  (forall st x st', P x -> I st -> body st x = Ok st' -> I st') ->
  forall xs st st',
    Forall P xs -> I st -> for_each body xs st = Ok st' -> I st'.
Proof.
  intros Hstep xs; induction xs as [| x xs IH]; simpl; intros st st' HP HI H.
  - injection H as <-; exact HI.
  - apply bind_Ok in H as (st1 & H1 & H2).
    inversion HP as [| ? ? HPx HPxs]; subst.
    apply (IH st1 st' HPxs); [| exact H2].
    exact (Hstep st x st1 HPx HI H1).
Qed.

Lemma Forall_True {X} (xs : list X) : Forall (fun _ => True) xs.
Proof. induction xs; constructor; auto. Qed.

(** ** Fixed-width integers *)

Lemma wrap_small bits x : 0 < bits -> fits bits x -> wrap bits x = x.
Proof.
  unfold fits, wrap; intros Hb Hx.
  assert (H2 : 2 ^ bits = 2 * 2 ^ (bits - 1)).
  { replace bits with (Z.succ (bits - 1)) at 1 by lia.
    rewrite Z.pow_succ_r by lia; reflexivity. }
  rewrite Z.mod_small; lia.
Qed.

Lemma int8_small v : -128 <= v <= 127 -> int8 v = v.
Proof.
  intros H; apply wrap_small; [lia |].
  unfold fits; change (2 ^ (8 - 1)) with 128; lia.
Qed.

(** ** [Counter] *)

Lemma counter_add_bound (f : string -> nat) c x :
  (forall k n, In (k, n) c -> (1 <= n <= f k)%nat) ->
  forall k n, In (k, n) (counter_add c x) ->
              (1 <= n <= f k + (if string_dec x k then 1 else 0))%nat.
Proof.
  induction c as [| [k' n'] c IH]; simpl; intros Hc k n Hin.
  - destruct Hin as [Heq | []]; injection Heq as <- <-.
    destruct (string_dec x x); [lia | congruence].
  - destruct (String.eqb_spec k' x) as [-> | Hne]; simpl in Hin.
    + destruct Hin as [Heq | Hin].
      * injection Heq as <- <-.
        specialize (Hc x n' (or_introl eq_refl)).
        destruct (string_dec x x); [lia | congruence].
      * specialize (Hc k n (or_intror Hin)).
        destruct (string_dec x k); lia.
    + destruct Hin as [Heq | Hin].
      * injection Heq as <- <-.
        specialize (Hc k' n' (or_introl eq_refl)).
        destruct (string_dec x k'); lia.
      * apply IH; auto.
Qed.

Lemma counter_fold_bound xs : forall (f : string -> nat) c,
  (forall k n, In (k, n) c -> (1 <= n <= f k)%nat) ->
  forall k n, In (k, n) (fold_left counter_add xs c) ->
              (1 <= n <= f k + count_occ string_dec xs k)%nat.
Proof.
  induction xs as [| x xs IH]; simpl; intros f c Hc k n Hin.
  - specialize (Hc k n Hin); lia.
  - specialize (IH (fun k => (f k + (if string_dec x k then 1 else 0))%nat)
                   (counter_add c x) (counter_add_bound f c x Hc) k n Hin).
    simpl in IH.
    destruct (string_dec x k); lia.
Qed.

(** Every tally of a [Counter] is at least one and at most the number of
    occurrences of its key. *)
Lemma Counter_bound xs k n :
  In (k, n) (Counter xs) -> (1 <= n <= count_occ string_dec xs k)%nat.
Proof.
  intros Hin.
  apply (counter_fold_bound xs (fun _ => 0%nat) []) in Hin; [exact Hin |].
  intros ? ? [].
Qed.

(** ** [parse_kegg_table] *)

Lemma add_count_data cs : forall ind ids d,
  snd (fold_left add_count cs (ind, ids, d))
  = d ++ map (fun kv => Z.of_nat (snd kv)) (filter nonblank cs).
Proof.
  induction cs as [| kv cs IH]; simpl; intros ind ids d.
  - now rewrite app_nil_r.
  - unfold nonblank at 1.
    destruct (String.eqb (fst kv) ""); simpl.
    + apply IH.
    + destruct (setdefault ids (fst kv) (length ids)) as [ids' col].
      rewrite IH, <- app_assoc; reflexivity.
Qed.

Lemma parse_line_data st line st' :
  parse_line st line = Ok st' ->
  st_data st' = st_data st
                ++ map (fun kv => Z.of_nat (snd kv))
                       (filter nonblank (Counter (tl line)))
  /\ length (st_indptr st') = S (length (st_indptr st)).
Proof.
  destruct line as [| label fields]; simpl; [discriminate |].
  pose proof (add_count_data (Counter fields) (st_indices st)
                             (st_kegg_ids st) (st_data st)) as Hd.
  destruct (fold_left add_count (Counter fields)
                      (st_indices st, st_kegg_ids st, st_data st))
    as [[ind ids] d].
  intros H; injection H as <-; simpl in *.
  split; [exact Hd |].
  rewrite length_app; simpl; lia.
Qed.

(** What holds of every tally of every row holds of the triple values
    handed to [csr_matrix]. *)
Lemma parse_tallies (P : list string -> Prop) (V : Z -> Prop) infile st :
  (forall line k n, P line -> In (k, n) (Counter (tl line)) ->
                    V (Z.of_nat n)) ->
  Forall P infile ->
  for_each parse_line infile kegg_state0 = Ok st ->
  Forall V (st_data st).
Proof.
  intros HV HP H.
  apply (@for_each_inv _ _ parse_line (fun s => Forall V (st_data s)) P)
    with (xs := infile) (st := kegg_state0);
    [| exact HP | constructor | exact H].
  intros s line s' Hline HI Hstep.
  apply parse_line_data in Hstep as [-> _].
  apply Forall_app; split; [exact HI |].
  apply Forall_forall; intros v Hv.
  apply in_map_iff in Hv as ([k n] & <- & Hkn).
  apply filter_In in Hkn as [Hkn _].
  exact (HV line k n Hline Hkn).
Qed.

Lemma parse_rows infile : forall st st',
  for_each parse_line infile st = Ok st' ->
  length (st_indptr st') = (length (st_indptr st) + length infile)%nat.
Proof.
  induction infile as [| line infile IH]; simpl; intros st st' H.
  - injection H as <-; lia.
  - apply bind_Ok in H as (st1 & H1 & H2).
    apply parse_line_data in H1 as [_ H1].
    apply IH in H2; lia.
Qed.

(** The matrix has one row per line of the file. *)
Lemma parse_kegg_table_rows infile row_names kegg_ids m :
  parse_kegg_table infile = Ok (row_names, kegg_ids, m) ->
  fst (shape m) = length infile.
Proof.
  unfold parse_kegg_table; intros H.
  apply bind_Ok in H as (st & Hst & H).
  apply bind_Ok in H as (m' & Hm & H).
  injection H as _ _ ->.
  apply parse_rows in Hst; simpl in Hst.
  unfold csr_matrix in Hm.
  destruct (st_indices st); [discriminate |].
  injection Hm as <-; simpl; lia.
Qed.

Lemma parse_kegg_table_data infile row_names kegg_ids m :
  parse_kegg_table infile = Ok (row_names, kegg_ids, m) ->
  exists st, for_each parse_line infile kegg_state0 = Ok st
             /\ data m = map int8 (st_data st).
Proof.
  unfold parse_kegg_table; intros H.
  apply bind_Ok in H as (st & Hst & H).
  apply bind_Ok in H as (m' & Hm & H).
  injection H as _ _ ->.
  exists st; split; [exact Hst |].
  unfold csr_matrix in Hm.
  destruct (st_indices st); [discriminate |].
  injection Hm as <-; reflexivity.
Qed.

(** C4 as stated fails: a row that repeats one token 128 times stores the
    count -128. *)
Lemma parse_kegg_table_count_wraps :
  exists row_names kegg_ids m,
    parse_kegg_table [("s1" :: repeat "K1" 128)] = Ok (row_names, kegg_ids, m)
    /\ data m = [-128]
    /\ ~ Forall (fun v => 0 < v) (data m).
Proof.
  eexists _, _, _; split; [vm_compute; reflexivity |].
  split; [reflexivity |].
  simpl; intros H; inversion H; lia.
Qed.

(** C5 at a file that lists the label A twice: the matrix has three rows for
    two distinct labels, and the index registered for B is that of the
    second A row. *)
Theorem parse_kegg_table_duplicate_label :
  exists row_names kegg_ids m,
    parse_kegg_table duplicated_label = Ok (row_names, kegg_ids, m)
    /\ fst (shape m) = 3%nat
    /\ length (unique (map (fun line => hd "" line) duplicated_label)) = 2%nat
    /\ row_names = [("A", 0%nat); ("B", 1%nat)]
    /\ getrow m 1 = Ok [0; 1; 0]
    /\ getrow m 2 = Ok [0; 0; 1].
Proof.
  eexists _, _, _; split; [vm_compute; reflexivity |].
  repeat split.
Qed.

(** ** Wrap-around arithmetic *)

Lemma wrap_repr bits x : exists k, wrap bits x = x + k * 2 ^ bits.
Proof.
  unfold wrap.
  exists (- ((x + 2 ^ (bits - 1)) / 2 ^ bits)).
  destruct (Z.eq_dec (2 ^ bits) 0) as [H0 | H0].
  - rewrite H0, Z.mod_0_r; lia.
  - rewrite Z.mod_eq by exact H0; lia.
Qed.

Lemma wrap_shift bits x k : wrap bits (x + k * 2 ^ bits) = wrap bits x.
Proof.
  unfold wrap.
  replace (x + k * 2 ^ bits + 2 ^ (bits - 1))
    with (x + 2 ^ (bits - 1) + k * 2 ^ bits) by lia.
  now rewrite Z_mod_plus_full.
Qed.

Lemma wrap_add bits a b :
  wrap bits (wrap bits a + wrap bits b) = wrap bits (a + b).
Proof.
  destruct (wrap_repr bits a) as [ka ->].
  destruct (wrap_repr bits b) as [kb ->].
  replace (a + ka * 2 ^ bits + (b + kb * 2 ^ bits))
    with (a + b + (ka + kb) * 2 ^ bits) by lia.
  apply wrap_shift.
Qed.

(** ** Tables built by position *)

Lemma nth_tabulate {A} (n : nat) (f : nat -> A) (i : nat) (d : A) :
  (i < n)%nat -> nth i (tabulate n f) d = f i.
Proof.
  intros Hi; unfold tabulate.
  rewrite (nth_indep _ d (f 0%nat)) by (now rewrite length_map, length_seq).
  rewrite map_nth, seq_nth by exact Hi; reflexivity.
Qed.

Lemma tabulate_ext {A} (n : nat) (f g : nat -> A) :
  (forall i, (i < n)%nat -> f i = g i) -> tabulate n f = tabulate n g.
Proof.
  intros H; unfold tabulate; apply map_ext_in.
  intros i Hi; apply in_seq in Hi; apply H; lia.
Qed.

Lemma length_tabulate {A} (n : nat) (f : nat -> A) : length (tabulate n f) = n.
Proof. unfold tabulate; now rewrite length_map, length_seq. Qed.

Lemma entry_tabulate ns nk (g : nat -> nat -> Z) s f :
  (s < ns)%nat -> (f < nk)%nat ->
  entry (tabulate ns (fun s => tabulate nk (g s))) s f = g s f.
Proof.
  intros Hs Hf; unfold entry.
  rewrite (nth_tabulate _ _ Hs), (nth_tabulate _ _ Hf); reflexivity.
Qed.

Lemma sum_app xs ys : sum (xs ++ ys) = sum xs + sum ys.
Proof. induction xs; simpl; lia. Qed.

Lemma sum_map_ext {X} (f g : X -> Z) xs :
  (forall x, In x xs -> f x = g x) -> sum (map f xs) = sum (map g xs).
Proof. intros H; f_equal; apply map_ext_in; exact H. Qed.

Lemma sum_map_add {X} (f g : X -> Z) xs :
  sum (map (fun x => f x + g x) xs) = sum (map f xs) + sum (map g xs).
Proof. induction xs; simpl; lia. Qed.

Lemma sum_map_scale {X} (c : Z) (f : X -> Z) xs :
  sum (map (fun x => c * f x) xs) = c * sum (map f xs).
Proof. induction xs; simpl; lia. Qed.

Lemma sum_map_zero {X} (xs : list X) : sum (map (fun _ => 0) xs) = 0.
Proof. induction xs; simpl; lia. Qed.

(** Summation in either order. *)
Lemma sum_exchange {X Y} (h : X -> Y -> Z) xs ys :
  sum (map (fun x => sum (map (h x) ys)) xs)
  = sum (map (fun y => sum (map (fun x => h x y) xs)) ys).
Proof.
  induction xs as [| x xs IH]; simpl.
  - now rewrite sum_map_zero.
  - rewrite IH, <- sum_map_add; reflexivity.
Qed.

Lemma sum_nth_seq (l : list Z) :
  sum (map (fun j => nth j l 0) (seq 0 (length l))) = sum l.
Proof.
  induction l as [| x l IH]; simpl; [reflexivity |].
  rewrite <- seq_shift, map_map; simpl; rewrite IH; reflexivity.
Qed.

(** ** [_create_kegg_table] *)

Lemma getrow_Ok m idx ref : getrow m idx = Ok ref -> ref = reference_row m idx.
Proof.
  unfold getrow; destruct (Nat.ltb idx (fst (shape m))); [| discriminate].
  intros H; injection H as <-; reflexivity.
Qed.

(** The accumulator after the loop holds, in every cell, the 64-bit
    reduction of the predicted abundance. *)
Lemma propagate_rows ns m row_names rows :
  forall (p0 : nat -> nat -> Z) found acc' found',
    for_each (propagate_row ns (snd (shape m)) row_names m) rows
             (tabulate ns (fun s => tabulate (snd (shape m))
                                             (fun f => int64 (p0 s f))), found)
    = Ok (acc', found') ->
    acc' = tabulate ns (fun s => tabulate (snd (shape m)) (fun f =>
             int64 (p0 s f + predicted rows row_names m s f)))
    /\ found' = (found + length (filter (matched row_names) rows))%nat.
Proof.
  induction rows as [| [name row] rows IH]; simpl; intros p0 found acc' found' H.
  - injection H as <- <-; split; [| lia].
    apply tabulate_ext; intros s Hs; apply tabulate_ext; intros f Hf.
    unfold predicted; simpl; f_equal; lia.
  - apply bind_Ok in H as ([acc1 found1] & H1 & H2).
    unfold matched at 1, dict_mem; simpl.
    unfold predicted; simpl; unfold contribution at 1; simpl.
    destruct (dict_get row_names name) as [idx |] eqn:Hget.
    + apply bind_Ok in H1 as (ref & Href & H1).
      apply getrow_Ok in Href; subst ref.
      injection H1 as <- <-.
      assert (Hacc : iadd ns (snd (shape m))
                       (tabulate ns (fun s => tabulate (snd (shape m))
                                                (fun f => int64 (p0 s f))))
                       (outer ns (snd (shape m)) row (reference_row m idx))
                     = tabulate ns (fun s => tabulate (snd (shape m)) (fun f =>
                         int64 (p0 s f + nth s row 0
                                         * nth f (reference_row m idx) 0)))).
      { unfold iadd, outer.
        apply tabulate_ext; intros s Hs; apply tabulate_ext; intros f Hf.
        rewrite !entry_tabulate by assumption.
        apply wrap_add. }
      rewrite Hacc in H2.
      apply IH in H2 as [-> ->]; split; [| simpl; lia].
      apply tabulate_ext; intros s Hs; apply tabulate_ext; intros f Hf.
      f_equal; unfold predicted; lia.
    + injection H1 as <- <-.
      apply IH in H2 as [-> ->]; split; [| simpl; lia].
      apply tabulate_ext; intros s Hs; apply tabulate_ext; intros f Hf.
      f_equal; unfold predicted; lia.
Qed.

Lemma map_snd_combine {X Y} (xs : list X) (ys : list Y) :
  length xs = length ys -> map snd (combine xs ys) = ys.
Proof.
  revert ys; induction xs as [| x xs IH]; intros [| y ys]; simpl;
    intros H; try discriminate; [reflexivity |].
  f_equal; apply IH; lia.
Qed.

Lemma all_zero_nth (row : list Z) (s : nat) :
  existsb (fun v => negb (v =? 0)) row = false -> nth s row 0 = 0.
Proof.
  revert s; induction row as [| v row IH]; intros [| s]; simpl; try reflexivity.
  - destruct (Z.eqb_spec v 0); simpl; [auto | discriminate].
  - destruct (v =? 0); simpl; [apply IH | discriminate].
Qed.

(** Dropping the all-zero rows leaves every column total as it was. *)
Lemma sample_total_drop_zero_rows df s :
  length (index df) = length (values df) ->
  sample_total (drop_zero_rows df) s = sample_total df s.
Proof.
  intros Hlen; unfold sample_total, drop_zero_rows, iterrows; simpl.
  rewrite <- (map_snd_combine (index df) (values df) Hlen) at 2.
  induction (combine (index df) (values df)) as [| [l row] rows IH];
    simpl; [reflexivity |].
  destruct (existsb (fun v => negb (v =? 0)) row) eqn:Hz; simpl.
  - now rewrite IH.
  - rewrite IH, (all_zero_nth row s Hz); reflexivity.
Qed.

Lemma length_dense_of n es : length (dense_of n es) = n.
Proof. unfold dense_of; now rewrite length_map, length_seq. Qed.

Lemma predicted_total rows row_names m s :
  sum (map (predicted rows row_names m s) (seq 0 (snd (shape m))))
  = weighted_reference_total rows row_names m s.
Proof.
  unfold predicted, weighted_reference_total.
  rewrite <- (sum_exchange (fun r f => contribution row_names m s f r)).
  apply sum_map_ext; intros [name row] _.
  unfold contribution; simpl.
  destruct (dict_get row_names name) as [idx |]; [| apply sum_map_zero].
  rewrite sum_map_scale; f_equal.
  rewrite <- (sum_nth_seq (reference_row m idx)).
  unfold reference_row at 3; rewrite length_dense_of; reflexivity.
Qed.

(** The shape of the table before the zero rows are dropped. *)
Lemma create_kegg_table_Ok taxatable_df row_names column_names m out lg :
  _create_kegg_table taxatable_df row_names column_names m = Ok (out, lg) ->
  out = drop_zero_rows
          {| index := sorted_names column_names;
             columns := columns taxatable_df;
             values :=
               tabulate (snd (shape m)) (fun f =>
               tabulate (length (columns taxatable_df)) (fun s =>
                 int64 (predicted (iterrows taxatable_df) row_names m s f))) |}
  /\ length (sorted_names column_names) = snd (shape m)
  /\ index taxatable_df <> []
  /\ lg = [(DEBUG, KeggTableShape (shape m));
           (DEBUG, TaxatableShape (df_shape taxatable_df));
           (if Qgtb (5 # 10)%Q
                 (fraction (length (filter (matched row_names)
                                           (iterrows taxatable_df)))
                           (length (index taxatable_df)))
            then WARNING else DEBUG,
            OverlapOfTaxaAndFunction
              (fraction (length (filter (matched row_names)
                                        (iterrows taxatable_df)))
                        (length (index taxatable_df))));
           (DEBUG, RowNamesFound (length (filter (matched row_names)
                                                 (iterrows taxatable_df))))].
Proof.
  unfold _create_kegg_table.
  destruct (shape m) as [ntk nk] eqn:Hshape; cbn [df_shape snd].
  assert (Hnk : nk = snd (shape m)) by now rewrite Hshape.
  intros H; apply bind_Ok in H as ([acc found] & Hloop & H).
  rewrite Hnk in Hloop.
  change (tabulate (length (columns taxatable_df))
                   (fun _ => tabulate (snd (shape m)) (fun _ => 0)))
    with (tabulate (length (columns taxatable_df))
                   (fun s => tabulate (snd (shape m))
                                      (fun f => int64 ((fun _ _ => 0) s f))))
    in Hloop.
  apply (propagate_rows _ _ _ _ (fun _ _ => 0)) in Hloop as [-> ->];
    simpl in H.
  destruct (Nat.eqb (length (index taxatable_df)) 0) eqn:Hn; [discriminate |].
  destruct (Nat.eqb (length (sorted_names column_names)) nk) eqn:Hc;
    [| discriminate].
  apply Nat.eqb_eq in Hc; apply Nat.eqb_neq in Hn.
  injection H as <- <-.
  rewrite Hshape in *; simpl.
  repeat split.
  - unfold df_T; simpl; rewrite Hc; do 2 f_equal.
    apply tabulate_ext; intros f Hf; apply tabulate_ext; intros s Hs.
    apply entry_tabulate; assumption.
  - exact Hc.
  - intros Hnil; rewrite Hnil in Hn; simpl in Hn; congruence.
Qed.

Lemma wrap_sum {X} bits (g : X -> Z) xs :
  wrap bits (sum (map (fun x => wrap bits (g x)) xs))
  = wrap bits (sum (map g xs)).
Proof.
  induction xs as [| x xs IH]; simpl; [reflexivity |].
  rewrite <- (wrap_add bits (wrap bits (g x))), IH.
  rewrite <- (wrap_add bits (g x)).
  f_equal; f_equal.
  destruct (wrap_repr bits (g x)) as [k Hk].
  rewrite Hk at 1; apply wrap_shift.
Qed.

(** A row whose taxon is not a key of the row mapping adds nothing to any
    cell. *)
Lemma predicted_matched rows row_names m s f :
  predicted rows row_names m s f
  = predicted (filter (matched row_names) rows) row_names m s f.
Proof.
  unfold predicted.
  induction rows as [| r rows IH]; [reflexivity |].
  cbn [filter map].
  destruct (matched row_names r) eqn:Hm.
  - cbn [map]; unfold sum in *; cbn [fold_right]; now rewrite IH.
  - unfold matched, dict_mem in Hm; unfold contribution at 1.
    destruct (dict_get row_names (fst r)); [discriminate |].
    unfold sum in *; cbn [fold_right]; now rewrite IH.
Qed.

(** C1, as the code has it.  Whenever a function table is produced, every
    entry of it is the 64-bit reduction of the sum of abundance times
    reference count over the taxatable rows whose taxon is a key of the
    reference row mapping: the other rows add nothing to any entry.  The
    total of a sample column agrees modulo 2^64 with the sum, over those
    rows, of the abundance times the total of the taxon's reference row,
    and the two are equal as integers when the predicted abundances of the
    sample fit 64 bits. *)
Theorem create_kegg_table_sample_total
        taxatable_df row_names column_names m out lg s :
  _create_kegg_table taxatable_df row_names column_names m = Ok (out, lg) ->
  (s < length (columns taxatable_df))%nat ->
  int64 (sample_total out s)
  = int64 (weighted_reference_total (iterrows taxatable_df) row_names m s)
  /\ ((forall f, (f < snd (shape m))%nat ->
                 fits 64 (predicted (iterrows taxatable_df) row_names m s f)) ->
      sample_total out s
      = weighted_reference_total (iterrows taxatable_df) row_names m s)
  /\ out
     = drop_zero_rows
         {| index := sorted_names column_names;
            columns := columns taxatable_df;
            values :=
              tabulate (snd (shape m)) (fun f =>
              tabulate (length (columns taxatable_df)) (fun s' =>
                int64 (predicted (filter (matched row_names)
                                         (iterrows taxatable_df))
                                 row_names m s' f))) |}.
Proof.
  intros H Hs.
  apply create_kegg_table_Ok in H as (-> & Hlen & _ & _).
  apply (proj1 (and_assoc _ _ _)); split.
  2:{ do 2 f_equal.
      apply tabulate_ext; intros f _; apply tabulate_ext; intros s' _.
      now rewrite <- predicted_matched. }
  rewrite sample_total_drop_zero_rows
    by (simpl; now rewrite length_tabulate).
  unfold sample_total; simpl.
  rewrite <- predicted_total.
  assert (Hcol :
            sum (map (fun row => nth s row 0)
                     (tabulate (snd (shape m)) (fun f =>
                      tabulate (length (columns taxatable_df)) (fun s0 =>
                        int64 (predicted (iterrows taxatable_df)
                                         row_names m s0 f)))))
            = sum (map (fun f => int64 (predicted (iterrows taxatable_df)
                                                  row_names m s f))
                       (seq 0 (snd (shape m))))).
  { unfold tabulate at 1; rewrite map_map.
    apply sum_map_ext; intros f _.
    rewrite (nth_tabulate _ 0 Hs); reflexivity. }
  rewrite Hcol.
  split; [apply wrap_sum |].
  intros Hfit.
  apply (sum_map_ext
           (fun f => int64 (predicted (iterrows taxatable_df) row_names m s f))
           (predicted (iterrows taxatable_df) row_names m s)).
  intros f Hf; apply in_seq in Hf.
  apply wrap_small; [lia | apply Hfit; lia].
Qed.

Example propagate_two_taxa :
  _create_kegg_table two_taxa [("G", 0%nat)] [("K1", 0%nat); ("K2", 1%nat)]
                     genus_G_reference
  = Ok ({| index := ["K1"; "K2"]; columns := ["s1"; "s2"];
           values := [[60; 6]; [20; 2]] |},
        [(DEBUG, KeggTableShape (1%nat, 2%nat));
         (DEBUG, TaxatableShape (2%nat, 2%nat));
         (DEBUG, OverlapOfTaxaAndFunction (fraction 1 2));
         (DEBUG, RowNamesFound 1)]).
Proof. reflexivity. Qed.

Lemma create_kegg_table_sample_total_witness :
  60 + 20 = 10 * (6 + 2).
Proof.
  change (60 + 20 = 10 * (6 + 2))
    with (sample_total {| index := ["K1"; "K2"]; columns := ["s1"; "s2"];
                          values := [[60; 6]; [20; 2]] |} 0
          = 10 * (6 + 2)).
  apply (create_kegg_table_sample_total
           two_taxa [("G", 0%nat)] [("K1", 0%nat); ("K2", 1%nat)]
           genus_G_reference (s := 0%nat) propagate_two_taxa).
  - simpl; lia.
  - intros [| [| f]] Hf; [| | simpl in Hf; lia];
      unfold fits; vm_compute; split; congruence.
Defined.

(** C1 as stated fails where the accumulator overflows: one taxon of
    abundance 2^62 whose reference row counts a function twice gives the
    sample the total -2^63, while the weighted total of the reference row
    is 2^63. *)
Lemma create_kegg_table_total_wraps :
  exists lg,
    parse_kegg_table [["G"; "K1"; "K1"]]
    = Ok ([("G", 0%nat)], [("K1", 0%nat)], doubled_reference)
    /\ _create_kegg_table large_taxon [("G", 0%nat)] [("K1", 0%nat)]
                          doubled_reference
       = Ok ({| index := ["K1"]; columns := ["s1"];
                values := [[- 2 ^ 63]] |}, lg)
    /\ sample_total {| index := ["K1"]; columns := ["s1"];
                       values := [[- 2 ^ 63]] |} 0 = - 2 ^ 63
    /\ weighted_reference_total (iterrows large_taxon) [("G", 0%nat)]
                                doubled_reference 0 = 2 ^ 63
    /\ sample_total {| index := ["K1"]; columns := ["s1"];
                       values := [[- 2 ^ 63]] |} 0
       <> weighted_reference_total (iterrows large_taxon) [("G", 0%nat)]
                                   doubled_reference 0.
Proof.
  eexists; repeat split; discriminate.
Qed.

(** C8 at a taxatable without rows: the quotient [found / num_taxa] has a
    zero divisor and the function raises instead of returning a table. *)
Theorem create_kegg_table_empty_taxatable cols row_names column_names m :
  _create_kegg_table {| index := []; columns := cols; values := [] |}
                     row_names column_names m
  = Raise ZeroDivisionError.
Proof.
  unfold _create_kegg_table; destruct (shape m); reflexivity.
Qed.

(** ** Quotients against a constant *)

Lemma Qle_bool_fraction_l k n a b :
  (0 < n)%nat ->
  Qle_bool (fraction k n) (a # b) = true
  <-> Z.of_nat k * Zpos b <= a * Z.of_nat n.
Proof.
  intros Hn; rewrite Qle_bool_iff.
  unfold fraction, Qdiv, Qinv, Qle, Qmult, inject_Z; simpl.
  destruct (Z.of_nat n) as [| p | p] eqn:Hp; [lia | | lia].
  simpl; rewrite Z.mul_1_r; reflexivity.
Qed.

Lemma Qle_bool_fraction_r k n a b :
  (0 < n)%nat ->
  Qle_bool (a # b) (fraction k n) = true
  <-> a * Z.of_nat n <= Z.of_nat k * Zpos b.
Proof.
  intros Hn; rewrite Qle_bool_iff.
  unfold fraction, Qdiv, Qinv, Qle, Qmult, inject_Z; simpl.
  destruct (Z.of_nat n) as [| p | p] eqn:Hp; [lia | | lia].
  simpl; rewrite Z.mul_1_r; reflexivity.
Qed.

(** The comparisons of the code at their boundaries, evaluated in binary64:
    4/5 is not above [.8], 5/5 is, and 1/2 is not below [.5]. *)
#[warnings="-inexact-float"]
Example binary64_boundaries :
  PrimFloat.ltb 0.8%float (PrimFloat.div 4%float 5%float) = false
  /\ PrimFloat.ltb 0.8%float (PrimFloat.div 5%float 5%float) = true
  /\ PrimFloat.ltb (PrimFloat.div 1%float 2%float) 0.5%float = false.
Proof. repeat split. Qed.

(** [k / n > .8] holds exactly when [5 k > 4 n]. *)
Lemma fraction_gt_08 k n :
  (0 < n)%nat ->
  Qgtb (fraction k n) (8 # 10) = true <-> (4 * n < 5 * k)%nat.
Proof.
  intros Hn; unfold Qgtb.
  rewrite negb_true_iff, <- not_true_iff_false, Qle_bool_fraction_l by exact Hn.
  lia.
Qed.

(** [k / n < .5] holds exactly when [2 k < n]. *)
Lemma fraction_lt_05 k n :
  (0 < n)%nat ->
  Qgtb (5 # 10) (fraction k n) = true <-> (2 * k < n)%nat.
Proof.
  intros Hn; unfold Qgtb.
  rewrite negb_true_iff, <- not_true_iff_false, Qle_bool_fraction_r by exact Hn.
  lia.
Qed.

Lemma fraction_unit_interval k n :
  (0 < n)%nat -> (k <= n)%nat -> (0 <= fraction k n <= 1)%Q.
Proof.
  intros Hn Hk; split.
  - apply Qle_bool_iff, (Qle_bool_fraction_r k 0 1 Hn); lia.
  - apply Qle_bool_iff, (Qle_bool_fraction_l k 1 1 Hn); lia.
Qed.

(** For a taxatable with at least one row the overlap is the matched rows
    over all rows, lies in the unit interval, and is the only record that
    can be logged at warning level, which happens exactly below one half. *)
Lemma create_kegg_table_overlap taxatable_df row_names column_names m out lg :
  _create_kegg_table taxatable_df row_names column_names m = Ok (out, lg) ->
  let found := length (filter (matched row_names) (iterrows taxatable_df)) in
  let overlap := fraction found (length (index taxatable_df)) in
  (0 <= overlap <= 1)%Q
  /\ (In (WARNING, OverlapOfTaxaAndFunction overlap) lg
      <-> (2 * found < length (index taxatable_df))%nat)
  /\ (forall msg, In (WARNING, msg) lg ->
                  msg = OverlapOfTaxaAndFunction overlap).
Proof.
  intros H found overlap.
  apply create_kegg_table_Ok in H as (_ & _ & Hne & ->).
  assert (Hn : (0 < length (index taxatable_df))%nat)
    by (destruct (index taxatable_df); simpl; [congruence | lia]).
  assert (Hk : (found <= length (index taxatable_df))%nat).
  { unfold found, iterrows.
    etransitivity; [apply filter_length_le |].
    rewrite length_combine; lia. }
  fold found; fold overlap.
  pose proof (fraction_lt_05 found Hn) as Hw; fold overlap in Hw.
  split; [apply fraction_unit_interval; assumption |].
  destruct (Qgtb (5 # 10) overlap) eqn:Hg; split.
  - split; [intros _; apply Hw; reflexivity | intros _; simpl; auto].
  - intros msg [Hm | [Hm | [Hm | [Hm | []]]]]; congruence.
  - split.
    + intros [Hm | [Hm | [Hm | [Hm | []]]]]; discriminate.
    + intros Hlt; apply Hw in Hlt; discriminate.
  - intros msg [Hm | [Hm | [Hm | [Hm | []]]]]; discriminate.
Qed.

(** ** [summarize_at_level]: what the loop leaves behind *)

Lemma collapse_group_step m st g st' :
  collapse_group m st g = Ok st' ->
  match group_row m g with
  | Some row =>
      st' = {| cs_indptr := cs_indptr st
                            ++ [length (cs_indices st ++ map fst row)];
               cs_indices := cs_indices st ++ map fst row;
               cs_row_names :=
                 fst (setdefault (cs_row_names st) (fst g)
                                 (length (cs_row_names st)));
               cs_data := cs_data st ++ map snd row |}
  | None => st' = st
  end.
Proof.
  unfold collapse_group, group_row; destruct g as [name idx]; simpl.
  intros H; apply bind_Ok in H as (mat & -> & H).
  destruct (existsb (fun b => b) (mat_thresh mat (snd (shape m)))).
  - injection H as <-; rewrite !map_map; simpl; rewrite map_id; reflexivity.
  - injection H as <-; reflexivity.
Qed.

Lemma dict_get_app_None {V} (d d' : pydict V) k :
  dict_get d k = None -> dict_get (d ++ d') k = dict_get d' k.
Proof.
  induction d as [| [k' v] d IH]; simpl; [reflexivity |].
  destruct (String.eqb k' k); [discriminate | exact IH].
Qed.

Lemma collapse_loop m gs : forall st st',
  for_each (collapse_group m) gs st = Ok st' ->
  NoDup (map fst gs) ->
  (forall g, In g gs -> dict_get (cs_row_names st) (fst g) = None) ->
  let outs := retained m gs in
  cs_indices st' = cs_indices st ++ List.concat (map (fun o => map fst (snd o)) outs)
  /\ cs_data st' = cs_data st ++ List.concat (map (fun o => map snd (snd o)) outs)
  /\ cs_indptr st'
     = cs_indptr st ++ offsets (length (cs_indices st)) (map snd outs)
  /\ cs_row_names st'
     = cs_row_names st
       ++ combine (map fst outs)
                  (seq (length (cs_row_names st)) (length outs)).
Proof.
  induction gs as [| g gs IH]; simpl; intros st st' H Hnd Hfresh.
  - injection H as <-; rewrite !app_nil_r; auto.
  - apply bind_Ok in H as (st1 & H1 & H2).
    apply collapse_group_step in H1.
    inversion Hnd as [| ? ? Hnotin Hnd']; subst.
    unfold retained; simpl; fold (retained m gs).
    destruct (group_row m g) as [row |]; subst st1.
    + apply IH in H2; [| exact Hnd' |].
      * simpl in H2; destruct H2 as (Hi & Hd & Hp & Hn).
        unfold setdefault in Hn.
        rewrite (Hfresh g (or_introl eq_refl)) in Hn; simpl in Hn.
        simpl; rewrite Hi, Hd, Hp, Hn, <- !app_assoc; simpl.
        rewrite !length_app, !length_map; simpl.
        replace (length (cs_row_names st) + 1)%nat
          with (S (length (cs_row_names st))) by lia.
        auto.
      * intros g' Hg'; simpl.
        unfold setdefault; rewrite (Hfresh g (or_introl eq_refl)); simpl.
        rewrite dict_get_app_None by (apply Hfresh; now right).
        simpl.
        destruct (String.eqb_spec (fst g) (fst g')) as [Heq | _];
          [| reflexivity].
        exfalso; apply Hnotin; rewrite Heq; now apply in_map.
    + apply IH in H2; auto.
Qed.

(** ** Sorting and grouping *)

Lemma insert_by_perm {A} (le : A -> A -> bool) x l :
  Permutation (insert_by le x l) (x :: l).
Proof.
  induction l as [| y t IH]; simpl; [reflexivity |].
  destruct (le x y); [reflexivity |].
  rewrite IH; apply perm_swap.
Qed.

Lemma sort_by_perm {A} (le : A -> A -> bool) l : Permutation (sort_by le l) l.
Proof.
  induction l as [| x l IH]; simpl; [reflexivity |].
  rewrite insert_by_perm; now constructor.
Qed.

Section SortedBy.

Context {A : Type} (le : A -> A -> bool).
Hypothesis le_total : forall a b, le a b = true \/ le b a = true.
Hypothesis le_trans :
  forall a b c, le a b = true -> le b c = true -> le a c = true.

Let leP (a b : A) : Prop := le a b = true.

Lemma insert_by_sorted x l :
  StronglySorted leP l -> StronglySorted leP (insert_by le x l).
Proof.
  induction 1 as [| y t Hs IH Hall]; simpl.
  - repeat constructor.
  - destruct (le x y) eqn:Hxy.
    + constructor; [now constructor |].
      constructor; [exact Hxy |].
      eapply Forall_impl; [| exact Hall].
      intros z Hz; exact (le_trans Hxy Hz).
    + constructor; [exact IH |].
      assert (Hyx : leP y x)
        by (destruct (le_total x y) as [H | H]; [congruence | exact H]).
      eapply Permutation_Forall;
        [symmetry; apply insert_by_perm |].
      now constructor.
Qed.

Lemma sort_by_sorted l : StronglySorted leP (sort_by le l).
Proof.
  induction l as [| x l IH]; simpl; [constructor |].
  now apply insert_by_sorted.
Qed.

End SortedBy.

Lemma string_compare_refl a : String.compare a a = Eq.
Proof. exact (proj2 (OrderedTypeEx.String_as_OT.cmp_eq a a) eq_refl). Qed.

Lemma string_leb_trans a b c :
  String.leb a b = true -> String.leb b c = true -> String.leb a c = true.
Proof.
  unfold String.leb.
  destruct (String.compare a b) eqn:Hab; try discriminate;
    destruct (String.compare b c) eqn:Hbc; try discriminate; intros _ _.
  - apply String.compare_eq_iff in Hab, Hbc; subst.
    now rewrite string_compare_refl.
  - apply String.compare_eq_iff in Hab; subst; now rewrite Hbc.
  - apply String.compare_eq_iff in Hbc; subst; now rewrite Hab.
  - apply OrderedTypeEx.String_as_OT.cmp_lt in Hab, Hbc.
    pose proof (OrderedTypeEx.String_as_OT.lt_trans _ _ _ Hab Hbc) as Hac.
    apply OrderedTypeEx.String_as_OT.cmp_lt in Hac.
    unfold OrderedTypeEx.String_as_OT.cmp in Hac; now rewrite Hac.
Qed.

Lemma string_leb_neq_ltb a b :
  String.leb a b = true -> a <> b -> str_lt a b.
Proof.
  unfold String.leb, str_lt, String.ltb.
  destruct (String.compare a b) eqn:Hab; try discriminate; intros _ Hne.
  - apply String.compare_eq_iff in Hab; contradiction.
  - reflexivity.
Qed.

(** A duplicate-free list sorted by [<=] ascends strictly. *)
Lemma sorted_nodup_strict l :
  StronglySorted (fun a b => String.leb a b = true) l -> NoDup l ->
  StronglySorted str_lt l.
Proof.
  induction 1 as [| x l Hs IH Hall]; intros Hnd; [constructor |].
  inversion Hnd as [| ? ? Hnotin Hnd']; subst.
  constructor; [auto |].
  rewrite Forall_forall in *; intros y Hy.
  apply string_leb_neq_ltb; [auto |].
  intros ->; contradiction.
Qed.

Lemma StronglySorted_filter {A} (R : A -> A -> Prop) (p : A -> bool) l :
  StronglySorted R l -> StronglySorted R (filter p l).
Proof.
  induction 1 as [| x l Hs IH Hall]; simpl; [constructor |].
  destruct (p x); [| exact IH].
  constructor; [exact IH |].
  rewrite Forall_forall in *; intros y Hy.
  apply filter_In in Hy as [Hy _]; auto.
Qed.

Lemma In_unique l x : In x (unique l) <-> In x l.
Proof.
  induction l as [| y l IH]; simpl; [tauto |].
  rewrite filter_In, IH, negb_true_iff, String.eqb_neq.
  destruct (string_dec y x); intuition congruence.
Qed.

Lemma NoDup_unique l : NoDup (unique l).
Proof.
  induction l as [| y l IH]; simpl; constructor.
  - rewrite filter_In, negb_true_iff, String.eqb_neq; intuition congruence.
  - now apply NoDup_filter.
Qed.

(** The keys of a [groupby]: distinct and strictly ascending. *)
Lemma groupby_keys groups :
  map fst (groupby groups) = sort_by String.leb (unique groups).
Proof. unfold groupby; rewrite map_map; simpl; apply map_id. Qed.

Lemma groupby_keys_sorted groups :
  StronglySorted str_lt (map fst (groupby groups)).
Proof.
  rewrite groupby_keys.
  apply sorted_nodup_strict.
  - apply sort_by_sorted; [apply String.leb_total | apply string_leb_trans].
  - eapply Permutation_NoDup;
      [symmetry; apply sort_by_perm | apply NoDup_unique].
Qed.

Lemma StronglySorted_lt_NoDup l : StronglySorted str_lt l -> NoDup l.
Proof.
  induction 1 as [| x l Hs IH Hall]; constructor; [| exact IH].
  intros Hin; rewrite Forall_forall in Hall; specialize (Hall x Hin).
  unfold str_lt, String.ltb in Hall.
  now rewrite string_compare_refl in Hall.
Qed.

Lemma groupby_In groups g :
  In g (groupby groups) <->
  In (fst g) groups /\ snd g = positions_of (fst g) groups.
Proof.
  unfold groupby; rewrite in_map_iff; split.
  - intros (k & <- & Hk); simpl; split; [| reflexivity].
    apply In_unique; eapply Permutation_in; [apply sort_by_perm | exact Hk].
  - intros [Hin Hsnd]; exists (fst g); split.
    + destruct g; simpl in *; now subst.
    + eapply Permutation_in; [symmetry; apply sort_by_perm |].
      now apply In_unique.
Qed.

(** ** Rows of the collapsed matrix *)

Local Open Scope nat_scope.

Lemma length_offsets {X} (rows : list (list X)) : forall b,
  length (offsets b rows) = length rows.
Proof. induction rows; simpl; intros b; [reflexivity | now rewrite IHrows]. Qed.

Lemma offsets_map {X Y} (g : X -> Y) (rows : list (list X)) : forall b,
  offsets b (map (map g) rows) = offsets b rows.
Proof.
  induction rows as [| x rows IH]; simpl; intros b; [reflexivity |].
  now rewrite length_map, IH.
Qed.

Lemma offsets_ge {X} (rows : list (list X)) : forall b r,
  (r <= length rows)%nat -> (b <= nth r (b :: offsets b rows) 0)%nat.
Proof.
  induction rows as [| x rows IH]; intros b [| r] Hr; simpl in *; try lia.
  specialize (IH (b + length x)%nat r); simpl in IH.
  assert (r <= length rows)%nat by lia.
  destruct r; simpl in *; [lia |].
  specialize (IH ltac:(lia)); lia.
Qed.

(** Row [r] of a matrix in compressed form is the [r]-th of the rows that
    were appended. *)
Lemma slice_concat {X} (rows : list (list X)) : forall b r,
  (r < length rows)%nat ->
  firstn (nth (S r) (b :: offsets b rows) 0 - nth r (b :: offsets b rows) 0)
         (skipn (nth r (b :: offsets b rows) 0 - b) (List.concat rows))
  = nth r rows [].
Proof.
  induction rows as [| x rows IH]; intros b r Hr; simpl in Hr; [lia |].
  destruct r as [| r].
  - simpl; rewrite Nat.sub_diag; simpl.
    replace (b + length x - b)%nat with (length x) by lia.
    rewrite firstn_app, Nat.sub_diag, firstn_all; simpl.
    apply app_nil_r.
  - change (nth (S (S r)) (b :: offsets b (x :: rows)) 0%nat)
      with (nth (S r) ((b + length x)%nat :: offsets (b + length x) rows) 0%nat).
    change (nth (S r) (b :: offsets b (x :: rows)) 0%nat)
      with (nth r ((b + length x)%nat :: offsets (b + length x) rows) 0%nat).
    pose proof (@offsets_ge _ rows (b + length x) r ltac:(lia)) as Hge.
    change (List.concat (x :: rows)) with (x ++ List.concat rows).
    change (nth (S r) (x :: rows) []) with (nth r rows []).
    rewrite skipn_app.
    rewrite skipn_all2 by lia; cbn [app].
    replace (nth r ((b + length x)%nat :: offsets (b + length x) rows) 0%nat
             - b - length x)%nat
      with (nth r ((b + length x)%nat :: offsets (b + length x) rows) 0%nat
            - (b + length x))%nat by lia.
    apply IH; lia.
Qed.

Local Close Scope nat_scope.

Lemma combine_concat_rows {X Y Z'} (f : Y -> Z') (rows : list (list (X * Y))) :
  combine (List.concat (map (map fst) rows))
          (map f (List.concat (map (map snd) rows)))
  = List.concat (map (map (fun p => (fst p, f (snd p)))) rows).
Proof.
  induction rows as [| x rows IH]; simpl; [reflexivity |].
  rewrite map_app, <- IH.
  assert (Hx : forall (l : list (X * Y)) l1 l2,
             combine (map fst l ++ l1) (map f (map snd l) ++ l2)
             = map (fun p => (fst p, f (snd p))) l ++ combine l1 l2).
  { induction l as [| p l IHl]; simpl; intros; [reflexivity |].
    now rewrite IHl. }
  apply Hx.
Qed.

Lemma summarize_at_level_Ok m names ids level m' rn' :
  summarize_at_level m names ids level = Ok (m', rn') ->
  let outs :=
    retained m (groupby (map (truncate_lineage level) (sorted_names names))) in
  rn' = combine (map fst outs) (seq 0 (length outs))
  /\ indices m' = List.concat (map (map fst) (map snd outs))
  /\ data m'
     = map (fun q => int8 (trunc q))
           (List.concat (map (map snd) (map snd outs)))
  /\ indptr m' = 0%nat :: offsets 0 (map snd outs)
  /\ shape m' = (length outs, S (list_max (indices m'))).
Proof.
  intros H outs; unfold summarize_at_level in H.
  apply bind_Ok in H as (st & Hloop & H).
  apply bind_Ok in H as (mm & Hm & H).
  injection H as -> <-.
  apply collapse_loop in Hloop;
    [| apply StronglySorted_lt_NoDup, groupby_keys_sorted
     | intros; reflexivity].
  fold outs in Hloop; simpl in Hloop.
  destruct Hloop as (Hi & Hd & Hp & Hn).
  unfold csr_matrix in Hm.
  destruct (cs_indices st) as [| i0 ind] eqn:Hind; [discriminate |].
  injection Hm as <-; simpl.
  split; [exact Hn |].
  split; [rewrite Hi, map_map; reflexivity |].
  split; [rewrite Hd, !map_map; reflexivity |].
  split; [exact Hp |].
  rewrite Hp; simpl.
  rewrite length_offsets, length_map, Nat.sub_0_r; reflexivity.
Qed.

Lemma row_entries_collapsed m names ids level m' rn' r :
  summarize_at_level m names ids level = Ok (m', rn') ->
  let outs :=
    retained m (groupby (map (truncate_lineage level) (sorted_names names))) in
  (r < length outs)%nat ->
  row_entries m' r = map stored (snd (nth r outs ("", []))).
Proof.
  intros H outs Hr.
  apply summarize_at_level_Ok in H; fold outs in H.
  destruct H as (_ & Hi & Hd & Hp & _).
  unfold row_entries; rewrite Hi, Hd, Hp.
  rewrite combine_concat_rows.
  rewrite <- (offsets_map (fun p => (fst p, int8 (trunc (snd p))))).
  pose proof (@slice_concat _
                (map (map (fun p : nat * Q => (fst p, int8 (trunc (snd p)))))
                     (map snd outs)) 0 r) as Hs.
  rewrite Nat.sub_0_r in Hs.
  rewrite Hs by (now rewrite !length_map).
  change (@nil (nat * Z))
    with (map (fun p : nat * Q => (fst p, int8 (trunc (snd p)))) []).
  rewrite map_nth.
  change (@nil (nat * Q)) with (snd (EmptyString, @nil (nat * Q))).
  rewrite map_nth; reflexivity.
Qed.

(** ** Groups and their rows

    From here on every argument of a lemma is written out where it is
    used. *)

Unset Implicit Arguments.

Lemma dict_get_combine_seq_In names : forall b k,
  In k names ->
  exists r, (r < length names)%nat /\ nth r names "" = k
            /\ dict_get (combine names (seq b (length names))) k
               = Some (b + r)%nat.
Proof.
  induction names as [| x names IH]; simpl; intros b k Hin; [contradiction |].
  destruct (String.eqb_spec x k) as [-> | Hne].
  - exists 0%nat; repeat split; [lia | f_equal; lia].
  - destruct Hin as [Heq | Hin]; [contradiction |].
    destruct (IH (S b) k Hin) as (r & Hr & Hnth & Hget).
    exists (S r); repeat split; [lia | exact Hnth |].
    rewrite Hget; f_equal; lia.
Qed.

Lemma dict_get_combine_seq_notin names : forall b k,
  ~ In k names -> dict_get (combine names (seq b (length names))) k = None.
Proof.
  induction names as [| x names IH]; simpl; intros b k Hin; [reflexivity |].
  destruct (String.eqb_spec x k) as [-> | Hne]; [tauto |].
  apply IH; tauto.
Qed.

Lemma retained_In m gs k row :
  In (k, row) (retained m gs) <->
  exists g, In g gs /\ fst g = k /\ group_row m g = Some row.
Proof.
  unfold retained; rewrite in_flat_map; split.
  - intros (g & Hg & Hin); exists g.
    destruct (group_row m g) as [row' |]; [| contradiction].
    destruct Hin as [Heq | []]; injection Heq as <- <-; auto.
  - intros (g & Hg & <- & Hrow); exists g; split; [exact Hg |].
    rewrite Hrow; now left.
Qed.

(** A group that passes owns one row of the collapsed matrix, found under
    the group's key; a group that does not pass has no key and no row. *)
Lemma collapsed_group_row m names ids level m' rn' name :
  summarize_at_level m names ids level = Ok (m', rn') ->
  let groups := map (truncate_lineage level) (sorted_names names) in
  In name groups ->
  match group_row m (name, positions_of name groups) with
  | Some row => exists r, dict_get rn' name = Some r
                          /\ (r < fst (shape m'))%nat
                          /\ row_entries m' r = map stored row
  | None => dict_get rn' name = None
  end.
Proof.
  intros H groups Hname.
  pose proof (fun r => @row_entries_collapsed m names ids level m' rn' r H)
    as Hrows.
  pose proof (@summarize_at_level_Ok m names ids level m' rn' H)
    as (-> & _ & _ & _ & Hshape).
  fold groups in Hrows |- *.
  set (outs := retained m (groupby groups)) in *.
  rewrite Hshape; simpl fst.
  assert (Hown : forall row', In (name, row') outs ->
                   group_row m (name, positions_of name groups) = Some row').
  { intros row' Hin; apply retained_In in Hin as ([k idx] & Hg & Hk & Hrow).
    apply groupby_In in Hg as [_ Hidx]; simpl in *; subst; exact Hrow. }
  destruct (group_row m (name, positions_of name groups)) as [row |] eqn:Hrow.
  - assert (Hin : In (name, row) outs).
    { apply retained_In; exists (name, positions_of name groups).
      repeat split; [| exact Hrow].
      apply groupby_In; simpl; auto. }
    assert (Hk : In name (map fst outs))
      by (apply in_map_iff; exists (name, row); auto).
    destruct (dict_get_combine_seq_In (map fst outs) 0 name Hk)
      as (r & Hr & Hnth & Hget).
    rewrite length_map in Hr, Hget.
    exists r; repeat split; [exact Hget | exact Hr |].
    rewrite (Hrows r Hr); f_equal.
    assert (Hnr : In (nth r outs ("", [])) outs) by now apply nth_In.
    destruct (nth r outs ("", [])) as [k row'] eqn:Hr'.
    assert (k = name).
    { rewrite <- Hnth.
      change "" with (fst ("", @nil (nat * Q))); now rewrite map_nth, Hr'. }
    subst k; simpl.
    apply Hown in Hnr; congruence.
  - rewrite <- (length_map fst outs).
    apply dict_get_combine_seq_notin.
    intros Hk; apply in_map_iff in Hk as ([k row'] & Hfst & Hin).
    simpl in Hfst; subst k.
    apply Hown in Hin; discriminate.
Qed.

Lemma getrows_Ok m : forall idx mat,
  getrows m idx = Ok mat -> mat = map (reference_row m) idx.
Proof.
  induction idx as [| i idx IH]; simpl; intros mat H.
  - injection H as <-; reflexivity.
  - apply bind_Ok in H as (row & Hrow & H).
    apply bind_Ok in H as (rows & Hrows & H).
    injection H as <-.
    apply getrow_Ok in Hrow; apply IH in Hrows; subst; reflexivity.
Qed.

Lemma In_np_where mask j :
  In j (np_where mask) <-> (j < length mask)%nat /\ nth j mask false = true.
Proof.
  unfold np_where; rewrite filter_In, in_seq; intuition lia.
Qed.

Lemma existsb_np_where mask :
  existsb (fun b => b) mask = true <-> exists j, In j (np_where mask).
Proof.
  rewrite existsb_exists; split.
  - intros (b & Hin & Hb); subst b.
    apply (In_nth _ _ false) in Hin as (j & Hj & Hnth).
    exists j; apply In_np_where; auto.
  - intros (j & Hj); apply In_np_where in Hj as [Hj Hnth].
    exists true; split; [| reflexivity].
    rewrite <- Hnth; now apply nth_In.
Qed.

Lemma count_positive_members m members j :
  count_positive (column (map (reference_row m) members) j)
  = members_positive m members j.
Proof.
  unfold count_positive, column, members_positive.
  induction members as [| i members IH]; simpl; [reflexivity |].
  destruct (0 <? nth j (reference_row m i) 0); simpl; congruence.
Qed.

Lemma nth_mat_thresh mat ncols j :
  (j < ncols)%nat ->
  nth j (mat_thresh mat ncols) false
  = Qgtb (fraction (count_positive (column mat j)) (length mat)) (8 # 10).
Proof. intros Hj; unfold mat_thresh; exact (nth_tabulate _ false Hj). Qed.

Lemma length_mat_thresh mat ncols : length (mat_thresh mat ncols) = ncols.
Proof. unfold mat_thresh; now rewrite length_map, length_seq. Qed.

(** The columns of a group's row are those that pass the threshold. *)
Lemma group_row_columns m name members :
  members <> [] ->
  getrows m members = Ok (map (reference_row m) members) ->
  (forall row j,
     group_row m (name, members) = Some row ->
     (In j (map fst row) <->
      (j < snd (shape m))%nat
      /\ (4 * length members < 5 * members_positive m members j)%nat))
  /\ (group_row m (name, members) = None <->
      forall j, (j < snd (shape m))%nat ->
                ~ (4 * length members < 5 * members_positive m members j)%nat).
Proof.
  intros Hne Hget.
  assert (Hn : (0 < length members)%nat)
    by (destruct members; simpl; [congruence | lia]).
  assert (Hpass : forall j,
            In j (np_where (mat_thresh (map (reference_row m) members)
                                       (snd (shape m)))) <->
            (j < snd (shape m))%nat
            /\ (4 * length members < 5 * members_positive m members j)%nat).
  { intros j; rewrite In_np_where, length_mat_thresh.
    split; intros [Hj Hp]; split; try exact Hj.
    - rewrite nth_mat_thresh, count_positive_members, length_map in Hp
        by exact Hj.
      now apply fraction_gt_08 in Hp.
    - rewrite nth_mat_thresh, count_positive_members, length_map by exact Hj.
      now apply fraction_gt_08. }
  unfold group_row; simpl; rewrite Hget.
  destruct (existsb (fun b => b)
              (mat_thresh (map (reference_row m) members) (snd (shape m))))
    eqn:Hex.
  - split.
    + intros row j Hrow; injection Hrow as <-.
      rewrite map_map; simpl; rewrite map_id; apply Hpass.
    + split; [discriminate |].
      intros Hnone; apply existsb_np_where in Hex as (j & Hj).
      apply Hpass in Hj as [Hj Hp]; exfalso; exact (Hnone j Hj Hp).
  - split; [discriminate |].
    split; [| reflexivity].
    intros _ j Hj Hp.
    assert (Hex' : existsb (fun b => b)
                     (mat_thresh (map (reference_row m) members)
                                 (snd (shape m))) = true)
      by (apply existsb_np_where; exists j; apply Hpass; auto).
    congruence.
Qed.

Lemma collapse_loop_getrows m gs : forall st st',
  for_each (collapse_group m) gs st = Ok st' ->
  forall g, In g gs -> getrows m (snd g) = Ok (map (reference_row m) (snd g)).
Proof.
  induction gs as [| g0 gs IH]; simpl; intros st st' H g Hg; [contradiction |].
  apply bind_Ok in H as (st1 & H1 & H2).
  destruct Hg as [<- | Hg]; [| exact (IH _ _ H2 g Hg)].
  unfold collapse_group in H1; destruct g0 as [name idx]; simpl.
  apply bind_Ok in H1 as (mat & Hmat & _).
  rewrite Hmat; f_equal; now apply getrows_Ok.
Qed.

Lemma summarize_at_level_getrows m names ids level m' rn' name :
  summarize_at_level m names ids level = Ok (m', rn') ->
  let groups := map (truncate_lineage level) (sorted_names names) in
  In name groups ->
  getrows m (positions_of name groups)
  = Ok (map (reference_row m) (positions_of name groups)).
Proof.
  intros H groups Hname; unfold summarize_at_level in H.
  apply bind_Ok in H as (st & Hloop & _).
  apply (collapse_loop_getrows _ _ _ _ Hloop (name, positions_of name groups)).
  apply groupby_In; simpl; auto.
Qed.

Lemma positions_of_nonempty name groups :
  In name groups -> positions_of name groups <> [].
Proof.
  intros Hin Hnil.
  apply (In_nth _ _ "") in Hin as (i & Hi & Hnth).
  assert (Hp : In i (positions_of name groups)).
  { unfold positions_of; apply filter_In; split.
    - apply in_seq; lia.
    - rewrite Hnth; apply String.eqb_refl. }
  rewrite Hnil in Hp; contradiction.
Qed.

(** C2, as the code has it.  For every group of strain rows and every
    function column [j], the column is stored in the group's collapsed row
    if and only if more than 0.8 of the members have a strictly positive
    count in it: [5 * positive > 4 * members].  A group in which no column
    passes gets no key and no row.  Strictly positive and nonzero coincide
    for a column in which no member has a negative stored count. *)
Theorem summarize_at_level_threshold m names ids level m' rn' name :
  summarize_at_level m names ids level = Ok (m', rn') ->
  let groups := map (truncate_lineage level) (sorted_names names) in
  let members := positions_of name groups in
  In name groups ->
  (forall j, (j < snd (shape m))%nat ->
     ((exists r, dict_get rn' name = Some r
                 /\ In j (map fst (row_entries m' r)))
      <-> (4 * length members < 5 * members_positive m members j)%nat))
  /\ ((forall j, (j < snd (shape m))%nat ->
         ~ (4 * length members < 5 * members_positive m members j)%nat) ->
      dict_get rn' name = None)
  /\ (forall j,
        (forall i, In i members -> 0 <= nth j (reference_row m i) 0) ->
        members_positive m members j = members_nonzero m members j).
Proof.
  intros H groups members Hname.
  pose proof (collapsed_group_row _ _ _ _ _ _ _ H Hname) as Hrow.
  pose proof (summarize_at_level_getrows _ _ _ _ _ _ _ H Hname) as Hget.
  pose proof (group_row_columns m name _
                (positions_of_nonempty _ _ Hname) Hget) as [Hcols Hnone].
  fold groups in Hrow, Hcols, Hnone; fold members in Hrow, Hcols, Hnone.
  split; [| split].
  - intros j Hj.
    destruct (group_row m (name, members)) as [row |] eqn:Hg.
    + destruct Hrow as (r & Hr & _ & Hentries).
      specialize (Hcols row j eq_refl).
      split.
      * intros (r' & Hr' & Hin).
        assert (r' = r) by congruence; subst r'.
        rewrite Hentries, map_map in Hin; simpl in Hin.
        apply Hcols in Hin; tauto.
      * intros Hp; exists r; split; [exact Hr |].
        rewrite Hentries, map_map; simpl; apply Hcols; auto.
    + split.
      * intros (r & Hr & _); congruence.
      * intros Hp; exfalso.
        exact (proj1 Hnone eq_refl j Hj Hp).
  - intros Hno.
    apply Hnone in Hno; rewrite Hno in Hrow; exact Hrow.
  - intros j Hpos; unfold members_positive, members_nonzero.
    f_equal; apply filter_ext_in; intros i Hi.
    specialize (Hpos i Hi).
    destruct (Z.ltb_spec 0 (nth j (reference_row m i) 0));
      destruct (Z.eqb_spec (nth j (reference_row m i) 0) 0); simpl; lia.
Qed.

(** Five strains of one genus: K1 is present in 5 of 5 and kept, K2 is
    present in 4 of 5 and left out. *)
Example parse_five_strains :
  parse_kegg_table five_strains
  = Ok (five_strains_names, [("K1", 0%nat); ("K2", 1%nat)], five_strains_csr).
Proof. reflexivity. Qed.

Example collapse_five_strains :
  summarize_at_level five_strains_csr five_strains_names
                     [("K1", 0%nat); ("K2", 1%nat)] 1
  = Ok (five_strains_collapsed, [("G", 0%nat)]).
Proof. reflexivity. Qed.

Lemma summarize_at_level_threshold_witness :
  (exists r, dict_get [("G", 0%nat)] "G" = Some r
             /\ In 0%nat (map fst (row_entries five_strains_collapsed r)))
  /\ ~ (exists r, dict_get [("G", 0%nat)] "G" = Some r
                  /\ In 1%nat (map fst (row_entries five_strains_collapsed r))).
Proof.
  assert (Hin : In "G" (map (truncate_lineage 1)
                            (sorted_names five_strains_names)))
    by (left; reflexivity).
  pose proof (summarize_at_level_threshold
                five_strains_csr five_strains_names
                [("K1", 0%nat); ("K2", 1%nat)] 1 five_strains_collapsed
                [("G", 0%nat)] "G" collapse_five_strains Hin) as [Hiff _].
  split.
  - apply (Hiff 0%nat); [simpl; lia | vm_compute; lia].
  - intros H; apply (Hiff 1%nat) in H; [| simpl; lia].
    vm_compute in H; lia.
Defined.

Example parse_wrapped_strain :
  parse_kegg_table wrapped_strain
  = Ok ([("G;s1", 0%nat)], [("K1", 0%nat); ("K2", 1%nat)], wrapped_csr).
Proof. vm_compute; reflexivity. Qed.

Example collapse_wrapped_strain :
  summarize_at_level wrapped_csr [("G;s1", 0%nat)]
                     [("K1", 0%nat); ("K2", 1%nat)] 1
  = Ok (wrapped_collapsed, [("G", 0%nat)]).
Proof. vm_compute; reflexivity. Qed.

(** C2 as stated fails on a stored count that wrapped to a negative value:
    the only member of group G has the nonzero count -128 in column K1, so
    the nonzero fraction is 1, yet the column is not kept. *)
Lemma summarize_at_level_nonzero_not_kept :
  let members :=
    positions_of "G" (map (truncate_lineage 1) (sorted_names [("G;s1", 0%nat)])) in
  parse_kegg_table wrapped_strain
  = Ok ([("G;s1", 0%nat)], [("K1", 0%nat); ("K2", 1%nat)], wrapped_csr)
  /\ summarize_at_level wrapped_csr [("G;s1", 0%nat)]
                        [("K1", 0%nat); ("K2", 1%nat)] 1
     = Ok (wrapped_collapsed, [("G", 0%nat)])
  /\ Qgtb (fraction (members_nonzero wrapped_csr members 0) (length members))
          (8 # 10) = true
  /\ ~ (exists r, dict_get [("G", 0%nat)] "G" = Some r
                  /\ In 0%nat (map fst (row_entries wrapped_collapsed r))).
Proof.
  split; [exact parse_wrapped_strain |].
  split; [exact collapse_wrapped_strain |].
  split; [vm_compute; reflexivity |].
  intros (r & Hr & Hin).
  injection Hr as <-.
  vm_compute in Hin; destruct Hin as [Hin | []]; discriminate.
Qed.

(** ** Order of the collapsed rows *)

Lemma retained_keys m groups ks :
  map fst (retained m (map (fun g => (g, positions_of g groups)) ks))
  = filter (group_passes m groups) ks.
Proof.
  induction ks as [| k ks IH]; simpl; [reflexivity |].
  unfold group_passes at 1.
  destruct (group_row m (k, positions_of k groups)); simpl; now rewrite IH.
Qed.

Lemma map_fst_combine_seq {X} (xs : list X) b :
  map fst (combine xs (seq b (length xs))) = xs
  /\ map snd (combine xs (seq b (length xs))) = seq b (length xs).
Proof.
  revert b; induction xs as [| x xs IH]; simpl; intros b; [auto |].
  destruct (IH (S b)) as [-> ->]; auto.
Qed.

(** The collapsed row mapping: the retained rows of the loop, numbered from
    zero. *)
Lemma collapsed_row_names m names ids level m' rn' :
  summarize_at_level m names ids level = Ok (m', rn') ->
  let groups := map (truncate_lineage level) (sorted_names names) in
  let outs := retained m (groupby groups) in
  keys rn' = map fst outs
  /\ map snd rn' = seq 0 (length outs)
  /\ length rn' = length outs
  /\ fst (shape m') = length outs.
Proof.
  intros H groups outs.
  apply summarize_at_level_Ok in H; fold groups in H; fold outs in H.
  destruct H as (-> & _ & _ & _ & ->).
  destruct (map_fst_combine_seq (map fst outs) 0) as [Hk Hv].
  rewrite length_map in Hk, Hv.
  unfold keys; rewrite Hk, Hv.
  repeat split.
  now rewrite length_combine, length_map, length_seq, Nat.min_id.
Qed.

Lemma collapsed_keys_filter m groups :
  map fst (retained m (groupby groups))
  = filter (group_passes m groups) (sort_by String.leb (unique groups)).
Proof. apply retained_keys. Qed.

(** C7, as the code has it.  The keys of the collapsed row mapping are the
    retained group keys in ascending string order (the order in which a
    pandas [groupby] yields its groups), the indices assigned to them are
    0, 1, 2, ... in that order, and the matrix has one row per key. *)
Theorem summarize_at_level_row_order m names ids level m' rn' :
  summarize_at_level m names ids level = Ok (m', rn') ->
  let groups := map (truncate_lineage level) (sorted_names names) in
  keys rn' = filter (group_passes m groups) (sort_by String.leb (unique groups))
  /\ StronglySorted str_lt (keys rn')
  /\ map snd rn' = seq 0 (length rn')
  /\ fst (shape m') = length rn'.
Proof.
  intros H groups.
  destruct (collapsed_row_names _ _ _ _ _ _ H) as (Hk & Hv & Hlen & Hrows).
  fold groups in Hk, Hv, Hlen, Hrows.
  rewrite Hk, Hv, Hlen, Hrows, collapsed_keys_filter.
  repeat split.
  apply StronglySorted_filter.
  rewrite <- groupby_keys; apply groupby_keys_sorted.
Qed.

Example parse_two_genera :
  parse_kegg_table two_genera
  = Ok ([("B;s1", 0%nat); ("A;s2", 1%nat)], [("K1", 0%nat)], two_genera_csr).
Proof. reflexivity. Qed.

Example collapse_two_genera :
  summarize_at_level two_genera_csr [("B;s1", 0%nat); ("A;s2", 1%nat)]
                     [("K1", 0%nat)] 1
  = Ok (two_genera_collapsed, [("A", 0%nat); ("B", 1%nat)]).
Proof. reflexivity. Qed.

Lemma summarize_at_level_row_order_witness :
  StronglySorted str_lt ["A"; "B"]
  /\ map snd [("A", 0%nat); ("B", 1%nat)] = seq 0 2.
Proof.
  pose proof (summarize_at_level_row_order
                two_genera_csr [("B;s1", 0%nat); ("A;s2", 1%nat)]
                [("K1", 0%nat)] 1 two_genera_collapsed
                [("A", 0%nat); ("B", 1%nat)] collapse_two_genera)
    as (_ & Hs & Hv & _).
  split; [exact Hs | exact Hv].
Defined.

(** C7 as stated fails: genus B is met first when the strain rows are walked
    by row index, but genus A gets row 0. *)
Lemma summarize_at_level_not_first_encountered :
  let groups :=
    map (truncate_lineage 1) (sorted_names [("B;s1", 0%nat); ("A;s2", 1%nat)]) in
  summarize_at_level two_genera_csr [("B;s1", 0%nat); ("A;s2", 1%nat)]
                     [("K1", 0%nat)] 1
  = Ok (two_genera_collapsed, [("A", 0%nat); ("B", 1%nat)])
  /\ groups = ["B"; "A"]
  /\ first_encountered_keys two_genera_csr groups = ["B"; "A"]
  /\ keys [("A", 0%nat); ("B", 1%nat)]
     <> first_encountered_keys two_genera_csr groups.
Proof.
  split; [exact collapse_two_genera |].
  split; [reflexivity |].
  split; [reflexivity |].
  vm_compute; discriminate.
Qed.

(** ** Groups of one strain *)

Lemma median_singleton x : median [x] = inject_Z x.
Proof. reflexivity. Qed.

Lemma trunc_inject_Z x : trunc (inject_Z x) = x.
Proof. unfold trunc, inject_Z; simpl; apply Z.quot_1_r. Qed.

Lemma int8_range x : -128 <= int8 x <= 127.
Proof.
  unfold int8, wrap; change (2 ^ (8 - 1)) with 128; change (2 ^ 8) with 256.
  pose proof (Z.mod_pos_bound (x + 128) 256 ltac:(lia)); lia.
Qed.

Lemma dense_fold_range j es : forall acc,
  -128 <= acc <= 127 ->
  -128 <= fold_left (fun a e => if Nat.eqb (fst e) j
                                then int8 (a + snd e) else a) es acc <= 127.
Proof.
  induction es as [| e es IH]; simpl; intros acc Hacc; [exact Hacc |].
  apply IH; destruct (Nat.eqb (fst e) j); [apply int8_range | exact Hacc].
Qed.

Lemma nth_dense_of n es j :
  (j < n)%nat ->
  nth j (dense_of n es) 0
  = fold_left (fun a e => if Nat.eqb (fst e) j then int8 (a + snd e) else a)
              es 0.
Proof. intros Hj; unfold dense_of; exact (nth_tabulate _ 0 Hj). Qed.

(** Every entry of a dense row lies in the 8-bit range. *)
Lemma reference_row_range m i j : -128 <= nth j (reference_row m i) 0 <= 127.
Proof.
  unfold reference_row.
  destruct (Nat.lt_ge_cases j (snd (shape m))) as [Hj | Hj].
  - rewrite nth_dense_of by exact Hj; apply dense_fold_range; lia.
  - rewrite nth_overflow by (now rewrite length_dense_of); lia.
Qed.

Lemma dense_fold_nodup (v : nat -> Z) j cols : forall acc,
  NoDup cols ->
  fold_left (fun a e => if Nat.eqb (fst e) j then int8 (a + snd e) else a)
            (map (fun c => (c, v c)) cols) acc
  = if existsb (Nat.eqb j) cols then int8 (acc + v j) else acc.
Proof.
  induction cols as [| c cols IH]; simpl; intros acc Hnd; [reflexivity |].
  inversion Hnd as [| ? ? Hnotin Hnd']; subst.
  rewrite IH by exact Hnd'.
  rewrite (Nat.eqb_sym j c).
  destruct (Nat.eqb_spec c j) as [-> | Hne]; simpl; [| reflexivity].
  destruct (existsb (Nat.eqb j) cols) eqn:Hex; [| reflexivity].
  apply existsb_exists in Hex as (c & Hc & Heq).
  apply Nat.eqb_eq in Heq; subst c; contradiction.
Qed.

Lemma In_firstn {X} n (l : list X) x : In x (firstn n l) -> In x l.
Proof.
  intros H; rewrite <- (firstn_skipn n l); apply in_or_app; now left.
Qed.

Lemma In_skipn {X} n (l : list X) x : In x (skipn n l) -> In x l.
Proof.
  intros H; rewrite <- (firstn_skipn n l); apply in_or_app; now right.
Qed.

Lemma row_entries_indices m r j :
  In j (map fst (row_entries m r)) -> In j (indices m).
Proof.
  intros Hin; apply in_map_iff in Hin as ([c v] & <- & Hin).
  unfold row_entries in Hin.
  apply In_firstn, In_skipn in Hin.
  eapply in_combine_l; exact Hin.
Qed.

Lemma list_max_In l j : In j l -> (j <= list_max l)%nat.
Proof.
  intros Hin.
  pose proof (proj1 (list_max_le l (list_max l)) (Nat.le_refl _)) as Hall.
  rewrite Forall_forall in Hall; exact (Hall j Hin).
Qed.

Lemma positions_of_In name groups i :
  In i (positions_of name groups) -> In name groups.
Proof.
  unfold positions_of; rewrite filter_In, in_seq; intros [Hi Heq].
  apply String.eqb_eq in Heq; subst name; apply nth_In; lia.
Qed.

Lemma group_row_medians m name members row :
  group_row m (name, members) = Some row ->
  row = map (fun j => (j, median (column (map (reference_row m) members) j)))
            (map fst row)
  /\ NoDup (map fst row).
Proof.
  unfold group_row; simpl.
  destruct (getrows m members) as [mat | e] eqn:Hget; [| discriminate].
  apply getrows_Ok in Hget; subst mat.
  destruct (existsb _ _); [| discriminate].
  intros Hrow; injection Hrow as <-.
  rewrite !map_map; simpl; rewrite map_id; split; [reflexivity |].
  unfold np_where; apply NoDup_filter, seq_NoDup.
Qed.

(** C6, as the code has it.  In a group of one strain a column is kept
    exactly when the strain's count in it is strictly positive, and its
    median is that count.  So if the strain row has a strictly positive
    count, the group gets a row whose entry in every column is the original
    entry when that is positive and zero otherwise; this is the original
    row when it holds no negative stored count.  If the strain row has no
    strictly positive count, the group gets no key and no row. *)
Theorem summarize_at_level_singleton m names ids level m' rn' name i :
  summarize_at_level m names ids level = Ok (m', rn') ->
  let groups := map (truncate_lineage level) (sorted_names names) in
  positions_of name groups = [i] ->
  ((exists j, 0 < nth j (reference_row m i) 0) ->
   exists r,
     dict_get rn' name = Some r
     /\ (r < fst (shape m'))%nat
     /\ (forall j, nth j (reference_row m' r) 0
                   = Z.max 0 (nth j (reference_row m i) 0))
     /\ ((forall j, 0 <= nth j (reference_row m i) 0) ->
         forall j, nth j (reference_row m' r) 0 = nth j (reference_row m i) 0))
  /\ ((forall j, nth j (reference_row m i) 0 <= 0) ->
      dict_get rn' name = None).
Proof.
  intros H groups Hpos.
  assert (Hname : In name groups)
    by (apply (positions_of_In name groups i); rewrite Hpos; now left).
  pose proof (collapsed_group_row _ _ _ _ _ _ _ H Hname) as Hrow.
  pose proof (summarize_at_level_getrows _ _ _ _ _ _ _ H Hname) as Hget.
  pose proof (group_row_columns m name _
                (positions_of_nonempty _ _ Hname) Hget) as [Hcols Hnone].
  fold groups in Hrow, Hget, Hcols, Hnone.
  rewrite Hpos in Hrow, Hget, Hcols, Hnone.
  assert (Hone : forall j,
            (4 * length [i] < 5 * members_positive m [i] j)%nat
            <-> 0 < nth j (reference_row m i) 0).
  { intros j; unfold members_positive; simpl.
    destruct (Z.ltb_spec 0 (nth j (reference_row m i) 0)); simpl; lia. }
  assert (Hwidth : forall j, (snd (shape m) <= j)%nat ->
                             nth j (reference_row m i) 0 = 0).
  { intros j Hj; apply nth_overflow.
    unfold reference_row; now rewrite length_dense_of. }
  split.
  - intros (j0 & Hj0).
    destruct (group_row m (name, [i])) as [row |] eqn:Hg.
    2:{ exfalso.
        destruct (Nat.lt_ge_cases j0 (snd (shape m))) as [Hlt | Hge].
        - apply (proj1 Hnone eq_refl j0 Hlt), Hone, Hj0.
        - rewrite (Hwidth j0 Hge) in Hj0; lia. }
    destruct Hrow as (r & Hr & Hrlt & Hentries).
    apply group_row_medians in Hg as [Hmed Hnd].
    assert (Hkept : forall j, In j (map fst row)
                              <-> 0 < nth j (reference_row m i) 0).
    { intros j; rewrite (Hcols row j eq_refl), Hone; split; [tauto |].
      intros Hp; split; [| exact Hp].
      destruct (Nat.lt_ge_cases j (snd (shape m))) as [Hlt | Hge];
        [exact Hlt | rewrite (Hwidth j Hge) in Hp; lia]. }
    assert (Hval : forall j,
              nth j (reference_row m' r) 0
              = Z.max 0 (nth j (reference_row m i) 0)).
    { intros j; unfold reference_row at 1; rewrite Hentries, Hmed.
      rewrite map_map; unfold stored; simpl.
      rewrite (map_ext _ (fun c => (c, nth c (reference_row m i) 0)))
        by (intros c; rewrite median_singleton, trunc_inject_Z, int8_small;
            [reflexivity | apply reference_row_range]).
      destruct (0 <? nth j (reference_row m i) 0) eqn:Hp.
      - apply Z.ltb_lt in Hp.
        assert (Hin : In j (map fst row)) by now apply Hkept.
        assert (Hj : (j < snd (shape m'))%nat).
        { pose proof (@summarize_at_level_Ok m names ids level m' rn' H)
            as (_ & _ & _ & _ & Hshape).
          rewrite Hshape; simpl.
          apply Nat.lt_succ_r, list_max_In, (row_entries_indices m' r).
          rewrite Hentries, map_map; exact Hin. }
        rewrite nth_dense_of, dense_fold_nodup by assumption.
        assert (Hex : existsb (Nat.eqb j) (map fst row) = true)
          by (apply existsb_exists; exists j; split;
              [exact Hin | apply Nat.eqb_refl]).
        rewrite Hex; simpl.
        rewrite int8_small by apply reference_row_range; lia.
      - apply Z.ltb_ge in Hp.
        destruct (Nat.lt_ge_cases j (snd (shape m'))) as [Hj | Hj].
        + rewrite nth_dense_of, dense_fold_nodup by assumption.
          destruct (existsb (Nat.eqb j) (map fst row)) eqn:Hex; [| lia].
          apply existsb_exists in Hex as (c & Hc & Heq).
          apply Nat.eqb_eq in Heq; subst c.
          apply Hkept in Hc; lia.
        + rewrite nth_overflow by (now rewrite length_dense_of); lia. }
    exists r; repeat split; [exact Hr | exact Hrlt | exact Hval |].
    intros Hnonneg j; rewrite Hval; specialize (Hnonneg j); lia.
  - intros Hnonpos.
    assert (Hg : group_row m (name, [i]) = None).
    { apply Hnone; intros j _ Hp; apply Hone in Hp.
      specialize (Hnonpos j); lia. }
    rewrite Hg in Hrow; exact Hrow.
Qed.

Lemma summarize_at_level_singleton_witness :
  exists r,
    dict_get [("A", 0%nat); ("B", 1%nat)] "B" = Some r
    /\ forall j, nth j (reference_row two_genera_collapsed r) 0
                 = nth j (reference_row two_genera_csr 0) 0.
Proof.
  destruct (summarize_at_level_singleton
              two_genera_csr [("B;s1", 0%nat); ("A;s2", 1%nat)]
              [("K1", 0%nat)] 1 two_genera_collapsed
              [("A", 0%nat); ("B", 1%nat)] "B" 0%nat
              collapse_two_genera eq_refl) as [Hsome _].
  destruct Hsome as (r & Hr & _ & _ & Heq).
  - exists 0%nat; vm_compute; reflexivity.
  - exists r; split; [exact Hr |].
    apply Heq; intros [| j]; [vm_compute; discriminate |].
    change (reference_row two_genera_csr 0) with [1].
    destruct j; simpl; lia.
Defined.

Example parse_unannotated_strain :
  parse_kegg_table unannotated_strain
  = Ok ([("G;s1", 0%nat); ("H;s2", 1%nat)], [("K1", 0%nat)], unannotated_csr).
Proof. reflexivity. Qed.

(** C6 as stated fails in two ways.  The one strain of genus G in
    [wrapped_strain] has the stored counts -128 and 1; its collapsed row
    keeps only the 1.  The one strain of genus H in [unannotated_strain] has
    no annotation; its group yields no row at all. *)
Lemma summarize_at_level_singleton_differs :
  (summarize_at_level wrapped_csr [("G;s1", 0%nat)]
                      [("K1", 0%nat); ("K2", 1%nat)] 1
   = Ok (wrapped_collapsed, [("G", 0%nat)])
   /\ positions_of "G" (map (truncate_lineage 1)
                            (sorted_names [("G;s1", 0%nat)])) = [0%nat]
   /\ reference_row wrapped_csr 0 = [-128; 1]
   /\ reference_row wrapped_collapsed 0 = [0; 1]
   /\ reference_row wrapped_collapsed 0 <> reference_row wrapped_csr 0)
  /\ (exists m',
        summarize_at_level unannotated_csr
                           [("G;s1", 0%nat); ("H;s2", 1%nat)]
                           [("K1", 0%nat)] 1
        = Ok (m', [("G", 0%nat)])
        /\ positions_of "H" (map (truncate_lineage 1)
                                 (sorted_names [("G;s1", 0%nat);
                                                ("H;s2", 1%nat)]))
           = [1%nat]
        /\ dict_get [("G", 0%nat)] "H" = None
        /\ fst (shape m') = 1%nat).
Proof.
  split.
  - split; [exact collapse_wrapped_strain |].
    repeat split; try (vm_compute; reflexivity).
    vm_compute; discriminate.
  - eexists; split; [vm_compute; reflexivity |].
    repeat split.
Qed.

(** ** [summarize_kegg_table] *)

Lemma nodupb_NoDup l : nodupb l = true <-> NoDup l.
Proof.
  induction l as [| x l IH]; simpl; [split; [constructor | reflexivity] |].
  rewrite andb_true_iff, negb_true_iff, IH; split.
  - intros [Hx Hl]; constructor; [| exact Hl].
    intros Hin.
    assert (existsb (String.eqb x) l = true)
      by (apply existsb_exists; exists x; split;
          [exact Hin | apply String.eqb_refl]).
    congruence.
  - intros Hnd; inversion Hnd as [| ? ? Hnotin Hl]; subst; split; [| exact Hl].
    destruct (existsb (String.eqb x) l) eqn:Hex; [| reflexivity].
    apply existsb_exists in Hex as (y & Hy & Heq).
    apply String.eqb_eq in Heq; subst y; contradiction.
Qed.

Lemma labels_eqb_eq a : forall b, labels_eqb a b = true -> a = b.
Proof.
  induction a as [| x a IH]; intros [| y b]; simpl; try discriminate;
    [reflexivity |].
  rewrite andb_true_iff; intros [Hxy Hab].
  apply String.eqb_eq in Hxy; apply IH in Hab; congruence.
Qed.

Lemma dict_get_notin {V} (d : pydict V) k :
  ~ In k (keys d) -> dict_get d k = None.
Proof.
  induction d as [| [k' v] d IH]; simpl; intros Hk; [reflexivity |].
  destruct (String.eqb_spec k' k); [tauto | apply IH; tauto].
Qed.

Lemma NoDup_keys_combine {V} (ls : list string) : forall (vs : list V),
  NoDup ls -> NoDup (keys (combine ls vs)).
Proof.
  induction ls as [| l ls IH]; intros [| v vs] Hnd; simpl; try constructor.
  - inversion Hnd as [| ? ? Hnotin _]; subst.
    intros Hin; apply Hnotin.
    apply in_map_iff in Hin as ([k v'] & <- & Hin).
    eapply in_combine_l; exact Hin.
  - inversion Hnd; subst; now apply IH.
Qed.

(** A frame with distinct labels, looked up at its own labels, gives back
    its rows. *)
Lemma lookup_own_rows {V} (d : V) (ls : list string) : forall (vs : list V),
  NoDup ls -> length ls = length vs ->
  map (fun l => match dict_get (combine ls vs) l with
                | Some r => r
                | None => d
                end) ls = vs.
Proof.
  induction ls as [| l ls IH]; intros [| v vs] Hnd Hlen; simpl in *;
    try discriminate; [reflexivity |].
  inversion Hnd as [| ? ? Hnotin Hnd']; subst.
  rewrite String.eqb_refl; f_equal.
  etransitivity; [| apply (IH vs Hnd'); lia].
  apply map_ext_in; intros k Hk.
  destruct (String.eqb_spec l k) as [-> | _]; [contradiction | reflexivity].
Qed.

Lemma reindex_Ok df labels :
  NoDup (index df) -> length (index df) = length (values df) ->
  exists filtered,
    reindex df labels = Ok filtered
    /\ index filtered = labels
    /\ columns filtered = columns df
    /\ values filtered
       = map (fun l => match dict_get (iterrows df) l with
                       | Some row => row
                       | None => repeat 0 (length (columns df))
                       end) labels.
Proof.
  intros Hnd Hlen; unfold reindex.
  destruct (labels_eqb (index df) labels) eqn:Heq.
  - apply labels_eqb_eq in Heq; subst labels.
    exists df; repeat split.
    unfold iterrows; now rewrite lookup_own_rows.
  - rewrite (proj2 (nodupb_NoDup _) Hnd).
    eexists; repeat split.
Qed.

(** Picking the row of one label out of a frame with distinct labels. *)
Lemma pick_sum {V} (y : V -> Z) (B : pydict V) l :
  NoDup (keys B) ->
  sum (map (fun p => if String.eqb l (fst p) then y (snd p) else 0) B)
  = match dict_get B l with Some v => y v | None => 0 end.
Proof.
  induction B as [| [f v] B IH]; simpl; intros Hnd; [reflexivity |].
  inversion Hnd as [| ? ? Hnotin Hnd']; subst.
  rewrite (String.eqb_sym l f).
  destruct (String.eqb_spec f l) as [-> | _].
  - rewrite (IH Hnd'), (dict_get_notin B l Hnotin); lia.
  - rewrite (IH Hnd'); lia.
Qed.

(** The sum over the labels of one frame, looking each up in the other,
    does not depend on which frame is walked. *)
Lemma lookup_sum_sym {V} (y : V -> Z) (A : pydict Z) (B : pydict V) :
  NoDup (keys A) -> NoDup (keys B) ->
  sum (map (fun p => snd p * match dict_get B (fst p) with
                             | Some v => y v
                             | None => 0
                             end) A)
  = sum (map (fun p => match dict_get A (fst p) with
                       | Some a => a
                       | None => 0
                       end * y (snd p)) B).
Proof.
  induction A as [| [l a] A IH]; simpl; intros HA HB.
  - induction B as [| p B IHB]; simpl; [reflexivity |].
    inversion HB; subst; rewrite <- IHB by assumption; lia.
  - inversion HA as [| ? ? Hnotin HA']; subst.
    rewrite (IH HA' HB), <- (pick_sum y B l HB), <- sum_map_scale,
            <- sum_map_add.
    apply sum_map_ext; intros [f v] _; simpl.
    destruct (String.eqb_spec l f) as [-> | _]; [| lia].
    rewrite (dict_get_notin A f Hnotin); lia.
Qed.

Lemma combine_map_l {X Y W} (g : X -> W) (xs : list X) : forall (ys : list Y),
  combine (map g xs) ys = map (fun p => (g (fst p), snd p)) (combine xs ys).
Proof.
  induction xs as [| x xs IH]; intros [| y ys]; simpl; try reflexivity.
  now rewrite IH.
Qed.

Lemma combine_map_r {X Y W} (g : Y -> W) (xs : list X) : forall (ys : list Y),
  combine xs (map g ys) = map (fun p => (fst p, g (snd p))) (combine xs ys).
Proof.
  induction xs as [| x xs IH]; intros [| y ys]; simpl; try reflexivity.
  now rewrite IH.
Qed.

Lemma combine_swap {X Y} (xs : list X) : forall (ys : list Y),
  combine ys xs = map (fun p => (snd p, fst p)) (combine xs ys).
Proof.
  induction xs as [| x xs IH]; intros [| y ys]; simpl; try reflexivity.
  now rewrite IH.
Qed.

Lemma nth_repeat_zero s n : nth s (repeat 0 n) 0 = 0.
Proof.
  revert s; induction n as [| n IH]; intros [| s]; simpl; auto.
Qed.

(** One cell of the product: the code walks the membership row and looks
    the function up in the function table; the specification walks the
    function table and looks the function up in the membership row. *)
Lemma dot_cell_reindexed kegg_table labels arow s :
  NoDup labels -> NoDup (index kegg_table) ->
  dot_cell arow
           (map (fun l => match dict_get (iterrows kegg_table) l with
                          | Some row => row
                          | None => repeat 0 (length (columns kegg_table))
                          end) labels) s
  = dot_cell (map (fun f => match dict_get (combine labels arow) f with
                            | Some a => a
                            | None => 0
                            end) (index kegg_table))
             (values kegg_table) s.
Proof.
  intros Hl Hi; unfold dot_cell.
  rewrite combine_map_r, combine_map_l, !map_map; simpl.
  rewrite (combine_swap labels arow), map_map; simpl.
  fold (iterrows kegg_table).
  rewrite <- (lookup_sum_sym (fun row => nth s row 0)
                (combine labels arow) (iterrows kegg_table)
                (NoDup_keys_combine labels arow Hl)
                (NoDup_keys_combine (index kegg_table) (values kegg_table) Hi)).
  apply sum_map_ext; intros [l a] _; simpl.
  destruct (dict_get (iterrows kegg_table) l); [reflexivity |].
  now rewrite nth_repeat_zero.
Qed.

Lemma dict_get_combine_map_r {V W} (g : V -> W) (ls : list string) :
  forall (vs : list V) k,
    dict_get (combine ls (map g vs)) k
    = option_map g (dict_get (combine ls vs) k).
Proof.
  induction ls as [| l ls IH]; intros [| v vs] k; simpl; try reflexivity.
  destruct (String.eqb l k); [reflexivity | apply IH].
Qed.

Lemma map_repeat_zero n : map Z.abs (repeat 0 n) = repeat 0 n.
Proof. induction n as [| n IH]; simpl; [reflexivity | now rewrite IH]. Qed.

(** The magnitude of a cell is the same on both sides of
    [dot_cell_reindexed]. *)
Lemma product_magnitude_reindexed kegg_table labels arow s :
  NoDup labels -> NoDup (index kegg_table) ->
  product_magnitude
    arow
    (map (fun l => match dict_get (iterrows kegg_table) l with
                   | Some row => row
                   | None => repeat 0 (length (columns kegg_table))
                   end) labels) s
  = product_magnitude
      (map (fun f => match dict_get (combine labels arow) f with
                     | Some a => a
                     | None => 0
                     end) (index kegg_table))
      (values kegg_table) s.
Proof.
  intros Hl Hi; unfold product_magnitude.
  pose proof (dot_cell_reindexed
                {| index := index kegg_table; columns := columns kegg_table;
                   values := map (map Z.abs) (values kegg_table) |}
                labels (map Z.abs arow) s Hl Hi) as H.
  unfold iterrows in H; cbn [index columns values] in H.
  assert (HA : forall l,
            map Z.abs
                match dict_get (iterrows kegg_table) l with
                | Some row => row
                | None => repeat 0 (length (columns kegg_table))
                end
            = match dict_get (combine (index kegg_table)
                                      (map (map Z.abs) (values kegg_table))) l
              with
              | Some row => row
              | None => repeat 0 (length (columns kegg_table))
              end).
  { intros l; unfold iterrows; rewrite dict_get_combine_map_r.
    destruct (dict_get (combine (index kegg_table) (values kegg_table)) l);
      [reflexivity | apply map_repeat_zero]. }
  assert (HB : forall f,
            Z.abs match dict_get (combine labels arow) f with
                  | Some a => a
                  | None => 0
                  end
            = match dict_get (combine labels (map Z.abs arow)) f with
              | Some a => a
              | None => 0
              end).
  { intros f; rewrite dict_get_combine_map_r.
    destruct (dict_get (combine labels arow) f); reflexivity. }
  rewrite !map_map.
  rewrite (map_ext _ _ HA), (map_ext _ _ HB).
  exact H.
Qed.

Lemma df_int64_fits df :
  (forall row v, In row (values df) -> In v row -> fits 64 v) ->
  df_int64 df = df.
Proof.
  intros Hfit; destruct df as [idx cols vals]; unfold df_int64.
  cbn [index columns values] in *; f_equal.
  rewrite <- (map_id vals) at 2.
  apply map_ext_in; intros row Hrow.
  rewrite <- (map_id row) at 2.
  apply map_ext_in; intros v Hv.
  apply wrap_small; [lia | eapply Hfit; eauto].
Qed.

(** C3, as the code has it.  What the code reindexes is the function
    table, to the function axis of the membership table; the product is
    that of the specification, the membership table reindexed along its
    function axis to the rows of the function table, zero-filled, times the
    function abundances.  The function labels of the membership table are
    distinct, as reindexing that axis requires.  For a function table with
    distinct row labels the summarizer never raises, whatever functions the
    two tables share.  When every function of the membership table has a
    row in the function table the product is computed in int64: the group
    abundance is the product reduced modulo 2^64, and the product itself
    when its cells fit 64 bits.  When a function had to be filled the
    product is computed in float64: the group abundance is the product
    as long as the absolute products of each cell sum to at most 2^53.
    The all-zero group rows are removed in both cases. *)
Theorem summarize_kegg_table_product dot_float64 kegg_table summary_table :
  NoDup (index kegg_table) ->
  length (index kegg_table) = length (values kegg_table) ->
  NoDup (columns summary_table) ->
  let product := group_abundance_spec kegg_table summary_table in
  (exists tables,
     summarize_kegg_table dot_float64 kegg_table summary_table = Ok tables)
  /\ (reindex_fills kegg_table (columns summary_table) = false ->
      (exists df_coverage,
         summarize_kegg_table dot_float64 kegg_table summary_table
         = Ok (drop_zero_rows (df_int64 product), df_coverage))
      /\ ((forall row v, In row (values product) -> In v row -> fits 64 v) ->
          df_int64 product = product))
  /\ (reindex_fills kegg_table (columns summary_table) = true ->
      float64_exact dot_float64 ->
      (forall arow s,
         In arow (values (reindex_function_axis summary_table
                                                (index kegg_table))) ->
         (s < length (columns kegg_table))%nat ->
         product_magnitude arow (values kegg_table) s <= 2 ^ 53) ->
      exists df_coverage,
        summarize_kegg_table dot_float64 kegg_table summary_table
        = Ok (drop_zero_rows product, df_coverage)).
Proof.
  intros Hi Hlen Hc product; unfold summarize_kegg_table.
  destruct (reindex_Ok kegg_table (columns summary_table) Hi Hlen)
    as (filtered & -> & Hfi & Hfc & Hfv); cbn [bind].
  split; [eexists; reflexivity |].
  split.
  - intros ->; split; [| apply df_int64_fits].
    eexists; do 3 f_equal.
    unfold product, group_abundance_spec, reindex_function_axis, df_int64,
      matrix_product, dot.
    cbn [index columns values].
    rewrite Hfc, Hfv, !map_map; f_equal.
    apply map_ext; intros arow.
    unfold tabulate; rewrite map_map.
    apply map_ext; intros s; f_equal.
    now apply dot_cell_reindexed.
  - intros -> Hexact Hbound.
    eexists; do 3 f_equal.
    unfold dot; cbn [index columns values].
    rewrite Hexact.
    + unfold product, group_abundance_spec, reindex_function_axis,
        matrix_product.
      cbn [index columns values].
      rewrite Hfc, Hfv, map_map; f_equal.
      apply map_ext; intros arow.
      apply tabulate_ext; intros s _.
      now apply dot_cell_reindexed.
    + intros arow s Harow Hs.
      rewrite Hfv, product_magnitude_reindexed by assumption.
      apply Hbound; [| now rewrite <- Hfc].
      unfold reindex_function_axis; cbn [values].
      apply in_map_iff; exists arow; auto.
Qed.

Lemma summarize_kegg_table_product_witness :
  (exists df_coverage,
     summarize_kegg_table small_dot_float64 kegg_two_functions two_modules
     = Ok ({| index := ["M1"]; columns := ["s1"]; values := [[8]] |},
           df_coverage))
  /\ (exists df_coverage,
        summarize_kegg_table small_dot_float64 kegg_two_functions
                             both_functions
        = Ok ({| index := ["M1"]; columns := ["s1"]; values := [[124]] |},
              df_coverage)).
Proof.
  pose proof (summarize_kegg_table_product small_dot_float64
                kegg_two_functions two_modules
                ltac:(apply nodupb_NoDup; reflexivity) eq_refl
                ltac:(apply nodupb_NoDup; reflexivity)) as Hfloat.
  pose proof (summarize_kegg_table_product small_dot_float64
                kegg_two_functions both_functions
                ltac:(apply nodupb_NoDup; reflexivity) eq_refl
                ltac:(apply nodupb_NoDup; reflexivity)) as Hint.
  cbv zeta in Hfloat, Hint; split.
  - apply (proj2 (proj2 Hfloat)); [reflexivity | intros a b _; reflexivity |].
    intros arow s Harow Hs; simpl in Hs.
    destruct s as [| s]; [| lia].
    simpl in Harow; destruct Harow as [<- | [<- | []]]; vm_compute;
      discriminate.
  - exact (proj1 (proj1 (proj2 Hint) eq_refl)).
Defined.

(** C3 as stated fails in two ways.  The product of a membership count 2
    with the abundance 2^62 is computed in int64 and comes out as -2^63,
    not as the 2^63 of the matrix product.  And a function table that
    repeats a row label cannot be reindexed: on a mismatch of the two
    function axes the summarizer raises. *)
Lemma summarize_kegg_table_not_product :
  (reindex_fills large_function (columns one_member) = false
   /\ summarize_kegg_table small_dot_float64 large_function one_member
      = Ok ({| index := ["M1"]; columns := ["s1"];
               values := [[- 2 ^ 63]] |},
            {| index := ["M1"]; columns := ["s1"];
               values := [[Some (inject_Z 2 / inject_Z 2)%Q]] |})
   /\ drop_zero_rows (group_abundance_spec large_function one_member)
      = {| index := ["M1"]; columns := ["s1"]; values := [[2 ^ 63]] |})
  /\ summarize_kegg_table small_dot_float64 repeated_function one_module
     = Raise ValueError.
Proof.
  repeat split.
Qed.

(** ** [parse_function_db] *)

Lemma dict_mem_keys {V} (d : pydict V) k : In k (keys d) -> dict_mem d k = true.
Proof.
  unfold dict_mem; induction d as [| [k' v] d IH]; simpl; [contradiction |].
  destruct (String.eqb_spec k' k) as [_ | Hne]; [reflexivity |].
  intros [Heq | Hin]; [contradiction | exact (IH Hin)].
Qed.

(** C9.  Provided [glob] lists only paths that exist: when the metadata
    names a function database and one of the three reference files is
    absent, the result is the empty dictionary; and whatever the files, a
    returned dictionary is either empty or carries all eight keys. *)
Theorem parse_function_db_all_or_nothing
        (glob : filesystem -> string -> list string) fs metadata database :
  (forall pattern path,
     In path (glob fs pattern) -> dict_mem fs path = true) ->
  (forall name suffix,
     dict_get metadata "function" = Some name ->
     In suffix suffices ->
     dict_mem fs (db_file database name suffix) = false ->
     parse_function_db glob fs metadata database = Ok [])
  /\ (forall r,
        parse_function_db glob fs metadata database = Ok r ->
        r = [] \/ keys r = db_keys).
Proof.
  intros Hglob; split.
  - intros name suffix Hname Hsuffix Habsent.
    unfold parse_function_db; rewrite Hname.
    destruct (forallb _ _) eqn:Hall; [| reflexivity].
    exfalso.
    rewrite forallb_forall in Hall.
    specialize (Hall (db_file database name suffix)
                     (in_map _ _ _ Hsuffix)).
    apply existsb_exists in Hall as (path & Hin & Heq).
    apply String.eqb_eq in Heq; subst path.
    apply Hglob in Hin; congruence.
  - intros r; unfold parse_function_db.
    destruct (dict_get metadata "function") as [name |];
      [| intros H; injection H as <-; now left].
    destruct (forallb _ _); [| intros H; injection H as <-; now left].
    intros H.
    apply bind_Ok in H as (modules_df & _ & H).
    apply bind_Ok in H as (pathway_df & _ & H).
    apply bind_Ok in H as ([[row_names kegg_ids] m] & _ & H).
    injection H as <-; right; reflexivity.
Qed.

Lemma listing_glob_exists fs pattern path :
  In path (listing_glob fs pattern) -> dict_mem fs path = true.
Proof.
  unfold listing_glob; rewrite filter_In; intros [Hin _].
  now apply dict_mem_keys.
Qed.

Example parse_function_db_complete :
  option_map keys
    (match parse_function_db listing_glob kegg_db [("function", "kegg")] "db"
     with Ok r => Some r | Raise _ => None end)
  = Some db_keys.
Proof. vm_compute; reflexivity. Qed.

Lemma parse_function_db_all_or_nothing_witness :
  parse_function_db listing_glob kegg_db_no_pathways
                    [("function", "kegg")] "db" = Ok [].
Proof.
  apply (proj1 (parse_function_db_all_or_nothing
                  listing_glob kegg_db_no_pathways [("function", "kegg")] "db"
                  (listing_glob_exists kegg_db_no_pathways))
               "kegg" "pathway-annotations.txt").
  - reflexivity.
  - simpl; auto.
  - reflexivity.
Defined.

(** ** Keys of the taxatable against keys of the collapsed reference *)

Lemma contains_replace a b s :
  a <> b -> contains a (replace a b s) = false.
Proof.
  intros Hab; induction s as [| c s IH]; simpl; [reflexivity |].
  rewrite IH, orb_false_r.
  destruct (Ascii.eqb_spec c a) as [-> | Hca].
  - apply Ascii.eqb_neq; congruence.
  - now apply Ascii.eqb_neq.
Qed.

Lemma taxatable_summary_no_space level label :
  contains space (taxatable_summary level label) = false.
Proof. apply contains_replace; discriminate. Qed.

Lemma dict_get_Some_In {V} (d : pydict V) k v :
  dict_get d k = Some v -> In k (keys d).
Proof.
  induction d as [| [k' v'] d IH]; simpl; [discriminate |].
  destruct (String.eqb_spec k' k) as [-> | _]; [now left |].
  intros H; right; exact (IH H).
Qed.

Lemma sorted_names_In names label :
  In label (sorted_names names) <-> In label (keys names).
Proof.
  unfold sorted_names, sorted_by_key, keys.
  split; apply Permutation_in, Permutation_map;
    [| symmetry]; apply sort_by_perm.
Qed.

(** Every key of the collapsed row mapping is the truncation of a strain
    label of the reference. *)
Lemma collapsed_key_origin m names ids level m' rn' key idx :
  summarize_at_level m names ids level = Ok (m', rn') ->
  dict_get rn' key = Some idx ->
  exists label, In label (keys names) /\ truncate_lineage level label = key.
Proof.
  intros H Hget.
  apply collapsed_row_names in H as (Hkeys & _).
  apply dict_get_Some_In in Hget.
  rewrite Hkeys, collapsed_keys_filter in Hget.
  apply filter_In in Hget as [Hin _].
  apply (Permutation_in _ (sort_by_perm _ _)) in Hin.
  apply (proj1 (In_unique _ _)) in Hin.
  apply in_map_iff in Hin as (label & <- & Hlabel).
  exists label; split; [now apply sorted_names_In | reflexivity].
Qed.

(** The index of the regrouped taxatable consists of underscored
    truncations of the input labels. *)
Lemma regroup_taxatable_index level cols rows df key :
  regroup_taxatable level cols rows = Ok df ->
  In key (index df) ->
  exists label row, In (Some label, row) rows
                    /\ key = taxatable_summary level label.
Proof.
  unfold regroup_taxatable; cbv zeta.
  destruct (flat_map _ rows) as [| r0 strs] eqn:Hstrs; [discriminate |].
  rewrite <- Hstrs; clear r0 strs Hstrs.
  intros Hdf; injection Hdf as <-; simpl; intros Hin.
  apply (Permutation_in _ (sort_by_perm _ _)) in Hin.
  apply (proj1 (In_unique _ _)) in Hin.
  apply in_map_iff in Hin as ([k row] & <- & Hin).
  apply filter_In in Hin as [Hin _].
  apply in_map_iff in Hin as ([label row'] & Heq & Hin).
  injection Heq as <- <-.
  apply in_flat_map in Hin as ([[l |] r] & Hr & Hin); simpl in Hin;
    [| contradiction].
  destruct Hin as [Heq | []]; injection Heq as <- <-.
  exists l, r; auto.
Qed.

(** C10, as the code has it.  For a lineage whose rank-truncated form
    contains a space, the taxatable key (underscored) differs from the
    reference key built from the same lineage (not underscored); the
    taxatable key can only be matched by a reference lineage whose
    truncation is the underscored string itself, which has no space; and
    when no reference lineage truncates to it, the key is absent from the
    collapsed row mapping and a taxatable row under that key adds nothing to
    any cell of the function table. *)
Theorem taxatable_key_with_space m names ids level m' rn' lineage :
  summarize_at_level m names ids level = Ok (m', rn') ->
  contains space (truncate_lineage level lineage) = true ->
  let key := taxatable_summary level lineage in
  key <> truncate_lineage level lineage
  /\ (forall idx, dict_get rn' key = Some idx ->
        exists label, In label (keys names)
                      /\ truncate_lineage level label = key
                      /\ contains space (truncate_lineage level label) = false)
  /\ ((forall label, In label (keys names) ->
                     truncate_lineage level label <> key) ->
      dict_get rn' key = None
      /\ forall row s f, contribution rn' m' s f (key, row) = 0).
Proof.
  intros H Hspace key.
  pose proof (taxatable_summary_no_space level lineage) as Hnone.
  fold key in Hnone.
  split; [intros Heq; rewrite Heq in Hnone; congruence |].
  split.
  - intros idx Hget.
    destruct (collapsed_key_origin _ _ _ _ _ _ _ _ H Hget)
      as (label & Hlabel & Heq).
    exists label; repeat split; [exact Hlabel | exact Heq |].
    now rewrite Heq.
  - intros Hno.
    assert (Hget : dict_get rn' key = None).
    { destruct (dict_get rn' key) as [idx |] eqn:Hget; [| reflexivity].
      destruct (collapsed_key_origin _ _ _ _ _ _ _ _ H Hget)
        as (label & Hlabel & Heq).
      exfalso; exact (Hno label Hlabel Heq). }
    split; [exact Hget |].
    intros row s f; unfold contribution; simpl; now rewrite Hget.
Qed.

Example collapse_spaced_genus :
  summarize_at_level spaced_genus_csr [("A b;x", 0%nat)] [("K1", 0%nat)] 1
  = Ok (spaced_genus_csr, [("A b", 0%nat)]).
Proof. reflexivity. Qed.

Lemma taxatable_key_with_space_witness :
  "A_b" <> "A b" /\ dict_get [("A b", 0%nat)] "A_b" = None.
Proof.
  destruct (taxatable_key_with_space
              spaced_genus_csr [("A b;x", 0%nat)] [("K1", 0%nat)] 1
              spaced_genus_csr [("A b", 0%nat)] "A b;x"
              collapse_spaced_genus eq_refl) as (Hne & _ & Hnone).
  split; [exact Hne |].
  apply Hnone.
  intros label [<- | []]; vm_compute; discriminate.
Defined.

(** C10 as stated fails when the reference also holds the underscored
    lineage: the taxon "A b;x" truncates at rank 1 to "A b", which contains
    a space, yet its taxatable key "A_b" matches the reference group of the
    strain "A_b;y" and puts 10 * 2 = 20 into the function table.  With one
    sample, normalizing by the median depth changes nothing. *)
Lemma taxatable_key_with_space_matches_twin :
  contains space (truncate_lineage 1 "A b;x") = true
  /\ summarize_at_level underscored_twin_csr
                        [("A b;x", 0%nat); ("A_b;y", 1%nat)]
                        [("K1", 0%nat)] 1
     = Ok (underscored_twin_csr, [("A b", 0%nat); ("A_b", 1%nat)])
  /\ dict_get [("A b", 0%nat); ("A_b", 1%nat)] (taxatable_summary 1 "A b;x")
     = Some 1%nat
  /\ exists normalized tables lg,
       function_run_and_save small_dot_float64 (fun df => df) ["s1"]
                             [(Some "A b;x", [10])] underscored_twin_db 1
       = Ok (normalized, tables, lg)
       /\ out_kegg_table_df tables
          = {| index := ["K1"]; columns := ["s1"]; values := [[20]] |}.
Proof.
  repeat split.
  eexists _, _, _; split; [vm_compute; reflexivity | reflexivity].
Qed.

(** * Further properties of the module *)

(** ** Lineage strings *)

Lemma split_not_nil sep s : split sep s <> [].
Proof.
  destruct s as [| c s]; simpl; [discriminate |].
  destruct (Ascii.eqb c sep); [discriminate |].
  destruct (split sep s); discriminate.
Qed.

(** [sep.join(s.split(sep))] is [s]. *)
Lemma concat_split sep s :
  String.concat (String sep "") (split sep s) = s.
Proof.
  induction s as [| c s IH]; simpl; [reflexivity |].
  pose proof (split_not_nil sep s) as Hne.
  destruct (Ascii.eqb_spec c sep) as [-> | Hc].
  - destruct (split sep s) as [| h t]; [congruence |].
    simpl in *; now rewrite IH.
  - destruct (split sep s) as [| h t]; [congruence |].
    destruct t as [| h' t]; simpl in *; now rewrite <- IH.
Qed.

Lemma length_split sep s : length (split sep s) = S (count sep s).
Proof.
  induction s as [| c s IH]; simpl; [reflexivity |].
  pose proof (split_not_nil sep s) as Hne.
  destruct (Ascii.eqb c sep); simpl; [now rewrite IH |].
  destruct (split sep s) as [| h t]; [congruence |].
  simpl in *; exact IH.
Qed.

(** No piece of a split contains the separator. *)
Lemma split_pieces sep s :
  Forall (fun piece => count sep piece = 0%nat) (split sep s).
Proof.
  induction s as [| c s IH]; simpl; [repeat constructor |].
  pose proof (split_not_nil sep s) as Hne.
  destruct (Ascii.eqb c sep) eqn:Hc; [constructor; [reflexivity | exact IH] |].
  destruct (split sep s) as [| h t]; [congruence |].
  inversion IH as [| ? ? Hh Ht]; subst.
  constructor; [simpl; now rewrite Hc | exact Ht].
Qed.

Lemma count_app sep a b :
  count sep (a ++ b)%string = (count sep a + count sep b)%nat.
Proof. induction a as [| c a IH]; simpl; [reflexivity | rewrite IH; lia]. Qed.

(** Joining separator-free pieces gives one separator per junction. *)
Lemma count_concat sep pieces :
  Forall (fun piece => count sep piece = 0%nat) pieces ->
  count sep (String.concat (String sep "") pieces) = (length pieces - 1)%nat.
Proof.
  induction 1 as [| p ps Hp Hps IH]; [reflexivity |].
  destruct ps as [| q ps]; [simpl; lia |].
  change (String.concat (String sep "") (p :: q :: ps))
    with (p ++ String sep "" ++ String.concat (String sep "") (q :: ps))%string.
  rewrite !count_app, IH, Hp; simpl.
  rewrite Ascii.eqb_refl; lia.
Qed.

Lemma split_piece sep p : count sep p = 0%nat -> split sep p = [p].
Proof.
  induction p as [| c p IH]; simpl; [reflexivity |].
  destruct (Ascii.eqb c sep); [discriminate |].
  intros Hp; now rewrite IH.
Qed.

Lemma split_app_sep sep p rest :
  count sep p = 0%nat ->
  split sep (p ++ String sep rest)%string = p :: split sep rest.
Proof.
  induction p as [| c p IH]; simpl.
  - now rewrite Ascii.eqb_refl.
  - destruct (Ascii.eqb c sep); [discriminate |].
    intros Hp; now rewrite IH.
Qed.

(** [sep.join(pieces).split(sep)] is [pieces], for separator-free pieces. *)
Lemma split_concat sep pieces :
  pieces <> [] ->
  Forall (fun piece => count sep piece = 0%nat) pieces ->
  split sep (String.concat (String sep "") pieces) = pieces.
Proof.
  intros Hne Hall; induction Hall as [| p ps Hp Hps IH]; [congruence |].
  destruct ps as [| q ps]; [now apply split_piece |].
  change (String.concat (String sep "") (p :: q :: ps))
    with (p ++ String sep (String.concat (String sep "") (q :: ps)))%string.
  rewrite split_app_sep by exact Hp.
  now rewrite IH.
Qed.

Lemma Forall_firstn {X} (P : X -> Prop) n l :
  Forall P l -> Forall P (firstn n l).
Proof.
  intros H; revert n; induction H as [| x l Hx Hl IH]; intros [| n]; simpl;
    constructor; auto.
Qed.

(** X1.  Truncating a lineage to [level] ranks leaves it unchanged when it
    has at most [level] fields, is idempotent, and for a positive level
    leaves the smaller of [level] and the number of fields. *)
Theorem truncate_lineage_fields level label :
  ((count semicolon label + 1 <= level)%nat ->
   truncate_lineage level label = label)
  /\ truncate_lineage level (truncate_lineage level label)
     = truncate_lineage level label
  /\ ((0 < level)%nat ->
      (count semicolon (truncate_lineage level label) + 1)%nat
      = Nat.min level (count semicolon label + 1)).
Proof.
  unfold truncate_lineage.
  change ";" with (String semicolon "").
  pose proof (split_pieces semicolon label) as Hpieces.
  pose proof (length_split semicolon label) as Hlen.
  repeat split.
  - intros Hdeep.
    rewrite firstn_all2 by (rewrite Hlen; lia).
    apply concat_split.
  - destruct level as [| l]; [reflexivity |].
    rewrite split_concat.
    + now rewrite firstn_firstn, Nat.min_id.
    + pose proof (split_not_nil semicolon label).
      destruct (split semicolon label); [congruence | discriminate].
    + now apply Forall_firstn.
  - intros Hpos.
    rewrite count_concat by (now apply Forall_firstn).
    rewrite length_firstn, Hlen; lia.
Qed.

Lemma truncate_lineage_fields_witness :
  truncate_lineage 2 "k;p" = "k;p"
  /\ (count semicolon (truncate_lineage 2 "k;p;c") + 1)%nat = 2%nat.
Proof.
  split.
  - apply (proj1 (truncate_lineage_fields 2 "k;p")); simpl; lia.
  - rewrite (proj2 (proj2 (truncate_lineage_fields 2 "k;p;c"))) by lia.
    reflexivity.
Defined.

(** ** [Counter], exactly *)

Lemma counter_add_get c x k :
  dict_get (counter_add c x) k
  = if String.eqb x k then Some (S (tally c x)) else dict_get c k.
Proof.
  unfold tally; induction c as [| [k' n] c IH]; simpl.
  - destruct (String.eqb x k); reflexivity.
  - destruct (String.eqb_spec k' x) as [Hkx | Hkx]; simpl.
    + subst k'; destruct (String.eqb x k); reflexivity.
    + rewrite IH.
      destruct (String.eqb_spec x k) as [Hxk | Hxk];
        destruct (String.eqb_spec k' k) as [Hk | Hk];
        try reflexivity; congruence.
Qed.

Lemma counter_fold_get xs : forall c k,
  dict_get (fold_left counter_add xs c) k
  = if Nat.eqb (count_occ string_dec xs k) 0 then dict_get c k
    else Some (tally c k + count_occ string_dec xs k)%nat.
Proof.
  induction xs as [| x xs IH]; simpl; intros c k; [reflexivity |].
  rewrite IH; unfold tally at 1; rewrite counter_add_get.
  destruct (string_dec x k) as [Hxk | Hxk].
  - subst x; rewrite String.eqb_refl.
    change (Nat.eqb (S (count_occ string_dec xs k)) 0) with false.
    destruct (Nat.eqb (count_occ string_dec xs k) 0) eqn:Hz.
    + apply Nat.eqb_eq in Hz; rewrite Hz; f_equal; lia.
    + f_equal; lia.
  - destruct (String.eqb_spec x k); [contradiction | reflexivity].
Qed.

(** A counter holds, for each element, the number of its occurrences, and
    nothing for what does not occur. *)
Lemma Counter_get xs k :
  dict_get (Counter xs) k
  = if Nat.eqb (count_occ string_dec xs k) 0 then None
    else Some (count_occ string_dec xs k).
Proof. unfold Counter; rewrite counter_fold_get; reflexivity. Qed.

Lemma counter_add_keys c x :
  keys (counter_add c x) = if dict_mem c x then keys c else keys c ++ [x].
Proof.
  unfold dict_mem, keys; induction c as [| [k n] c IH]; simpl; [reflexivity |].
  destruct (String.eqb_spec k x) as [-> | Hne]; simpl; [reflexivity |].
  rewrite IH; destruct (dict_get c x); reflexivity.
Qed.

Lemma dict_mem_In {V} (d : pydict V) k : dict_mem d k = true <-> In k (keys d).
Proof.
  split; [| apply dict_mem_keys].
  unfold dict_mem; destruct (dict_get d k) eqn:H; [| discriminate].
  intros _; eapply dict_get_Some_In; exact H.
Qed.

Lemma NoDup_snoc {X} (l : list X) x : NoDup l -> ~ In x l -> NoDup (l ++ [x]).
Proof.
  intros Hl Hx; apply NoDup_app; [exact Hl | repeat constructor; auto |].
  intros y Hy [<- | []]; contradiction.
Qed.

Lemma Counter_keys_NoDup xs : NoDup (keys (Counter xs)).
Proof.
  unfold Counter.
  assert (H : forall c, NoDup (keys c) ->
                        NoDup (keys (fold_left counter_add xs c))).
  { induction xs as [| x xs IH]; simpl; intros c Hc; [exact Hc |].
    apply IH; rewrite counter_add_keys.
    destruct (dict_mem c x) eqn:Hm; [exact Hc |].
    apply NoDup_snoc; [exact Hc |].
    intros Hin; apply dict_mem_In in Hin; congruence. }
  apply H; constructor.
Qed.

Lemma NoDup_keys_get {V} (d : pydict V) k v :
  NoDup (keys d) -> In (k, v) d -> dict_get d k = Some v.
Proof.
  induction d as [| [k' v'] d IH]; simpl; intros Hnd Hin; [contradiction |].
  inversion Hnd as [| ? ? Hnotin Hnd']; subst.
  destruct Hin as [Heq | Hin].
  - injection Heq as -> ->; now rewrite String.eqb_refl.
  - destruct (String.eqb_spec k' k) as [-> | _]; [| now apply IH].
    exfalso; apply Hnotin, in_map_iff; exists (k, v); auto.
Qed.

Lemma dict_get_In {V} (d : pydict V) k v : dict_get d k = Some v -> In (k, v) d.
Proof.
  induction d as [| [k' v'] d IH]; simpl; [discriminate |].
  destruct (String.eqb_spec k' k) as [-> | _].
  - intros H; injection H as ->; now left.
  - intros H; right; now apply IH.
Qed.

(** The entries of a counter: one per distinct element, with its count. *)
Lemma Counter_In xs k n :
  In (k, n) (Counter xs) <-> In k xs /\ n = count_occ string_dec xs k.
Proof.
  split.
  - intros Hin.
    apply (NoDup_keys_get _ _ _ (Counter_keys_NoDup xs)) in Hin.
    rewrite Counter_get in Hin.
    destruct (Nat.eqb (count_occ string_dec xs k) 0) eqn:Hz; [discriminate |].
    injection Hin as <-; split; [| reflexivity].
    apply Nat.eqb_neq in Hz.
    apply (count_occ_In string_dec); lia.
  - intros [Hin ->].
    apply dict_get_In; rewrite Counter_get.
    apply (count_occ_In string_dec) in Hin.
    destruct (Nat.eqb_spec (count_occ string_dec xs k) 0); [lia | reflexivity].
Qed.

(** ** [parse_kegg_table]: the rows it builds *)

Lemma numbered_get d k c :
  numbered d -> dict_get d k = Some c -> (c < length d)%nat.
Proof.
  unfold numbered; intros Hnum Hget.
  apply dict_get_In in Hget.
  assert (Hin : In c (map snd d))
    by (apply in_map_iff; exists (k, c); auto).
  rewrite Hnum in Hin; apply in_seq in Hin; lia.
Qed.

Lemma numbered_snoc d k : numbered d -> numbered (d ++ [(k, length d)]).
Proof.
  unfold numbered; intros Hnum.
  rewrite map_app, length_app, Hnum; simpl.
  rewrite Nat.add_1_r, seq_S; reflexivity.
Qed.

Lemma dict_get_snoc {V} (d : pydict V) k v k' :
  dict_get (d ++ [(k, v)]) k'
  = match dict_get d k' with
    | Some x => Some x
    | None => if String.eqb k k' then Some v else None
    end.
Proof.
  induction d as [| [k0 v0] d IH]; simpl; [reflexivity |].
  destruct (String.eqb k0 k'); [reflexivity | exact IH].
Qed.

(** What [setdefault(k, len(d))] does to a numbered mapping. *)
Lemma setdefault_numbered d k :
  numbered d -> NoDup (keys d) ->
  let d' := fst (setdefault d k (length d)) in
  let c := snd (setdefault d k (length d)) in
  numbered d' /\ NoDup (keys d') /\ extends d d'
  /\ dict_get d' k = Some c
  /\ (forall k', In k' (keys d') <-> In k' (keys d) \/ k' = k)
  /\ ((d' = d /\ (c < length d)%nat)
      \/ (d' = d ++ [(k, length d)] /\ c = length d)).
Proof.
  intros Hnum Hnd; unfold setdefault.
  destruct (dict_get d k) as [x |] eqn:Hget; simpl.
  - repeat split; auto.
    + intros k' c' H; exact H.
    + intros [H | ->]; [exact H | eapply dict_get_Some_In; exact Hget].
    + left; split; [reflexivity | eapply numbered_get; eauto].
  - assert (Hnotin : ~ In k (keys d)).
    { intros Hin; apply dict_mem_In in Hin.
      unfold dict_mem in Hin; rewrite Hget in Hin; discriminate. }
    repeat split.
    + now apply numbered_snoc.
    + unfold keys; rewrite map_app; simpl; now apply NoDup_snoc.
    + intros k' c' H; rewrite dict_get_snoc, H; reflexivity.
    + rewrite dict_get_snoc, Hget, String.eqb_refl; reflexivity.
    + unfold keys; rewrite map_app, in_app_iff; simpl; intuition.
    + unfold keys; rewrite map_app, in_app_iff; simpl; intuition.
    + right; auto.
Qed.

Lemma add_count_rows cs : forall ind ids d row0,
  fold_left add_count cs (ind ++ map fst row0, ids, d ++ map snd row0)
  = (ind ++ map fst (fst (fold_left line_row_step cs (row0, ids))),
     snd (fold_left line_row_step cs (row0, ids)),
     d ++ map snd (fst (fold_left line_row_step cs (row0, ids)))).
Proof.
  induction cs as [| kv cs IH]; simpl; intros ind ids d row0; [reflexivity |].
  destruct (String.eqb (fst kv) ""); [apply IH |].
  destruct (setdefault ids (fst kv) (length ids)) as [ids' col].
  rewrite <- (IH ind ids' d (row0 ++ [(col, Z.of_nat (snd kv))])).
  rewrite !map_app, !app_assoc; reflexivity.
Qed.

Lemma parse_line_row st line st' :
  parse_line st line = Ok st' ->
  line <> []
  /\ st' = {| st_indptr :=
                st_indptr st
                ++ [length (st_indices st
                            ++ map fst (fst (line_row (st_kegg_ids st)
                                                      (Counter (tl line)))))];
              st_indices :=
                st_indices st
                ++ map fst (fst (line_row (st_kegg_ids st)
                                          (Counter (tl line))));
              st_kegg_ids :=
                snd (line_row (st_kegg_ids st) (Counter (tl line)));
              st_row_names :=
                fst (setdefault (st_row_names st) (hd "" line)
                                (length (st_row_names st)));
              st_data :=
                st_data st
                ++ map snd (fst (line_row (st_kegg_ids st)
                                          (Counter (tl line)))) |}.
Proof.
  destruct line as [| label fields]; simpl; [discriminate |].
  pose proof (add_count_rows (Counter fields) (st_indices st)
                             (st_kegg_ids st) (st_data st) []) as Hrows.
  simpl in Hrows; rewrite !app_nil_r in Hrows.
  unfold line_row; rewrite Hrows.
  intros H; injection H as <-; split; [discriminate | reflexivity].
Qed.

Lemma parse_loop lines : forall st st',
  for_each parse_line lines st = Ok st' ->
  let rows := fst (file_rows (st_kegg_ids st) lines) in
  st_indices st' = st_indices st ++ List.concat (map (map fst) rows)
  /\ st_data st' = st_data st ++ List.concat (map (map snd) rows)
  /\ st_indptr st' = st_indptr st ++ offsets (length (st_indices st)) rows
  /\ st_kegg_ids st' = snd (file_rows (st_kegg_ids st) lines)
  /\ ~ In [] lines.
Proof.
  induction lines as [| line lines IH]; simpl; intros st st' H.
  - injection H as <-; rewrite !app_nil_r.
    repeat split; auto.
  - apply bind_Ok in H as (st1 & H1 & H2).
    apply parse_line_row in H1 as [Hne ->].
    apply IH in H2; simpl in H2.
    destruct (line_row (st_kegg_ids st) (Counter (tl line))) as [row ids1].
    simpl in *.
    destruct (file_rows ids1 lines) as [rows ids2]; simpl in *.
    destruct H2 as (Hi & Hd & Hp & Hk & Hnil).
    rewrite Hi, Hd, Hp, Hk, <- !app_assoc; simpl.
    rewrite !length_app, length_map.
    split; [reflexivity |].
    split; [reflexivity |].
    split; [reflexivity |].
    split; [reflexivity |].
    intros [Heq | Hin]; [congruence | contradiction].
Qed.

Lemma keys_get {V} (d : pydict V) k :
  In k (keys d) -> exists v, dict_get d k = Some v.
Proof.
  intros Hin; apply dict_mem_In in Hin; unfold dict_mem in Hin.
  destruct (dict_get d k) as [v |]; [exists v; reflexivity | discriminate].
Qed.

Lemma extends_keys d d' k : extends d d' -> In k (keys d) -> In k (keys d').
Proof.
  intros Hext Hin; apply keys_get in Hin as (c & Hc).
  eapply dict_get_Some_In; apply Hext; exact Hc.
Qed.

Lemma extends_tally d d' k :
  extends d d' -> In k (keys d) -> tally d' k = tally d k.
Proof.
  intros Hext Hin; apply keys_get in Hin as (c & Hc).
  unfold tally; now rewrite Hc, (Hext _ _ Hc).
Qed.

Lemma line_row_fold cs : forall row0 ids,
  ids_ok ids ->
  let r := fold_left line_row_step cs (row0, ids) in
  ids_ok (snd r) /\ extends ids (snd r)
  /\ (length ids <= length (snd r))%nat
  /\ fst r = row0 ++ map (column_of (snd r)) (filter nonblank cs)
  /\ (forall kv, In kv cs -> nonblank kv = true -> In (fst kv) (keys (snd r)))
  /\ (forall n, (length ids <= n < length (snd r))%nat ->
                In n (map fst (map (column_of (snd r)) (filter nonblank cs)))).
Proof.
  induction cs as [| kv cs IH]; intros row0 ids Hok; cbv zeta.
  - simpl; rewrite app_nil_r.
    split; [exact Hok |].
    split; [intros k c H; exact H |].
    split; [lia |].
    split; [reflexivity |].
    split; [intros kv [] | intros n Hn; lia].
  - assert (Hstep :
              line_row_step (row0, ids) kv
              = if String.eqb (fst kv) "" then (row0, ids)
                else (row0 ++ [(snd (setdefault ids (fst kv) (length ids)),
                                Z.of_nat (snd kv))],
                      fst (setdefault ids (fst kv) (length ids)))).
    { unfold line_row_step.
      destruct (String.eqb (fst kv) ""); [reflexivity |].
      destruct (setdefault ids (fst kv) (length ids)); reflexivity. }
    assert (Hnb : nonblank kv = negb (String.eqb (fst kv) ""))
      by reflexivity.
    cbn [fold_left filter]; rewrite Hstep, Hnb; clear Hstep.
    destruct (String.eqb_spec (fst kv) "") as [Hblank | Hblank]; cbn [negb].
    + specialize (IH row0 ids Hok); cbv zeta in IH.
      destruct IH as (H1 & H2 & H3 & H4 & H5 & H6).
      split; [exact H1 |].
      split; [exact H2 |].
      split; [exact H3 |].
      split; [exact H4 |].
      split; [| exact H6].
      intros kv' [<- | Hin] Hnb'; [| now apply H5].
      rewrite Hnb in Hnb'; discriminate.
    + destruct Hok as (Hnum & Hnd & Hne).
      pose proof (setdefault_numbered ids (fst kv) Hnum Hnd)
        as (Hnum1 & Hnd1 & Hext1 & Hget1 & Hkeys1 & Hcase).
      destruct (setdefault ids (fst kv) (length ids)) as [ids1 col].
      cbn [fst snd] in *.
      assert (Hok1 : ids_ok ids1).
      { split; [exact Hnum1 |]; split; [exact Hnd1 |].
        intros Hin; apply Hkeys1 in Hin as [Hin | Heq]; congruence. }
      specialize (IH (row0 ++ [(col, Z.of_nat (snd kv))]) ids1 Hok1).
      cbv zeta in IH.
      destruct IH as (H1 & H2 & H3 & H4 & H5 & H6).
      set (r := fold_left line_row_step cs
                          (row0 ++ [(col, Z.of_nat (snd kv))], ids1)) in *.
      assert (Hcol : column_of (snd r) kv = (col, Z.of_nat (snd kv))).
      { unfold column_of, tally; now rewrite (H2 _ _ Hget1). }
      assert (Hlen : (length ids <= length ids1)%nat).
      { destruct Hcase as [[-> _] | [-> _]]; [lia |].
        rewrite length_app; simpl; lia. }
      split; [exact H1 |].
      split; [intros k c Hk; apply H2, Hext1, Hk |].
      split; [lia |].
      split; [rewrite H4, <- app_assoc; cbn [app map]; now rewrite Hcol |].
      split.
      * intros kv' [<- | Hin] Hnb'; [| now apply H5].
        eapply dict_get_Some_In, H2, Hget1.
      * intros n Hn; cbn [map]; rewrite Hcol; cbn [fst].
        destruct (Nat.lt_ge_cases n (length ids1)) as [Hlt | Hge].
        -- left.
           destruct Hcase as [[-> _] | [-> ->]]; [lia |].
           rewrite length_app in Hlt; simpl in Hlt; lia.
        -- right; apply H6; lia.
Qed.

Lemma file_rows_spec lines : forall ids,
  ids_ok ids ->
  let r := file_rows ids lines in
  ids_ok (snd r) /\ extends ids (snd r)
  /\ (length ids <= length (snd r))%nat
  /\ length (fst r) = length lines
  /\ (forall i line, nth_error lines i = Some line ->
        nth i (fst r) []
        = map (column_of (snd r)) (filter nonblank (Counter (tl line))))
  /\ (forall line k, In line lines -> In k (tl line) -> k <> "" ->
                     In k (keys (snd r)))
  /\ (forall n, (length ids <= n < length (snd r))%nat ->
                In n (List.concat (map (map fst) (fst r)))).
Proof.
  induction lines as [| line lines IH]; intros ids Hok; cbv zeta.
  - simpl.
    split; [exact Hok |].
    split; [intros k c H; exact H |].
    split; [lia |].
    split; [reflexivity |].
    split; [intros [| i] line H; discriminate |].
    split; [intros line k [] | intros n Hn; lia].
  - cbn [file_rows].
    pose proof (line_row_fold (Counter (tl line)) [] ids Hok) as Hline.
    cbv zeta in Hline.
    destruct Hline as (Hok1 & Hext1 & Hlen1 & Hrow1 & Hkeys1 & Hnew1).
    fold (line_row ids (Counter (tl line))) in *.
    destruct (line_row ids (Counter (tl line))) as [row ids1].
    cbn [fst snd app] in *.
    specialize (IH ids1 Hok1); cbv zeta in IH.
    destruct IH as (Hok2 & Hext2 & Hlen2 & Hrows & Hnth & Hkeys2 & Hnew2).
    destruct (file_rows ids1 lines) as [rows ids2].
    cbn [fst snd] in *.
    assert (Hrow2 : row = map (column_of ids2)
                              (filter nonblank (Counter (tl line)))).
    { rewrite Hrow1; apply map_ext_in; intros kv Hkv.
      apply filter_In in Hkv as [Hin Hnb].
      unfold column_of; f_equal.
      symmetry; apply extends_tally; [exact Hext2 | now apply Hkeys1]. }
    split; [exact Hok2 |].
    split; [intros k c Hk; apply Hext2, Hext1, Hk |].
    split; [lia |].
    split; [simpl; now rewrite Hrows |].
    split; [| split].
    + intros [| i] line' H; simpl in H |- *.
      * injection H as <-; exact Hrow2.
      * now apply Hnth.
    + intros line' k [<- | Hin] Hk Hne; [| now apply (Hkeys2 line')].
      apply (extends_keys ids1 ids2 k Hext2).
      apply (Hkeys1 (k, count_occ string_dec (tl line) k)).
      * apply Counter_In; auto.
      * unfold nonblank; simpl.
        destruct (String.eqb_spec k ""); [contradiction | reflexivity].
    + intros n Hn; simpl; apply in_or_app.
      destruct (Nat.lt_ge_cases n (length ids1)) as [Hlt | Hge].
      * left; rewrite Hrow1; apply Hnew1; lia.
      * right; apply Hnew2; lia.
Qed.

Lemma ids_ok_nil : ids_ok [].
Proof.
  split; [reflexivity |]; split; [constructor | intros []].
Qed.

(** The matrix and the column mapping in terms of the rows of the file. *)
Lemma parse_kegg_table_Ok infile row_names kegg_ids m :
  parse_kegg_table infile = Ok (row_names, kegg_ids, m) ->
  kegg_ids = snd (file_rows [] infile)
  /\ indices m = List.concat (map (map fst) (fst (file_rows [] infile)))
  /\ data m
     = map int8 (List.concat (map (map snd) (fst (file_rows [] infile))))
  /\ indptr m = 0%nat :: offsets 0 (fst (file_rows [] infile))
  /\ shape m = (length infile, S (list_max (indices m)))
  /\ indices m <> []
  /\ ~ In [] infile.
Proof.
  unfold parse_kegg_table; intros H.
  apply bind_Ok in H as (st & Hloop & H).
  apply bind_Ok in H as (mm & Hm & H).
  injection H as _ <- <-.
  apply parse_loop in Hloop; simpl in Hloop.
  destruct Hloop as (Hi & Hd & Hp & Hk & Hnil).
  pose proof (file_rows_spec infile [] ids_ok_nil) as Hspec; cbv zeta in Hspec.
  destruct Hspec as (_ & _ & _ & Hlen & _).
  unfold csr_matrix in Hm.
  destruct (st_indices st) as [| i0 ind] eqn:Hind; [discriminate |].
  injection Hm as <-; simpl.
  split; [exact Hk |].
  split; [exact Hi |].
  split; [now rewrite Hd |].
  split; [exact Hp |].
  split; [| split; [discriminate | exact Hnil]].
  rewrite Hp; simpl; rewrite length_offsets, Hlen, Nat.sub_0_r; reflexivity.
Qed.

Lemma file_rows_columns lines ids c :
  ids_ok ids ->
  In c (List.concat (map (map fst) (fst (file_rows ids lines)))) ->
  (c < length (snd (file_rows ids lines)))%nat.
Proof.
  intros Hok Hin.
  pose proof (file_rows_spec lines ids Hok) as Hspec; cbv zeta in Hspec.
  destruct Hspec as ((Hnum & _ & _) & _ & _ & Hlen & Hnth & Hkeys & _).
  apply in_concat in Hin as (cols & Hcols & Hc).
  apply in_map_iff in Hcols as (row & <- & Hrow).
  apply (In_nth _ _ []) in Hrow as (i & Hi & Hrow).
  rewrite Hlen in Hi.
  destruct (nth_error lines i) as [line |] eqn:Hline;
    [| apply nth_error_None in Hline; lia].
  rewrite (Hnth i line Hline) in Hrow; subst row.
  rewrite map_map in Hc; apply in_map_iff in Hc as ([k n] & <- & Hkn).
  apply filter_In in Hkn as [Hkn Hnb]; simpl.
  apply Counter_In in Hkn as [Hk _].
  assert (Hkey : In k (keys (snd (file_rows ids lines)))).
  { apply (Hkeys line k); [eapply nth_error_In; eauto | exact Hk |].
    intros ->; discriminate. }
  apply keys_get in Hkey as (col & Hcol).
  unfold tally; rewrite Hcol; eapply numbered_get; eauto.
Qed.

Lemma parsed_columns infile row_names kegg_ids m :
  parse_kegg_table infile = Ok (row_names, kegg_ids, m) ->
  ids_ok kegg_ids
  /\ snd (shape m) = length kegg_ids
  /\ Forall (fun c => (c < length kegg_ids)%nat) (indices m).
Proof.
  intros H.
  apply parse_kegg_table_Ok in H
    as (-> & Hi & _ & _ & Hshape & Hne & _).
  pose proof (file_rows_spec infile [] ids_ok_nil) as Hspec; cbv zeta in Hspec.
  destruct Hspec as (Hok & _ & _ & _ & _ & _ & Hnew).
  assert (Hcols : Forall (fun c => (c < length (snd (file_rows [] infile)))%nat)
                         (indices m)).
  { apply Forall_forall; intros c Hc; rewrite Hi in Hc.
    now apply file_rows_columns in Hc; [| apply ids_ok_nil]. }
  split; [exact Hok |].
  split; [| exact Hcols].
  rewrite Hshape; simpl.
  pose proof (proj2 (list_max_lt (length (snd (file_rows [] infile))) Hne)
                    Hcols) as Hlt.
  assert (Hlast : In (length (snd (file_rows [] infile)) - 1)%nat (indices m)).
  { rewrite Hi; apply Hnew; simpl; lia. }
  apply list_max_In in Hlast; lia.
Qed.

(** X2.  The column mapping returned by [parse_kegg_table] numbers distinct
    non-empty tokens 0, 1, 2, ... in order of first appearance, holds every
    non-empty annotation token of the file, and has as many entries as the
    matrix has columns; every stored column index is below that number. *)
Theorem parse_kegg_table_columns infile row_names kegg_ids m :
  parse_kegg_table infile = Ok (row_names, kegg_ids, m) ->
  map snd kegg_ids = seq 0 (length kegg_ids)
  /\ NoDup (keys kegg_ids)
  /\ ~ In "" (keys kegg_ids)
  /\ (forall line k, In line infile -> In k (tl line) -> k <> "" ->
                     In k (keys kegg_ids))
  /\ snd (shape m) = length kegg_ids
  /\ Forall (fun c => (c < length kegg_ids)%nat) (indices m).
Proof.
  intros H.
  destruct (parsed_columns _ _ _ _ H) as ((Hnum & Hnd & Hblank) & Hw & Hcols).
  apply parse_kegg_table_Ok in H as (-> & _).
  pose proof (file_rows_spec infile [] ids_ok_nil) as Hspec; cbv zeta in Hspec.
  destruct Hspec as (_ & _ & _ & _ & _ & Hkeys & _).
  repeat (split; [assumption |]); assumption.
Qed.

Lemma parse_kegg_table_columns_witness :
  snd (shape five_strains_csr) = length [("K1", 0%nat); ("K2", 1%nat)].
Proof.
  apply (parse_kegg_table_columns five_strains five_strains_names
           [("K1", 0%nat); ("K2", 1%nat)] five_strains_csr parse_five_strains).
Defined.

(** ** [parse_kegg_table]: the row mapping *)

Lemma parse_loop_row_names lines : forall st st',
  for_each parse_line lines st = Ok st' ->
  st_row_names st'
  = register_labels (st_row_names st) (map (hd "") lines).
Proof.
  induction lines as [| line lines IH]; simpl; intros st st' H.
  - injection H as <-; reflexivity.
  - apply bind_Ok in H as (st1 & H1 & H2).
    apply parse_line_row in H1 as [_ ->].
    apply IH in H2; exact H2.
Qed.

Lemma filter_filter {X} (p q : X -> bool) l :
  filter p (filter q l) = filter (fun x => p x && q x) l.
Proof.
  induction l as [| x l IH]; simpl; [reflexivity |].
  destruct (q x); simpl; rewrite ?andb_true_r, ?andb_false_r;
    [destruct (p x) |]; now rewrite IH.
Qed.

Lemma register_labels_spec labels : forall d,
  numbered d -> NoDup (keys d) ->
  numbered (register_labels d labels)
  /\ NoDup (keys (register_labels d labels))
  /\ keys (register_labels d labels)
     = keys d ++ filter (fun l => negb (dict_mem d l)) (unique labels).
Proof.
  induction labels as [| l labels IH]; intros d Hnum Hnd.
  - simpl; rewrite app_nil_r; auto.
  - pose proof (setdefault_numbered d l Hnum Hnd)
      as (Hnum1 & Hnd1 & _ & _ & _ & Hcase).
    unfold register_labels; cbn [fold_left unique filter].
    fold (register_labels (fst (setdefault d l (length d))) labels).
    destruct (IH _ Hnum1 Hnd1) as (H1 & H2 & H3).
    split; [exact H1 |]; split; [exact H2 |].
    rewrite H3, filter_filter.
    destruct Hcase as [[Heq Hc] | [Heq Hc]]; rewrite Heq.
    + assert (Hmem : dict_mem d l = true).
      { unfold setdefault in Heq, Hc; unfold dict_mem.
        destruct (dict_get d l); [reflexivity | simpl in Hc; lia]. }
      rewrite Hmem; cbn [negb]; f_equal.
      apply filter_ext; intros k.
      destruct (String.eqb_spec l k) as [<- | _]; cbn [negb];
        [now rewrite Hmem | now rewrite andb_true_r].
    + assert (Hmem : dict_mem d l = false).
      { unfold dict_mem; destruct (dict_get d l) eqn:Hg; [| reflexivity].
        unfold setdefault in Heq; rewrite Hg in Heq; simpl in Heq.
        apply (f_equal (@length _)) in Heq.
        rewrite length_app in Heq; simpl in Heq; lia. }
      rewrite Hmem; cbn [negb].
      unfold keys at 1; rewrite map_app, <- app_assoc; simpl.
      f_equal; f_equal.
      apply filter_ext; intros k.
      unfold dict_mem; rewrite dict_get_snoc.
      destruct (dict_get d k); [reflexivity |].
      destruct (String.eqb l k); reflexivity.
Qed.

Lemma unique_NoDup l : NoDup l -> unique l = l.
Proof.
  induction 1 as [| x l Hx Hl IH]; simpl; [reflexivity |].
  rewrite IH; f_equal.
  apply forallb_filter_id, forallb_forall; intros y Hy.
  apply negb_true_iff, String.eqb_neq; intros ->; contradiction.
Qed.

Lemma combine_fst_snd {X Y} (d : list (X * Y)) :
  combine (map fst d) (map snd d) = d.
Proof.
  induction d as [| [x y] d IH]; simpl; [reflexivity | now rewrite IH].
Qed.

(** X3.  The row mapping returned by [parse_kegg_table] numbers the distinct
    taxon labels 0, 1, 2, ... in order of first appearance, and the matrix
    has one row per line.  When no label is repeated, the label of line [i]
    is mapped to row [i]. *)
Theorem parse_kegg_table_row_names infile row_names kegg_ids m :
  parse_kegg_table infile = Ok (row_names, kegg_ids, m) ->
  let labels := map (hd "") infile in
  keys row_names = unique labels
  /\ map snd row_names = seq 0 (length row_names)
  /\ fst (shape m) = length infile
  /\ (NoDup labels ->
      forall i, (i < length infile)%nat ->
                dict_get row_names (nth i labels "") = Some i).
Proof.
  intros H labels.
  pose proof H as Hrows; apply parse_kegg_table_rows in Hrows.
  unfold parse_kegg_table in H.
  apply bind_Ok in H as (st & Hloop & H).
  apply bind_Ok in H as (mm & _ & H).
  injection H as <- _ _.
  apply parse_loop_row_names in Hloop; simpl in Hloop.
  fold labels in Hloop.
  destruct (register_labels_spec labels [] eq_refl (NoDup_nil _))
    as (Hnum & Hnd & Hkeys0).
  assert (Hkeys : keys (register_labels [] labels) = unique labels).
  { rewrite Hkeys0; cbn [keys map app].
    apply forallb_filter_id, forallb_forall; reflexivity. }
  clear Hkeys0; rewrite Hloop.
  split; [exact Hkeys |].
  split; [exact Hnum |].
  split; [exact Hrows |].
  intros Hlabels i Hi.
  rewrite (unique_NoDup _ Hlabels) in Hkeys.
  assert (Hlen : length (register_labels [] labels) = length labels).
  { transitivity (length (keys (register_labels [] labels)));
      [unfold keys; now rewrite length_map | now rewrite Hkeys]. }
  assert (Hrn : register_labels [] labels
                = combine labels (seq 0 (length labels))).
  { rewrite <- (combine_fst_snd (register_labels [] labels)).
    unfold numbered in Hnum; unfold keys in Hkeys.
    now rewrite Hkeys, Hnum, Hlen. }
  assert (Hil : (i < length labels)%nat)
    by (unfold labels; now rewrite length_map).
  rewrite Hrn.
  destruct (dict_get_combine_seq_In labels 0 (nth i labels "")
              (nth_In _ _ Hil)) as (r & Hr & Hnth & Hget).
  rewrite Hget; f_equal; simpl.
  apply (proj1 (NoDup_nth labels "") Hlabels); assumption.
Qed.

Lemma parse_kegg_table_row_names_witness :
  dict_get five_strains_names "G;s4" = Some 3%nat.
Proof.
  apply (proj2 (proj2 (proj2
           (parse_kegg_table_row_names five_strains five_strains_names
              [("K1", 0%nat); ("K2", 1%nat)] five_strains_csr
              parse_five_strains)))
           ltac:(apply nodupb_NoDup; reflexivity) 3%nat ltac:(simpl; lia)).
Defined.

(** ** [parse_kegg_table]: the cells *)

Lemma row_entries_parsed infile row_names kegg_ids m i :
  parse_kegg_table infile = Ok (row_names, kegg_ids, m) ->
  (i < length infile)%nat ->
  row_entries m i
  = map (fun p => (fst p, int8 (snd p))) (nth i (fst (file_rows [] infile)) []).
Proof.
  intros H Hi.
  apply parse_kegg_table_Ok in H as (_ & Hind & Hdat & Hptr & _).
  pose proof (file_rows_spec infile [] ids_ok_nil) as Hspec; cbv zeta in Hspec.
  destruct Hspec as (_ & _ & _ & Hlen & _).
  unfold row_entries; rewrite Hind, Hdat, Hptr.
  rewrite combine_concat_rows.
  rewrite <- (offsets_map (fun p : nat * Z => (fst p, int8 (snd p)))).
  pose proof (@slice_concat _
                (map (map (fun p : nat * Z => (fst p, int8 (snd p))))
                     (fst (file_rows [] infile))) 0 i) as Hs.
  rewrite Nat.sub_0_r in Hs.
  rewrite Hs by (now rewrite length_map, Hlen).
  change (@nil (nat * Z))
    with (map (fun p : nat * Z => (fst p, int8 (snd p))) []) at 1.
  now rewrite map_nth.
Qed.

(** C4, as the code has it.  Every stored (row, column) triple holds the
    8-bit reduction of a tally: the column is the one registered for a
    non-empty token of the row and the value is the number of times that
    token occurs among the fields of the row, which is at least one, reduced
    to [int8]; every stored value is such a tally.  The stored counts are
    strictly positive whenever no non-empty token occurs more than 127
    times among the fields of one row. *)
Theorem parse_kegg_table_positive_counts infile row_names kegg_ids m :
  parse_kegg_table infile = Ok (row_names, kegg_ids, m) ->
  (forall i line c v,
     nth_error infile i = Some line -> In (c, v) (row_entries m i) ->
     exists k, k <> ""
               /\ dict_get kegg_ids k = Some c
               /\ (1 <= count_occ string_dec (tl line) k)%nat
               /\ v = int8 (Z.of_nat (count_occ string_dec (tl line) k)))
  /\ (forall v, In v (data m) ->
        exists line k,
          In line infile /\ k <> "" /\ In k (tl line)
          /\ v = int8 (Z.of_nat (count_occ string_dec (tl line) k)))
  /\ ((forall line k, In line infile -> k <> "" ->
                      (count_occ string_dec (tl line) k <= 127)%nat) ->
      Forall (fun v => 0 < v) (data m)).
Proof.
  intros H.
  pose proof H as H'.
  apply parse_kegg_table_Ok in H' as (Hids & _ & Hdata & _).
  pose proof (file_rows_spec infile [] ids_ok_nil) as Hspec; cbv zeta in Hspec.
  destruct Hspec as (_ & _ & _ & Hlen & Hnth & Hkeys & _).
  rewrite <- Hids in Hnth, Hkeys.
  assert (Hentry : forall line kv,
            In kv (filter nonblank (Counter (tl line))) ->
            fst kv <> "" /\ In (fst kv) (tl line)
            /\ snd kv = count_occ string_dec (tl line) (fst kv)).
  { intros line [k n] Hkv; apply filter_In in Hkv as [Hkv Hnb].
    apply Counter_In in Hkv as [Hk ->]; cbn [fst snd].
    repeat split; [| exact Hk].
    intros ->; discriminate. }
  assert (Hvalues : forall v, In v (data m) ->
            exists line k,
              In line infile /\ k <> "" /\ In k (tl line)
              /\ v = int8 (Z.of_nat (count_occ string_dec (tl line) k))).
  { intros v Hv; rewrite Hdata in Hv.
    apply in_map_iff in Hv as (z & <- & Hz).
    apply in_concat in Hz as (zs & Hzs & Hz).
    apply in_map_iff in Hzs as (row & <- & Hrow).
    apply (In_nth _ _ []) in Hrow as (i & Hi & <-).
    rewrite Hlen in Hi.
    destruct (nth_error infile i) as [line |] eqn:Hline;
      [| apply nth_error_None in Hline; lia].
    rewrite (Hnth i line Hline), map_map in Hz.
    apply in_map_iff in Hz as (kv & <- & Hkv).
    destruct (Hentry line kv Hkv) as (Hne & Hin & Hn).
    exists line, (fst kv); cbn [column_of snd]; rewrite Hn.
    repeat split; [eapply nth_error_In; eauto | exact Hne | exact Hin]. }
  split; [| split; [exact Hvalues |]].
  - intros i line c v Hline Hcv.
    assert (Hi : (i < length infile)%nat)
      by (apply nth_error_Some; congruence).
    rewrite (row_entries_parsed _ _ _ _ i H Hi), (Hnth i line Hline), map_map
      in Hcv.
    apply in_map_iff in Hcv as (kv & Heq & Hkv).
    destruct (Hentry line kv Hkv) as (Hne & Hin & Hn).
    cbn [column_of fst snd] in Heq; injection Heq as <- <-.
    exists (fst kv); rewrite Hn.
    split; [exact Hne |].
    split; [| split; [| reflexivity]].
    + assert (Hkey : In (fst kv) (keys kegg_ids))
        by (apply (Hkeys line (fst kv));
            [eapply nth_error_In; eauto | exact Hin | exact Hne]).
      apply keys_get in Hkey as (c & Hc).
      unfold tally; now rewrite Hc.
    + now apply (count_occ_In string_dec).
  - intros Hbound; apply Forall_forall; intros v Hv.
    destruct (Hvalues v Hv) as (line & k & Hline & Hne & Hin & ->).
    pose proof (Hbound line k Hline Hne) as Hmax.
    apply (count_occ_In string_dec) in Hin.
    rewrite int8_small; lia.
Qed.

Lemma parse_kegg_table_positive_counts_witness :
  Forall (fun v => 0 < v) [2; 1; 1]
  /\ Forall (fun v => 0 < v) (data padded_csr).
Proof.
  split.
  - apply (proj2 (proj2 (parse_kegg_table_positive_counts two_strains
                           _ _ _ eq_refl))).
    intros line k Hline _.
    etransitivity; [apply count_occ_bound |].
    destruct Hline as [<- | [<- | []]]; simpl; lia.
  - apply (proj2 (proj2 (parse_kegg_table_positive_counts padded_strain
                           [("G;s1", 0%nat)] [("K1", 0%nat)] padded_csr
                           eq_refl))).
    intros line k [<- | []] Hne; cbn [tl padded_strain].
    destruct (string_dec "K1" k) as [Heq | Hneq];
      [rewrite count_occ_cons_eq by exact Heq
      | rewrite count_occ_cons_neq by exact Hneq];
      rewrite count_occ_repeat_neq by congruence; lia.
Defined.

Lemma numbered_inj d k1 k2 c :
  numbered d -> dict_get d k1 = Some c -> dict_get d k2 = Some c -> k1 = k2.
Proof.
  unfold numbered; intros Hnum H1 H2.
  apply dict_get_In in H1, H2.
  apply (In_nth _ _ ("", 0%nat)) in H1 as (i1 & Hi1 & Hn1).
  apply (In_nth _ _ ("", 0%nat)) in H2 as (i2 & Hi2 & Hn2).
  assert (Hv : forall i, (i < length d)%nat -> snd (nth i d ("", 0%nat)) = i).
  { intros i Hi.
    change (snd (nth i d ("", 0%nat))) with
      ((fun p : string * nat => snd p) (nth i d ("", 0%nat))).
    rewrite <- (map_nth (fun p : string * nat => snd p)).
    change (map (fun p : string * nat => snd p) d) with (map snd d).
    rewrite Hnum; simpl; now rewrite seq_nth. }
  pose proof (Hv i1 Hi1) as E1; pose proof (Hv i2 Hi2) as E2.
  rewrite Hn1 in E1; rewrite Hn2 in E2; simpl in E1, E2.
  assert (i1 = i2) by congruence; subst i2.
  congruence.
Qed.

Lemma dict_get_filter {V} (p : string * V -> bool) (d : pydict V) k :
  (forall v, p (k, v) = true) ->
  dict_get (filter p d) k = dict_get d k.
Proof.
  intros Hp; induction d as [| [k' v'] d IH]; simpl; [reflexivity |].
  destruct (p (k', v')) eqn:Hpk; simpl.
  - destruct (String.eqb k' k); [reflexivity | exact IH].
  - destruct (String.eqb_spec k' k) as [-> | _]; [| exact IH].
    rewrite Hp in Hpk; discriminate.
Qed.

(** Adding up the stored pairs of one row at the column of token [k] picks
    the tally of [k]. *)
Lemma dense_fold_keyed (ids : pydict nat) k c (L : pydict nat) : forall acc,
  NoDup (keys L) ->
  (forall kv, In kv L ->
              Nat.eqb (tally ids (fst kv)) c = String.eqb (fst kv) k) ->
  fold_left (fun a e => if Nat.eqb (fst e) c then int8 (a + snd e) else a)
            (map (fun p => (fst p, int8 (snd p))) (map (column_of ids) L)) acc
  = match dict_get L k with
    | Some n => int8 (acc + int8 (Z.of_nat n))
    | None => acc
    end.
Proof.
  induction L as [| [k' n'] L IH]; intros acc Hnd Hcol; [reflexivity |].
  inversion Hnd as [| ? ? Hnotin Hnd']; subst.
  pose proof (Hcol (k', n') (or_introl eq_refl)) as Hhead.
  cbn [fst] in Hhead.
  cbn [map fold_left column_of fst snd dict_get].
  rewrite Hhead.
  rewrite IH; [| exact Hnd' | intros kv Hkv; apply Hcol; now right].
  destruct (String.eqb_spec k' k) as [-> | _]; [| reflexivity].
  now rewrite (dict_get_notin L k Hnotin).
Qed.

Lemma NoDup_keys_filter {V} (p : string * V -> bool) (d : pydict V) :
  NoDup (keys d) -> NoDup (keys (filter p d)).
Proof.
  unfold keys; induction d as [| [k v] d IH]; simpl; intros Hnd;
    [constructor |].
  inversion Hnd as [| ? ? Hnotin Hnd']; subst.
  destruct (p (k, v)); simpl; [| now apply IH].
  constructor; [| now apply IH].
  intros Hin; apply Hnotin.
  apply in_map_iff in Hin as (kv & Hk & Hkv).
  apply filter_In in Hkv as [Hkv _].
  apply in_map_iff; exists kv; auto.
Qed.

(** X4.  Every cell of the parsed matrix is the 8-bit reduction of a tally:
    in the row of line [i], the entry at the column registered for token
    [k] is the number of times [k] occurs among the fields of that line
    (zero when it does not occur), reduced to [int8]. *)
Theorem parse_kegg_table_cell infile row_names kegg_ids m i line k c :
  parse_kegg_table infile = Ok (row_names, kegg_ids, m) ->
  nth_error infile i = Some line ->
  dict_get kegg_ids k = Some c ->
  nth c (reference_row m i) 0
  = int8 (Z.of_nat (count_occ string_dec (tl line) k)).
Proof.
  intros H Hline Hk.
  assert (Hi : (i < length infile)%nat)
    by (apply nth_error_Some; congruence).
  pose proof (row_entries_parsed _ _ _ _ i H Hi) as Hentries.
  pose proof (parsed_columns _ _ _ _ H)
    as ((Hnum & Hnd & Hblank) & Hwidth & _).
  pose proof H as H'.
  apply parse_kegg_table_Ok in H' as (Hids & _).
  pose proof (file_rows_spec infile [] ids_ok_nil) as Hspec; cbv zeta in Hspec.
  destruct Hspec as (_ & _ & _ & _ & Hnth & Hkeys & _).
  rewrite <- Hids in Hnth, Hkeys.
  assert (Hc : (c < snd (shape m))%nat)
    by (rewrite Hwidth; eapply numbered_get; eauto).
  unfold reference_row; rewrite nth_dense_of by exact Hc.
  rewrite Hentries, (Hnth i line Hline).
  assert (Hkne : k <> "").
  { intros ->; apply Hblank; eapply dict_get_Some_In; eauto. }
  rewrite (dense_fold_keyed kegg_ids k c).
  - rewrite dict_get_filter, Counter_get.
    + destruct (Nat.eqb_spec (count_occ string_dec (tl line) k) 0) as [-> | _];
        [reflexivity |].
      simpl; apply int8_small, int8_range.
    + intros v; unfold nonblank; simpl.
      destruct (String.eqb_spec k ""); [contradiction | reflexivity].
  - apply NoDup_keys_filter, Counter_keys_NoDup.
  - intros [k' n'] Hin; simpl.
    apply filter_In in Hin as [Hin Hnb].
    apply Counter_In in Hin as [Hin _].
    assert (Hkey : In k' (keys kegg_ids)).
    { apply (Hkeys line k'); [eapply nth_error_In; eauto | exact Hin |].
      intros ->; discriminate. }
    apply keys_get in Hkey as (c' & Hc').
    unfold tally; rewrite Hc'.
    destruct (String.eqb_spec k' k) as [-> | Hne].
    + apply Nat.eqb_eq; congruence.
    + apply Nat.eqb_neq; intros ->.
      apply Hne; eapply numbered_inj; eauto.
Qed.

Lemma parse_kegg_table_cell_witness :
  nth 1 (reference_row five_strains_csr 4) 0 = 0
  /\ nth 0 (reference_row five_strains_csr 4) 0 = 1.
Proof.
  split.
  - exact (parse_kegg_table_cell five_strains five_strains_names
             [("K1", 0%nat); ("K2", 1%nat)] five_strains_csr 4
             ["G;s5"; "K1"] "K2" 1 parse_five_strains eq_refl eq_refl).
  - exact (parse_kegg_table_cell five_strains five_strains_names
             [("K1", 0%nat); ("K2", 1%nat)] five_strains_csr 4
             ["G;s5"; "K1"] "K1" 0 parse_five_strains eq_refl eq_refl).
Defined.

(** ** [parse_kegg_table]: when it raises *)

Lemma parse_loop_empty_row lines : forall st,
  In [] lines -> for_each parse_line lines st = Raise IndexError.
Proof.
  induction lines as [| line lines IH]; intros st Hin; [contradiction |].
  simpl; destruct line as [| label fields]; [reflexivity |].
  destruct Hin as [Heq | Hin]; [discriminate |].
  destruct (parse_line st (label :: fields)) as [st1 | e] eqn:Hstep.
  - simpl; now apply IH.
  - simpl in Hstep.
    destruct (fold_left add_count (Counter fields)
                        (st_indices st, st_kegg_ids st, st_data st))
      as [[? ?] ?]; discriminate.
Qed.

Lemma parse_loop_total lines : forall st,
  ~ In [] lines -> exists st', for_each parse_line lines st = Ok st'.
Proof.
  induction lines as [| line lines IH]; intros st Hnil;
    [exists st; reflexivity |].
  simpl; destruct line as [| label fields]; [exfalso; apply Hnil; now left |].
  destruct (parse_line st (label :: fields)) as [st1 | e] eqn:Hstep.
  - simpl; apply IH; intros Hin; apply Hnil; now right.
  - simpl in Hstep.
    destruct (fold_left add_count (Counter fields)
                        (st_indices st, st_kegg_ids st, st_data st))
      as [[? ?] ?]; discriminate.
Qed.

Lemma concat_nil_iff {X} (ls : list (list X)) :
  List.concat ls = [] <-> Forall (fun l => l = []) ls.
Proof.
  induction ls as [| l ls IH]; simpl; [split; [constructor | reflexivity] |].
  split.
  - intros H; apply app_eq_nil in H as [-> H]; constructor; [reflexivity |].
    now apply IH.
  - intros H; inversion H as [| ? ? Hl Hls]; subst; simpl; now apply IH.
Qed.

(** X5.  [parse_kegg_table] raises [IndexError] when the file has a row
    without fields; otherwise it raises [ValueError] when no row carries a
    non-empty annotation token (the empty file included), because the shape
    of the matrix cannot be inferred; otherwise it returns a result. *)
Theorem parse_kegg_table_raises infile :
  (In [] infile -> parse_kegg_table infile = Raise IndexError)
  /\ (~ In [] infile ->
      (forall line k, In line infile -> In k (tl line) -> k = "") ->
      parse_kegg_table infile = Raise ValueError)
  /\ (~ In [] infile ->
      (exists line k, In line infile /\ In k (tl line) /\ k <> "") ->
      exists result, parse_kegg_table infile = Ok result).
Proof.
  unfold parse_kegg_table.
  split; [intros Hin; now rewrite parse_loop_empty_row |].
  assert (Hrows : forall st,
            for_each parse_line infile kegg_state0 = Ok st ->
            (st_indices st = [] <->
             forall line k, In line infile -> In k (tl line) -> k = "")).
  { intros st Hloop.
    apply parse_loop in Hloop as (Hi & _); simpl in Hi.
    pose proof (file_rows_spec infile [] ids_ok_nil) as Hspec.
    cbv zeta in Hspec.
    destruct Hspec as (_ & _ & _ & Hlen & Hnth & _).
    rewrite Hi, concat_nil_iff, Forall_map, Forall_forall.
    split.
    - intros Hall line k Hline Hk.
      apply In_nth_error in Hline as (i & Hline).
      assert (Hrow : In (nth i (fst (file_rows [] infile)) [])
                        (fst (file_rows [] infile))).
      { apply nth_In; rewrite Hlen; apply nth_error_Some; congruence. }
      apply Hall in Hrow; rewrite (Hnth i line Hline), map_map in Hrow.
      apply map_eq_nil in Hrow.
      destruct (String.eqb_spec k "") as [Hb | Hb]; [exact Hb |].
      assert (Hin : In (k, count_occ string_dec (tl line) k)
                       (filter nonblank (Counter (tl line)))).
      { apply filter_In; split; [apply Counter_In; auto |].
        unfold nonblank; simpl.
        destruct (String.eqb_spec k ""); [contradiction | reflexivity]. }
      rewrite Hrow in Hin; contradiction.
    - intros Hall row Hrow.
      apply (In_nth _ _ []) in Hrow as (i & Hi' & <-).
      rewrite Hlen in Hi'.
      destruct (nth_error infile i) as [line |] eqn:Hline;
        [| apply nth_error_None in Hline; lia].
      rewrite (Hnth i line Hline), map_map.
      destruct (filter nonblank (Counter (tl line))) as [| [k n] rest] eqn:Hf;
        [reflexivity |].
      assert (Hin : In (k, n) (filter nonblank (Counter (tl line))))
        by (rewrite Hf; now left).
      apply filter_In in Hin as [Hin Hnb].
      apply Counter_In in Hin as [Hin _].
      rewrite (Hall line k (nth_error_In _ _ Hline) Hin) in Hnb.
      discriminate. }
  split.
  - intros Hnil Hblank.
    destruct (parse_loop_total infile kegg_state0 Hnil) as (st & Hloop).
    rewrite Hloop; simpl.
    rewrite (proj2 (Hrows st Hloop) Hblank); reflexivity.
  - intros Hnil (line & k & Hline & Hk & Hne).
    destruct (parse_loop_total infile kegg_state0 Hnil) as (st & Hloop).
    rewrite Hloop; simpl.
    destruct (st_indices st) as [| i0 ind] eqn:Hind.
    + exfalso; apply Hne.
      exact (proj1 (Hrows st Hloop) Hind line k Hline Hk).
    + simpl; eexists; reflexivity.
Qed.

Lemma parse_kegg_table_raises_witness :
  parse_kegg_table [[]] = Raise IndexError
  /\ parse_kegg_table [] = Raise ValueError
  /\ parse_kegg_table [["G;s1"; ""; ""]] = Raise ValueError
  /\ exists result, parse_kegg_table five_strains = Ok result.
Proof.
  split; [apply (proj1 (parse_kegg_table_raises [[]])); now left |].
  split; [apply (proj1 (proj2 (parse_kegg_table_raises [])));
          [intros [] | intros line k []] |].
  split.
  - apply (proj1 (proj2 (parse_kegg_table_raises [["G;s1"; ""; ""]]))).
    + intros [H | []]; discriminate.
    + intros line k [<- | []] Hk; simpl in Hk.
      destruct Hk as [<- | [<- | []]]; reflexivity.
  - apply (proj2 (proj2 (parse_kegg_table_raises five_strains))).
    + intros H; simpl in H; intuition discriminate.
    + exists ["G;s1"; "K1"; "K2"], "K1"; simpl.
      repeat split; auto; discriminate.
Defined.

(** ** [_create_kegg_table]: every outcome *)

Lemma propagate_loop ns m row_names rows :
  forall (p0 : nat -> nat -> Z) found,
    for_each (propagate_row ns (snd (shape m)) row_names m) rows
             (tabulate ns (fun s => tabulate (snd (shape m))
                                             (fun f => int64 (p0 s f))), found)
    = if forallb (row_in_range row_names m) rows
      then Ok (tabulate ns (fun s => tabulate (snd (shape m)) (fun f =>
                 int64 (p0 s f + predicted rows row_names m s f))),
               (found + length (filter (matched row_names) rows))%nat)
      else Raise IndexError.
Proof.
  induction rows as [| [name row] rows IH]; intros p0 found.
  - cbn [for_each forallb filter length]; f_equal; f_equal; [| lia].
    apply tabulate_ext; intros s Hs; apply tabulate_ext; intros f Hf.
    unfold predicted; simpl; f_equal; lia.
  - cbn [for_each forallb filter].
    unfold propagate_row at 1, row_in_range at 1, matched at 1, dict_mem.
    cbn [fst snd].
    destruct (dict_get row_names name) as [idx |] eqn:Hget.
    + unfold getrow.
      destruct (Nat.ltb idx (fst (shape m))) eqn:Hidx;
        [| reflexivity].
      cbn [bind andb].
      assert (Hacc : iadd ns (snd (shape m))
                       (tabulate ns (fun s => tabulate (snd (shape m))
                                                (fun f => int64 (p0 s f))))
                       (outer ns (snd (shape m)) row
                              (dense_of (snd (shape m)) (row_entries m idx)))
                     = tabulate ns (fun s => tabulate (snd (shape m)) (fun f =>
                         int64 ((fun s f => p0 s f + nth s row 0
                                         * nth f (reference_row m idx) 0) s f)))).
      { unfold iadd, outer.
        apply tabulate_ext; intros s Hs; apply tabulate_ext; intros f Hf.
        rewrite !entry_tabulate by assumption.
        apply wrap_add. }
      rewrite Hacc, IH.
      destruct (forallb (row_in_range row_names m) rows); [| reflexivity].
      f_equal; f_equal; [| simpl; lia].
      apply tabulate_ext; intros s Hs; apply tabulate_ext; intros f Hf.
      f_equal; unfold predicted, sum; cbn [map fold_right].
      unfold contribution at 2; cbn [fst snd]; rewrite Hget; lia.
    + cbn [bind andb]; rewrite IH.
      destruct (forallb (row_in_range row_names m) rows); [| reflexivity].
      f_equal; f_equal.
      apply tabulate_ext; intros s Hs; apply tabulate_ext; intros f Hf.
      f_equal; unfold predicted, sum; cbn [map fold_right].
      unfold contribution at 2; cbn [fst snd]; rewrite Hget; lia.
Qed.

Lemma length_sorted_names names : length (sorted_names names) = length names.
Proof.
  unfold sorted_names, sorted_by_key; rewrite length_map.
  apply Permutation_length, sort_by_perm.
Qed.

(** The loop either meets a row index that the reference does not have, or
    the function returns the table of predicted abundances. *)
Lemma create_kegg_table_eq taxatable_df row_names column_names m :
  _create_kegg_table taxatable_df row_names column_names m
  = if forallb (row_in_range row_names m) (iterrows taxatable_df) then
      if Nat.eqb (length (index taxatable_df)) 0 then Raise ZeroDivisionError
      else if Nat.eqb (length column_names) (snd (shape m)) then
        Ok (drop_zero_rows
              (predicted_table taxatable_df row_names column_names m),
            propagation_log taxatable_df row_names m)
      else Raise ValueError
    else Raise IndexError.
Proof.
  pose proof (propagate_loop (length (columns taxatable_df)) m row_names
                (iterrows taxatable_df) (fun _ _ => 0) 0) as Hloop.
  unfold _create_kegg_table, predicted_table, propagation_log.
  destruct (shape m) as [ntk nk] eqn:Hshape; cbn [df_shape snd] in *.
  change (int64 0) with 0 in Hloop.
  rewrite Hloop.
  destruct (forallb (row_in_range row_names m) (iterrows taxatable_df));
    [| reflexivity].
  cbn [bind Nat.add].
  destruct (Nat.eqb (length (index taxatable_df)) 0); [reflexivity |].
  rewrite length_sorted_names.
  destruct (Nat.eqb_spec (length column_names) nk) as [Hc | Hc];
    [| reflexivity].
  apply f_equal, f_equal2; [| reflexivity].
  unfold df_T; cbn [index columns values]; rewrite length_sorted_names, Hc.
  f_equal; f_equal.
  apply tabulate_ext; intros f Hf; apply tabulate_ext; intros s Hs.
  rewrite entry_tabulate by assumption; reflexivity.
Qed.

(** X6.  The outcome of [_create_kegg_table] in every case: a matched
    taxon whose row index the reference matrix does not have raises
    [IndexError]; otherwise a taxatable without rows raises
    [ZeroDivisionError]; otherwise a column mapping whose size differs
    from the width of the reference raises [ValueError]; otherwise the
    table of predicted abundances is returned without its all-zero rows. *)
Theorem create_kegg_table_outcome taxatable_df row_names column_names m :
  let rows := iterrows taxatable_df in
  (forallb (row_in_range row_names m) rows = false ->
   _create_kegg_table taxatable_df row_names column_names m
   = Raise IndexError)
  /\ (forallb (row_in_range row_names m) rows = true ->
      (index taxatable_df = [] ->
       _create_kegg_table taxatable_df row_names column_names m
       = Raise ZeroDivisionError)
      /\ (index taxatable_df <> [] ->
          length column_names <> snd (shape m) ->
          _create_kegg_table taxatable_df row_names column_names m
          = Raise ValueError)
      /\ (index taxatable_df <> [] ->
          length column_names = snd (shape m) ->
          _create_kegg_table taxatable_df row_names column_names m
          = Ok (drop_zero_rows
                  (predicted_table taxatable_df row_names column_names m),
                propagation_log taxatable_df row_names m))).
Proof.
  intros rows; subst rows; rewrite create_kegg_table_eq.
  split; [intros ->; reflexivity |].
  intros ->.
  split; [intros ->; reflexivity |].
  assert (Hn : index taxatable_df <> [] ->
               Nat.eqb (length (index taxatable_df)) 0 = false).
  { intros Hne; apply Nat.eqb_neq; destruct (index taxatable_df);
      [congruence | discriminate]. }
  split; intros Hne Hc; rewrite (Hn Hne).
  - apply Nat.eqb_neq in Hc; now rewrite Hc.
  - apply Nat.eqb_eq in Hc; now rewrite Hc.
Qed.

Lemma create_kegg_table_outcome_witness :
  _create_kegg_table two_taxa [("G", 3%nat)] [("K1", 0%nat); ("K2", 1%nat)]
                     genus_G_reference
  = Raise IndexError
  /\ _create_kegg_table two_taxa [("G", 0%nat)] [("K1", 0%nat)]
                        genus_G_reference
     = Raise ValueError
  /\ _create_kegg_table two_taxa [("G", 0%nat)] [("K1", 0%nat); ("K2", 1%nat)]
                        genus_G_reference
     = Ok (drop_zero_rows
             (predicted_table two_taxa [("G", 0%nat)]
                              [("K1", 0%nat); ("K2", 1%nat)]
                              genus_G_reference),
           propagation_log two_taxa [("G", 0%nat)] genus_G_reference).
Proof.
  split; [| split].
  - apply (proj1 (create_kegg_table_outcome two_taxa [("G", 3%nat)]
                    [("K1", 0%nat); ("K2", 1%nat)] genus_G_reference)).
    reflexivity.
  - apply (proj1 (proj2 (proj2 (create_kegg_table_outcome two_taxa
                    [("G", 0%nat)] [("K1", 0%nat)] genus_G_reference)
                    eq_refl)));
      simpl; [discriminate | lia].
  - apply (proj2 (proj2 (proj2 (create_kegg_table_outcome two_taxa
                    [("G", 0%nat)] [("K1", 0%nat); ("K2", 1%nat)]
                    genus_G_reference) eq_refl)));
      simpl; [discriminate | reflexivity].
Defined.

(** ** [_create_kegg_table]: the order of the taxatable rows *)

Lemma sum_perm xs ys : Permutation xs ys -> sum xs = sum ys.
Proof.
  induction 1; simpl; lia.
Qed.

Lemma forallb_perm {X} (p : X -> bool) xs ys :
  Permutation xs ys -> forallb p xs = forallb p ys.
Proof.
  induction 1; simpl; try congruence.
  now rewrite !andb_assoc, (andb_comm (p y)).
Qed.

Lemma filter_perm {X} (p : X -> bool) xs ys :
  Permutation xs ys -> Permutation (filter p xs) (filter p ys).
Proof.
  induction 1; simpl.
  - constructor.
  - destruct (p x); [constructor |]; assumption.
  - destruct (p x), (p y); try reflexivity; apply perm_swap.
  - etransitivity; eassumption.
Qed.

Lemma length_iterrows {A} (df : DataFrame A) :
  length (index df) = length (values df) ->
  length (iterrows df) = length (index df).
Proof.
  intros H; unfold iterrows; rewrite length_combine; lia.
Qed.

(** X7.  The order of the taxatable rows does not matter: two well-formed
    taxatables with the same sample columns and the same rows in any order
    give the same result, table, messages and exception alike. *)
Theorem create_kegg_table_row_order df1 df2 row_names column_names m :
  length (index df1) = length (values df1) ->
  length (index df2) = length (values df2) ->
  columns df1 = columns df2 ->
  Permutation (iterrows df1) (iterrows df2) ->
  _create_kegg_table df1 row_names column_names m
  = _create_kegg_table df2 row_names column_names m.
Proof.
  intros H1 H2 Hcols Hperm.
  rewrite !create_kegg_table_eq.
  assert (Hlen : length (index df1) = length (index df2)).
  { rewrite <- (length_iterrows df1 H1), <- (length_iterrows df2 H2).
    now apply Permutation_length. }
  assert (Hfound : length (filter (matched row_names) (iterrows df1))
                   = length (filter (matched row_names) (iterrows df2)))
    by now apply Permutation_length, filter_perm.
  assert (Hpred : forall s f,
            predicted (iterrows df1) row_names m s f
            = predicted (iterrows df2) row_names m s f).
  { intros s f; unfold predicted; now apply sum_perm, Permutation_map. }
  rewrite (forallb_perm _ _ _ Hperm), Hlen.
  unfold predicted_table, propagation_log, df_shape.
  rewrite Hcols, Hlen, Hfound.
  destruct (forallb (row_in_range row_names m) (iterrows df2));
    [| reflexivity].
  destruct (Nat.eqb (length (index df2)) 0); [reflexivity |].
  destruct (Nat.eqb (length column_names) (snd (shape m))); [| reflexivity].
  do 4 f_equal.
  apply tabulate_ext; intros f Hf; apply tabulate_ext; intros s Hs.
  now rewrite Hpred.
Qed.

Lemma create_kegg_table_row_order_witness :
  _create_kegg_table two_taxa [("G", 0%nat)] [("K1", 0%nat); ("K2", 1%nat)]
                     genus_G_reference
  = _create_kegg_table two_taxa_swapped [("G", 0%nat)]
                       [("K1", 0%nat); ("K2", 1%nat)] genus_G_reference.
Proof.
  apply (create_kegg_table_row_order two_taxa two_taxa_swapped);
    try reflexivity.
  apply perm_swap.
Defined.

(** ** [_create_kegg_table] after [parse_kegg_table] and after
       [summarize_at_level] *)

Lemma rows_in_range row_names m rows :
  (forall k idx, dict_get row_names k = Some idx ->
                 (idx < fst (shape m))%nat) ->
  forallb (row_in_range row_names m) rows = true.
Proof.
  intros Hrange; apply forallb_forall; intros [name row] _.
  unfold row_in_range; cbn [fst].
  destruct (dict_get row_names name) as [idx |] eqn:Hget; [| reflexivity].
  apply Nat.ltb_lt; eauto.
Qed.

Lemma index_nonempty {A} (df : DataFrame A) :
  index df <> [] -> Nat.eqb (length (index df)) 0 = false.
Proof.
  intros Hne; apply Nat.eqb_neq.
  destruct (index df); [congruence | discriminate].
Qed.

Lemma length_unique l : (length (unique l) <= length l)%nat.
Proof.
  induction l as [| x l IH]; simpl; [lia |].
  pose proof (filter_length_le (fun y => negb (String.eqb x y)) (unique l)).
  lia.
Qed.

Lemma parsed_rows_in_range infile row_names kegg_ids m :
  parse_kegg_table infile = Ok (row_names, kegg_ids, m) ->
  forall k idx, dict_get row_names k = Some idx -> (idx < fst (shape m))%nat.
Proof.
  intros H k idx Hget.
  pose proof H as Hrows; apply parse_kegg_table_rows in Hrows.
  unfold parse_kegg_table in H.
  apply bind_Ok in H as (st & Hloop & H).
  apply bind_Ok in H as (mm & _ & H).
  injection H as <- _ _.
  apply parse_loop_row_names in Hloop; simpl in Hloop.
  destruct (register_labels_spec (map (hd "") infile) [] eq_refl
              (NoDup_nil _)) as (Hnum & _ & Hkeys).
  rewrite Hloop in Hget.
  apply (numbered_get _ _ _ Hnum) in Hget.
  assert (Hlen : length (register_labels [] (map (hd "") infile))
                 = length (keys (register_labels [] (map (hd "") infile))))
    by (unfold keys; now rewrite length_map).
  rewrite Hkeys in Hlen; cbn [keys map app] in Hlen.
  pose proof (filter_length_le (fun l => negb (@dict_mem nat [] l))
                               (unique (map (hd "") infile))) as Hf.
  pose proof (length_unique (map (hd "") infile)) as Hu.
  rewrite length_map in Hu.
  rewrite Hrows; lia.
Qed.

(** X8.  A parsed reference is always fit for propagation: with the row
    mapping, the column mapping and the matrix that [parse_kegg_table]
    returns, [_create_kegg_table] raises for no taxatable that has at least
    one row, and returns the table of predicted abundances. *)
Theorem create_kegg_table_parsed infile row_names kegg_ids m taxatable_df :
  parse_kegg_table infile = Ok (row_names, kegg_ids, m) ->
  index taxatable_df <> [] ->
  _create_kegg_table taxatable_df row_names kegg_ids m
  = Ok (drop_zero_rows (predicted_table taxatable_df row_names kegg_ids m),
        propagation_log taxatable_df row_names m).
Proof.
  intros H Hne.
  rewrite create_kegg_table_eq.
  rewrite (rows_in_range _ _ _ (parsed_rows_in_range _ _ _ _ H)).
  rewrite (index_nonempty _ Hne).
  destruct (parsed_columns _ _ _ _ H) as (_ & Hw & _).
  now rewrite Hw, Nat.eqb_refl.
Qed.

Lemma create_kegg_table_parsed_witness :
  _create_kegg_table one_taxon five_strains_names
                     [("K1", 0%nat); ("K2", 1%nat)] five_strains_csr
  = Ok (drop_zero_rows
          (predicted_table one_taxon five_strains_names
                           [("K1", 0%nat); ("K2", 1%nat)] five_strains_csr),
        propagation_log one_taxon five_strains_names five_strains_csr).
Proof.
  apply (create_kegg_table_parsed five_strains five_strains_names
           [("K1", 0%nat); ("K2", 1%nat)] five_strains_csr one_taxon
           parse_five_strains).
  discriminate.
Defined.

Lemma list_max_attained l : l <> [] -> In (list_max l) l.
Proof.
  induction l as [| a l IH]; [congruence |]; intros _.
  change (list_max (a :: l)) with (Nat.max a (list_max l)).
  destruct l as [| b l]; [left; simpl; lia |].
  destruct (Nat.max_spec a (list_max (b :: l))) as [[_ ->] | [_ ->]];
    [right; apply IH; discriminate | now left].
Qed.

Lemma group_row_width m g row j :
  group_row m g = Some row -> In j (map fst row) -> (j < snd (shape m))%nat.
Proof.
  unfold group_row.
  destruct (getrows m (snd g)) as [mat | e]; [| discriminate].
  destruct (existsb _ _); [| discriminate].
  intros Hrow; injection Hrow as <-.
  rewrite map_map; simpl; rewrite map_id.
  intros Hin; apply In_np_where in Hin as [Hj _].
  now rewrite length_mat_thresh in Hj.
Qed.

(** The collapsed matrix: it stores something, every stored column is a
    column of the matrix it was collapsed from, and every row index of the
    new row mapping is a row of it. *)
Lemma collapsed_matrix m names ids level m' rn' :
  summarize_at_level m names ids level = Ok (m', rn') ->
  indices m' <> []
  /\ Forall (fun j => (j < snd (shape m))%nat) (indices m')
  /\ snd (shape m') = S (list_max (indices m'))
  /\ (forall k idx, dict_get rn' k = Some idx -> (idx < fst (shape m'))%nat).
Proof.
  intros H.
  assert (Hne : indices m' <> []).
  { unfold summarize_at_level in H.
    apply bind_Ok in H as (st & _ & H).
    apply bind_Ok in H as (mm & Hm & H).
    injection H as -> _.
    unfold csr_matrix in Hm.
    destruct (cs_indices st); [discriminate |].
    injection Hm as <-; discriminate. }
  pose proof (collapsed_row_names _ _ _ _ _ _ H) as Hrn; cbv zeta in Hrn.
  destruct Hrn as (_ & Hnum & Hlen & Hrows).
  apply summarize_at_level_Ok in H; cbv zeta in H.
  destruct H as (_ & Hi & _ & _ & Hshape).
  split; [exact Hne |].
  split; [| split; [now rewrite Hshape |]].
  - apply Forall_forall; intros j Hj.
    rewrite Hi in Hj; apply in_concat in Hj as (cols & Hcols & Hj).
    rewrite map_map in Hcols; apply in_map_iff in Hcols as ([k row] & <- & Hin).
    apply retained_In in Hin as (g & _ & _ & Hrow).
    eapply group_row_width; eauto.
  - intros k idx Hget.
    rewrite Hrows, <- Hlen.
    apply (numbered_get rn' k idx); [| exact Hget].
    unfold numbered; now rewrite Hnum, Hlen.
Qed.

(** X9.  After a collapse the reference may have lost its last columns:
    the collapsed matrix is as wide as its largest retained column index
    requires, while the column mapping is passed on unchanged.  On a
    taxatable with at least one row, [_create_kegg_table] therefore returns
    a table when some group retains the last column of the column mapping,
    and raises [ValueError] when no group does; it never raises
    [IndexError]. *)
Theorem create_kegg_table_collapsed m names ids level m' rn' taxatable_df :
  summarize_at_level m names ids level = Ok (m', rn') ->
  length ids = snd (shape m) ->
  index taxatable_df <> [] ->
  (In (length ids - 1)%nat (indices m') ->
   _create_kegg_table taxatable_df rn' ids m'
   = Ok (drop_zero_rows (predicted_table taxatable_df rn' ids m'),
         propagation_log taxatable_df rn' m'))
  /\ (~ In (length ids - 1)%nat (indices m') ->
      _create_kegg_table taxatable_df rn' ids m' = Raise ValueError).
Proof.
  intros H Hw Hne.
  destruct (collapsed_matrix _ _ _ _ _ _ H) as (Hind & Hcols & Hshape & Hrange).
  rewrite create_kegg_table_eq.
  rewrite (rows_in_range _ _ _ Hrange), (index_nonempty _ Hne), Hshape.
  pose proof (list_max_attained _ Hind) as Hmax.
  rewrite Forall_forall in Hcols.
  pose proof (Hcols _ Hmax) as Hlt.
  split; intros Hlast.
  - apply list_max_In in Hlast.
    replace (Nat.eqb (length ids) (S (list_max (indices m')))) with true;
      [reflexivity |].
    symmetry; apply Nat.eqb_eq; lia.
  - replace (Nat.eqb (length ids) (S (list_max (indices m')))) with false;
      [reflexivity |].
    symmetry; apply Nat.eqb_neq; intros Heq; apply Hlast.
    replace (length ids - 1)%nat with (list_max (indices m')) by lia.
    exact Hmax.
Qed.

Lemma create_kegg_table_collapsed_witness :
  _create_kegg_table one_taxon [("G", 0%nat)] [("K1", 0%nat); ("K2", 1%nat)]
                     five_strains_collapsed
  = Raise ValueError
  /\ _create_kegg_table one_taxon [("A", 0%nat); ("B", 1%nat)]
                        [("K1", 0%nat)] two_genera_collapsed
     = Ok (drop_zero_rows
             (predicted_table one_taxon [("A", 0%nat); ("B", 1%nat)]
                              [("K1", 0%nat)] two_genera_collapsed),
           propagation_log one_taxon [("A", 0%nat); ("B", 1%nat)]
                           two_genera_collapsed).
Proof.
  split.
  - apply (proj2 (create_kegg_table_collapsed five_strains_csr
                    five_strains_names [("K1", 0%nat); ("K2", 1%nat)] 1
                    five_strains_collapsed [("G", 0%nat)] one_taxon
                    collapse_five_strains eq_refl
                    ltac:(discriminate))).
    simpl; intros [H | []]; discriminate.
  - apply (proj1 (create_kegg_table_collapsed two_genera_csr
                    [("B;s1", 0%nat); ("A;s2", 1%nat)] [("K1", 0%nat)] 1
                    two_genera_collapsed [("A", 0%nat); ("B", 1%nat)]
                    one_taxon collapse_two_genera eq_refl
                    ltac:(discriminate))).
    simpl; auto.
Defined.

(** ** [summarize_at_level]: the stored medians *)

Lemma count_positive_perm xs ys :
  Permutation xs ys -> count_positive xs = count_positive ys.
Proof.
  intros H; unfold count_positive; now apply Permutation_length, filter_perm.
Qed.

Lemma count_positive_le xs : (count_positive xs <= length xs)%nat.
Proof. apply filter_length_le. Qed.

(** In an ascending list the strictly positive values come last. *)
Lemma sorted_positive_tail s :
  StronglySorted (fun a b => Z.leb a b = true) s ->
  forall i, (length s - count_positive s <= i < length s)%nat ->
            0 < nth i s 0.
Proof.
  induction 1 as [| a t Ht IH Ha]; intros i Hi; [simpl in Hi; lia |].
  unfold count_positive in Hi; cbn [filter length] in Hi.
  destruct (Z.ltb_spec 0 a) as [Hpos | Hneg].
  - destruct i as [| i]; [exact Hpos |].
    cbn [nth]; cbn [length] in Hi.
    rewrite Forall_forall in Ha.
    assert (Hin : In (nth i t 0) t) by (apply nth_In; lia).
    apply Ha, Z.leb_le in Hin; lia.
  - pose proof (count_positive_le t) as Hle; unfold count_positive in Hle.
    destruct i as [| i]; [lia |].
    cbn [nth]; apply IH; unfold count_positive; lia.
Qed.

Lemma trunc_half x : trunc (inject_Z x / inject_Z 2)%Q = Z.quot x 2.
Proof.
  unfold trunc, Qdiv, Qmult, Qinv, inject_Z; simpl.
  now rewrite Z.mul_1_r.
Qed.

(** The median of a column in which more than four fifths of the values are
    strictly positive is itself at least one after truncation. *)
Lemma median_positive col :
  (forall v, In v col -> -128 <= v <= 127) ->
  (4 * length col < 5 * count_positive col)%nat ->
  1 <= trunc (median col) <= 127.
Proof.
  intros Hrange Hmost.
  pose proof (sort_by_perm Z.leb col) as Hperm.
  assert (Hsorted : StronglySorted (fun a b => Z.leb a b = true)
                                   (sort_by Z.leb col)).
  { apply sort_by_sorted.
    - intros a b; destruct (Z.leb_spec a b); [now left | right].
      apply Z.leb_le; lia.
    - intros a b c Hab Hbc; apply Z.leb_le in Hab, Hbc; apply Z.leb_le; lia. }
  pose proof (sorted_positive_tail _ Hsorted) as Htail.
  rewrite (count_positive_perm _ _ Hperm) in Htail.
  assert (Hlen : length (sort_by Z.leb col) = length col)
    by now apply Permutation_length.
  assert (Hin : forall i, (i < length col)%nat ->
                          -128 <= nth i (sort_by Z.leb col) 0 <= 127).
  { intros i Hi; apply Hrange, (Permutation_in _ Hperm), nth_In; lia. }
  pose proof (count_positive_le col) as Hle.
  unfold median; rewrite Hlen in *.
  destruct (Nat.even (length col)) eqn:Heven.
  - apply Nat.even_spec in Heven as [h Hh].
    assert (Hdiv : (length col / 2 = h)%nat)
      by (rewrite Hh, Nat.mul_comm; apply Nat.div_mul; lia).
    rewrite Hdiv, trunc_half.
    pose proof (Htail (h - 1)%nat ltac:(lia)) as Ha.
    pose proof (Htail h ltac:(lia)) as Hb.
    pose proof (Hin (h - 1)%nat ltac:(lia)) as Ha'.
    pose proof (Hin h ltac:(lia)) as Hb'.
    rewrite Z.quot_div_nonneg by lia.
    split; [apply Z.div_le_lower_bound; lia |].
    apply Z.div_le_upper_bound; lia.
  - assert (Hodd : Nat.odd (length col) = true)
      by (rewrite <- Nat.negb_even, Heven; reflexivity).
    apply Nat.odd_spec in Hodd as [h Hh].
    assert (Hdiv : (length col / 2 = h)%nat).
    { rewrite Hh, Nat.mul_comm, Nat.div_add_l by lia; simpl; lia. }
    rewrite Hdiv, trunc_inject_Z.
    pose proof (Htail h ltac:(lia)) as Hb.
    pose proof (Hin h ltac:(lia)) as Hb'.
    lia.
Qed.

Lemma length_column mat j : length (column mat j) = length mat.
Proof. unfold column; apply length_map. Qed.

Lemma group_row_positive m g row :
  group_row m g = Some row ->
  row <> []
  /\ Forall (fun p => 1 <= trunc (snd p) <= 127) row.
Proof.
  unfold group_row.
  destruct (getrows m (snd g)) as [mat | e] eqn:Hget; [| discriminate].
  apply getrows_Ok in Hget; subst mat.
  destruct (existsb _ _) eqn:Hany; [| discriminate].
  intros Hrow; injection Hrow as <-.
  split.
  - apply existsb_np_where in Hany as (j & Hj).
    intros Hnil; apply map_eq_nil in Hnil; rewrite Hnil in Hj; contradiction.
  - apply Forall_forall; intros p Hp.
    apply in_map_iff in Hp as (j & <- & Hj); cbn [snd].
    apply In_np_where in Hj as [Hj Hth].
    rewrite length_mat_thresh in Hj.
    rewrite nth_mat_thresh in Hth by exact Hj.
    rewrite length_map in Hth.
    destruct (snd g) as [| i0 members] eqn:Hmembers; [discriminate |].
    rewrite <- Hmembers in *.
    assert (Hn : (0 < length (snd g))%nat) by (rewrite Hmembers; simpl; lia).
    apply (@fraction_gt_08 _ _ Hn) in Hth.
    apply median_positive.
    + intros v Hv; unfold column in Hv; rewrite map_map in Hv.
      apply in_map_iff in Hv as (i & <- & _); apply reference_row_range.
    + now rewrite length_column, length_map.
Qed.

(** X10.  Every value stored in a collapsed reference matrix lies between
    1 and 127: a retained column has more than four fifths strictly
    positive members, so its median is positive, also when the matrix that
    is collapsed holds counts that wrapped around to negative values. *)
Theorem summarize_at_level_positive m names ids level m' rn' :
  summarize_at_level m names ids level = Ok (m', rn') ->
  Forall (fun v => 1 <= v <= 127) (data m').
Proof.
  intros H.
  apply summarize_at_level_Ok in H; cbv zeta in H.
  destruct H as (_ & _ & Hd & _).
  rewrite Hd; apply Forall_forall; intros v Hv.
  apply in_map_iff in Hv as (q & <- & Hq).
  apply in_concat in Hq as (qs & Hqs & Hq).
  rewrite map_map in Hqs; apply in_map_iff in Hqs as ([k row] & <- & Hin).
  apply retained_In in Hin as (g & _ & _ & Hrow).
  apply group_row_positive in Hrow as [_ Hrow].
  rewrite Forall_forall in Hrow; cbn [snd] in Hq.
  apply in_map_iff in Hq as (p & <- & Hp).
  rewrite int8_small; [now apply Hrow |].
  specialize (Hrow p Hp); lia.
Qed.

Lemma summarize_at_level_positive_witness :
  Forall (fun v => 1 <= v <= 127) (data wrapped_collapsed).
Proof.
  apply (summarize_at_level_positive wrapped_csr [("G;s1", 0%nat)]
           [("K1", 0%nat); ("K2", 1%nat)] 1 wrapped_collapsed
           [("G", 0%nat)] collapse_wrapped_strain).
Defined.

(** ** [summarize_at_level]: every outcome *)

Lemma getrows_total m rows :
  Forall (fun i => (i < fst (shape m))%nat) rows ->
  getrows m rows = Ok (map (reference_row m) rows).
Proof.
  induction 1 as [| i rows Hi _ IH]; [reflexivity |].
  cbn [getrows map]; unfold getrow at 1.
  rewrite (proj2 (Nat.ltb_lt _ _) Hi); cbn [bind]; rewrite IH; reflexivity.
Qed.

Lemma getrows_raise m rows i :
  In i rows -> (fst (shape m) <= i)%nat -> getrows m rows = Raise IndexError.
Proof.
  induction rows as [| a rows IH]; [contradiction |].
  intros Hin Hi; cbn [getrows]; unfold getrow at 1.
  destruct (Nat.ltb_spec a (fst (shape m))) as [Ha | Ha]; [| reflexivity].
  destruct Hin as [-> | Hin]; [lia |].
  cbn [bind]; rewrite IH by assumption; reflexivity.
Qed.

Lemma getrows_outcome m rows :
  getrows m rows = Ok (map (reference_row m) rows)
  \/ getrows m rows = Raise IndexError.
Proof.
  destruct (forallb (fun i => Nat.ltb i (fst (shape m))) rows) eqn:Hall.
  - left; apply getrows_total, Forall_forall; intros i Hi.
    rewrite forallb_forall in Hall; now apply Nat.ltb_lt, Hall.
  - right.
    assert (Hex : existsb (fun i => negb (Nat.ltb i (fst (shape m)))) rows
                  = true).
    { clear -Hall; induction rows as [| a rows IH]; [discriminate |].
      simpl in *; destruct (Nat.ltb a (fst (shape m))); simpl; auto. }
    apply existsb_exists in Hex as (i & Hi & Hge).
    apply negb_true_iff, Nat.ltb_ge in Hge.
    eapply getrows_raise; eauto.
Qed.

Lemma collapse_group_outcome m st g :
  (exists st', collapse_group m st g = Ok st')
  \/ collapse_group m st g = Raise IndexError.
Proof.
  unfold collapse_group; destruct g as [name rows].
  destruct (getrows_outcome m rows) as [-> | ->]; [left | now right].
  cbn [bind]; destruct (existsb _ _); eexists; reflexivity.
Qed.

Lemma collapse_loop_raise m gs : forall st g i,
  In g gs -> In i (snd g) -> (fst (shape m) <= i)%nat ->
  for_each (collapse_group m) gs st = Raise IndexError.
Proof.
  induction gs as [| a gs IH]; intros st g i Hg Hi Hge; [contradiction |].
  cbn [for_each].
  destruct Hg as [-> | Hg].
  - unfold collapse_group; destruct g as [name rows]; cbn [snd] in Hi.
    now rewrite (getrows_raise m rows i Hi Hge).
  - destruct (collapse_group_outcome m st a) as [[st' ->] | ->];
      [| reflexivity].
    cbn [bind]; eapply IH; eauto.
Qed.

Lemma collapse_loop_total m gs :
  (forall g i, In g gs -> In i (snd g) -> (i < fst (shape m))%nat) ->
  forall st, exists st', for_each (collapse_group m) gs st = Ok st'.
Proof.
  induction gs as [| a gs IH]; intros Hin st; [eexists; reflexivity |].
  cbn [for_each].
  assert (Ha : exists st', collapse_group m st a = Ok st').
  { unfold collapse_group; destruct a as [name rows].
    rewrite getrows_total.
    - cbn [bind]; destruct (existsb _ _); eexists; reflexivity.
    - apply Forall_forall; intros i Hi; apply (Hin (name, rows)); simpl; auto. }
  destruct Ha as (st' & ->); cbn [bind].
  apply IH; intros g i Hg; apply Hin; now right.
Qed.

Lemma In_positions_of name groups i :
  In i (positions_of name groups)
  <-> (i < length groups)%nat /\ nth i groups "" = name.
Proof.
  unfold positions_of; rewrite filter_In, in_seq, String.eqb_eq.
  intuition lia.
Qed.

Lemma group_passes_retained m groups k :
  In k groups ->
  group_passes m groups k = true <->
  exists row, In (k, row) (retained m (groupby groups)).
Proof.
  intros Hk; unfold group_passes; split.
  - destruct (group_row m (k, positions_of k groups)) as [row |] eqn:Hrow;
      [| discriminate].
    intros _; exists row; apply retained_In.
    exists (k, positions_of k groups); repeat split; [| exact Hrow].
    apply groupby_In; auto.
  - intros (row & Hin).
    apply retained_In in Hin as ([k' rows] & Hg & Hk' & Hrow).
    apply groupby_In in Hg as [_ Hrows]; cbn [fst snd] in *; subst.
    now rewrite Hrow.
Qed.

(** X11.  The outcome of [summarize_at_level] in every case: a row mapping
    with more labels than the matrix has rows raises [IndexError];
    otherwise, when no group keeps a column (the empty mapping included),
    the shape of the collapsed matrix cannot be inferred and [ValueError]
    is raised; otherwise a collapsed matrix is returned. *)
Theorem summarize_at_level_outcome m names ids level :
  let groups := map (truncate_lineage level) (sorted_names names) in
  ((fst (shape m) < length names)%nat ->
   summarize_at_level m names ids level = Raise IndexError)
  /\ ((length names <= fst (shape m))%nat ->
      ((forall k, In k groups -> group_passes m groups k = false) ->
       summarize_at_level m names ids level = Raise ValueError)
      /\ ((exists k, In k groups /\ group_passes m groups k = true) ->
          exists m' rn', summarize_at_level m names ids level = Ok (m', rn'))).
Proof.
  intros groups.
  assert (Hlen : length groups = length names)
    by (unfold groups; now rewrite length_map, length_sorted_names).
  unfold summarize_at_level; fold groups.
  split.
  - intros Hlt.
    set (i := fst (shape m)).
    assert (Hi : (i < length groups)%nat) by (unfold i; lia).
    rewrite (collapse_loop_raise m (groupby groups) collapse_state0
               (nth i groups "", positions_of (nth i groups "") groups) i);
      [reflexivity | | | unfold i; lia].
    + apply groupby_In; split; [apply nth_In; exact Hi | reflexivity].
    + apply In_positions_of; auto.
  - intros Hle.
    destruct (collapse_loop_total m (groupby groups)) with (st := collapse_state0)
      as (st & Hloop).
    { intros g i Hg Hi.
      apply groupby_In in Hg as [_ Hrows]; rewrite Hrows in Hi.
      apply In_positions_of in Hi as [Hi _]; lia. }
    rewrite Hloop; cbn [bind].
    apply collapse_loop in Hloop;
      [| apply StronglySorted_lt_NoDup, groupby_keys_sorted
       | intros; reflexivity].
    cbv zeta in Hloop; destruct Hloop as (Hi & _).
    cbn [cs_indices collapse_state0 app] in Hi.
    split.
    + intros Hnone.
      assert (Houts : retained m (groupby groups) = []).
      { destruct (retained m (groupby groups)) as [| [k row] outs] eqn:Hr;
          [reflexivity | exfalso].
        assert (Hin : In (k, row) (retained m (groupby groups)))
          by (rewrite Hr; now left).
        assert (Hk : In k groups).
        { apply retained_In in Hin as (g & Hg & <- & _).
          now apply groupby_In in Hg as [Hg _]. }
        assert (Hpass : group_passes m groups k = true)
          by (apply group_passes_retained; eauto).
        rewrite (Hnone k Hk) in Hpass; discriminate. }
      rewrite Houts in Hi; cbn [map List.concat] in Hi.
      unfold csr_matrix; rewrite Hi; reflexivity.
    + intros (k & Hk & Hpass).
      apply (group_passes_retained m groups k Hk) in Hpass as (row & Hin).
      assert (Hne : cs_indices st <> []).
      { rewrite Hi; intros Hnil.
        apply concat_nil_iff in Hnil; rewrite Forall_forall in Hnil.
        specialize (Hnil (map fst row)).
        apply retained_In in Hin as Hrow.
        destruct Hrow as (g & _ & _ & Hrow).
        apply group_row_positive in Hrow as [Hrow _].
        apply Hrow, map_eq_nil with (f := fst), Hnil.
        apply in_map_iff; exists (k, row); auto. }
      unfold csr_matrix.
      destruct (cs_indices st); [congruence |].
      cbn [bind]; eexists; eexists; reflexivity.
Qed.

Lemma summarize_at_level_outcome_witness :
  summarize_at_level five_strains_collapsed five_strains_names
                     [("K1", 0%nat); ("K2", 1%nat)] 1
  = Raise IndexError
  /\ summarize_at_level five_strains_csr [] [("K1", 0%nat); ("K2", 1%nat)] 1
     = Raise ValueError
  /\ exists m' rn',
       summarize_at_level five_strains_csr five_strains_names
                          [("K1", 0%nat); ("K2", 1%nat)] 1
       = Ok (m', rn').
Proof.
  split; [| split].
  - apply (proj1 (summarize_at_level_outcome five_strains_collapsed
                    five_strains_names [("K1", 0%nat); ("K2", 1%nat)] 1)).
    simpl; lia.
  - apply (proj1 (proj2 (summarize_at_level_outcome five_strains_csr []
                    [("K1", 0%nat); ("K2", 1%nat)] 1) ltac:(simpl; lia))).
    intros k [].
  - apply (proj2 (proj2 (summarize_at_level_outcome five_strains_csr
                    five_strains_names [("K1", 0%nat); ("K2", 1%nat)] 1)
                    ltac:(simpl; lia))).
    exists "G"; split; [simpl; auto | reflexivity].
Defined.

(** ** The taxatable summed by rank (lines 42 to 47 of
       [function_run_and_save]) *)

Lemma count_replace a b c s :
  a <> c -> b <> c -> count c (replace a b s) = count c s.
Proof.
  intros Ha Hb; induction s as [| x s IH]; simpl; [reflexivity |].
  rewrite IH; f_equal.
  destruct (Ascii.eqb_spec x a) as [-> | Hx]; [| reflexivity].
  destruct (Ascii.eqb_spec b c); [contradiction |].
  destruct (Ascii.eqb_spec a c); [contradiction | reflexivity].
Qed.

Lemma count_truncate_lineage level label :
  (0 < level)%nat ->
  (count semicolon (truncate_lineage level label) + 1)%nat
  = Nat.min level (count semicolon label + 1).
Proof.
  intros Hpos; unfold truncate_lineage.
  change ";" with (String semicolon "").
  rewrite count_concat by (apply Forall_firstn, split_pieces).
  rewrite length_firstn, length_split; lia.
Qed.

(** A key has enough ranks exactly when its label has. *)
Lemma summary_resolved level label :
  Nat.leb level (count semicolon (taxatable_summary level label) + 1)
  = Nat.leb level (count semicolon label + 1).
Proof.
  destruct level as [| l]; [reflexivity |].
  unfold taxatable_summary.
  rewrite count_replace by discriminate.
  rewrite count_truncate_lineage by lia.
  destruct (Nat.leb_spec (S l) (count semicolon label + 1));
    [apply Nat.leb_le | apply Nat.leb_gt]; lia.
Qed.

Lemma regroup_kept level rows :
  filter (fun r : string * list Z =>
            Nat.leb level (count semicolon (fst r) + 1))
         (map (fun r : string * list Z =>
                 (taxatable_summary level (fst r), snd r))
              (flat_map (fun r : option string * list Z =>
                           match fst r with
                           | Some label => [(label, snd r)]
                           | None => []
                           end) rows))
  = map (fun r => (taxatable_summary level (fst r), snd r))
        (resolved_rows level rows).
Proof.
  induction rows as [| [[label |] row] rows IH]; [reflexivity | | exact IH].
  cbn [flat_map app map filter fst snd]; rewrite summary_resolved, IH.
  unfold resolved_rows; cbn [flat_map fst snd].
  destruct (Nat.leb level (count semicolon label + 1)); reflexivity.
Qed.

Lemma In_resolved_rows level rows label row :
  In (label, row) (resolved_rows level rows)
  <-> In (Some label, row) rows /\ (level <= count semicolon label + 1)%nat.
Proof.
  unfold resolved_rows; rewrite in_flat_map; split.
  - intros ([[l |] r] & Hr & Hin); cbn [fst snd] in Hin; [| contradiction].
    destruct (Nat.leb_spec level (count semicolon l + 1)); [| contradiction].
    destruct Hin as [Heq | []]; injection Heq as <- <-; auto.
  - intros [Hin Hle]; exists (Some label, row); split; [exact Hin |].
    cbn [fst snd]; rewrite (proj2 (Nat.leb_le _ _) Hle); now left.
Qed.

Lemma sorted_unique_strict l :
  StronglySorted str_lt (sort_by String.leb (unique l)).
Proof.
  apply sorted_nodup_strict.
  - apply sort_by_sorted; [apply String.leb_total | apply string_leb_trans].
  - eapply Permutation_NoDup;
      [symmetry; apply sort_by_perm | apply NoDup_unique].
Qed.

Lemma In_sorted_unique l x : In x (sort_by String.leb (unique l)) <-> In x l.
Proof.
  rewrite <- (In_unique l x); split; apply Permutation_in;
    [| symmetry]; apply sort_by_perm.
Qed.

Lemma no_string_label rows :
  flat_map (fun r : option string * list Z =>
              match fst r with
              | Some label => [(label, snd r)]
              | None => []
              end) rows = []
  <-> has_string_label rows = false.
Proof.
  unfold has_string_label.
  induction rows as [| [[label |] row] rows IH]; cbn [flat_map existsb fst];
    [tauto | | exact IH].
  split; discriminate.
Qed.

(** Lines 42 to 47 in closed form. *)
Lemma regroup_taxatable_eq level cols rows :
  regroup_taxatable level cols rows
  = if has_string_label rows then Ok (summed_taxatable level cols rows)
    else Raise KeyError.
Proof.
  unfold regroup_taxatable; cbv zeta.
  pose proof (no_string_label rows) as Hnone.
  destruct (flat_map _ rows) as [| r0 strs] eqn:Hstrs.
  - now rewrite (proj1 Hnone eq_refl).
  - destruct (has_string_label rows);
      [| destruct Hnone as [_ Hnone]; discriminate (Hnone eq_refl)].
    rewrite <- Hstrs, regroup_kept; reflexivity.
Qed.

(** X12.  Lines 42 to 47 raise [KeyError] when the taxatable has no row
    with a string label.  Otherwise they return a table whose row labels
    are in strictly ascending order; a key is present exactly when it is
    the truncated and underscored label of a row with a string label of at
    least [level] ranks; and for a positive [level] every key has exactly
    [level] ranks and no space. *)
Theorem regroup_taxatable_keys level cols rows :
  (has_string_label rows = false ->
   regroup_taxatable level cols rows = Raise KeyError)
  /\ (has_string_label rows = true ->
      exists df,
        regroup_taxatable level cols rows = Ok df
        /\ StronglySorted str_lt (index df)
        /\ (forall key,
              In key (index df) <->
              exists label row,
                In (Some label, row) rows
                /\ (level <= count semicolon label + 1)%nat
                /\ key = taxatable_summary level label)
        /\ ((0 < level)%nat ->
            forall key, In key (index df) ->
                        (count semicolon key + 1)%nat = level
                        /\ contains space key = false)).
Proof.
  rewrite regroup_taxatable_eq.
  split; intros ->; [reflexivity |].
  eexists; split; [reflexivity |].
  assert (Hkeys : forall key,
            In key (index (summed_taxatable level cols rows)) <->
            exists label row,
              In (Some label, row) rows
              /\ (level <= count semicolon label + 1)%nat
              /\ key = taxatable_summary level label).
  { intros key; unfold summed_taxatable; cbn [index].
    rewrite In_sorted_unique, map_map; cbn [fst].
    rewrite in_map_iff; split.
    - intros ([label row] & <- & Hin).
      apply In_resolved_rows in Hin as [Hin Hle]; exists label, row; auto.
    - intros (label & row & Hin & Hle & ->).
      exists (label, row); split; [reflexivity |].
      apply In_resolved_rows; auto. }
  split; [apply sorted_unique_strict |].
  split; [exact Hkeys |].
  intros Hpos key Hin.
  apply Hkeys in Hin as (label & row & _ & Hle & ->).
  split; [| apply taxatable_summary_no_space].
  unfold taxatable_summary; rewrite count_replace by discriminate.
  rewrite count_truncate_lineage by exact Hpos; lia.
Qed.

Lemma regroup_taxatable_keys_witness :
  regroup_taxatable 2 ["s1"; "s2"] [(None, [5; 5])] = Raise KeyError
  /\ exists df,
       regroup_taxatable 2 ["s1"; "s2"] mixed_taxatable = Ok df
       /\ (In "k;B_c" (index df) ->
           (count semicolon "k;B_c" + 1)%nat = 2%nat
           /\ contains space "k;B_c" = false).
Proof.
  split.
  - apply (proj1 (regroup_taxatable_keys 2 ["s1"; "s2"] [(None, [5; 5])])).
    reflexivity.
  - destruct (proj2 (regroup_taxatable_keys 2 ["s1"; "s2"] mixed_taxatable)
                    eq_refl) as (df & Hdf & _ & _ & Hranks).
    exists df; split; [exact Hdf |].
    apply Hranks; lia.
Defined.

Lemma sum_pick ks k v :
  NoDup ks -> In k ks ->
  sum (map (fun k' => if String.eqb k k' then v else 0) ks) = v.
Proof.
  induction 1 as [| x ks Hx _ IH]; [contradiction |].
  intros Hin; cbn [map sum fold_right].
  destruct (String.eqb_spec k x) as [-> | Hne].
  - rewrite (sum_map_ext _ (fun _ => 0)), sum_map_zero; [lia |].
    intros k' Hk'; destruct (String.eqb_spec x k'); [congruence | reflexivity].
  - destruct Hin as [-> | Hin]; [congruence |].
    fold (sum (map (fun k' => if String.eqb k k' then v else 0) ks)).
    rewrite IH by exact Hin; lia.
Qed.

(** Summing group by group is summing everything, when the groups are
    taken over distinct keys that cover the rows. *)
Lemma sum_by_key {V} (f : V -> Z) (key : V -> string) (rows : list V) ks :
  NoDup ks -> (forall r, In r rows -> In (key r) ks) ->
  sum (map (fun k => sum (map f (filter (fun r => String.eqb (key r) k) rows)))
           ks)
  = sum (map f rows).
Proof.
  intros Hnd; induction rows as [| r rows IH]; intros Hcover.
  - cbn [filter map]; apply sum_map_zero.
  - rewrite (sum_map_ext _
               (fun k => (if String.eqb (key r) k then f r else 0)
                         + sum (map f (filter (fun r' => String.eqb (key r') k)
                                              rows)))).
    + rewrite sum_map_add, sum_pick, IH;
        [reflexivity | | exact Hnd |]; intros; apply Hcover; simpl; auto.
    + intros k _; cbn [filter].
      destruct (String.eqb (key r) k); reflexivity.
Qed.

Lemma filter_map_comm {X Y} (g : X -> Y) (p : Y -> bool) (l : list X) :
  filter p (map g l) = map g (filter (fun x => p (g x)) l).
Proof.
  induction l as [| x l IH]; simpl; [reflexivity |].
  destruct (p (g x)); simpl; now rewrite IH.
Qed.

(** One cell of the summed table. *)
Lemma summed_cell level (cols : list string) rows j k :
  (j < length cols)%nat ->
  nth j (sum_rows (length cols)
           (map snd
              (filter (fun r : string * list Z => String.eqb (fst r) k)
                 (map (fun r => (taxatable_summary level (fst r), snd r))
                      (resolved_rows level rows))))) 0
  = int64 (key_total level rows k j).
Proof.
  intros Hj; unfold sum_rows; rewrite nth_tabulate by exact Hj.
  unfold key_total, column.
  rewrite filter_map_comm, !map_map; reflexivity.
Qed.

(** X13.  Every cell of the summed taxatable is the int64 sum of the
    sample's abundances over the rows that carry the key, among the rows
    with a string label of at least [level] ranks.  The total of a sample
    column agrees modulo 2^64 with the total of the sample over those
    rows, and equals it when the sum of every key fits 64 bits.  The table
    has one row of values per key and one value per sample column. *)
Theorem regroup_taxatable_totals level cols rows df j :
  regroup_taxatable level cols rows = Ok df ->
  (j < length cols)%nat ->
  (forall i k, nth_error (index df) i = Some k ->
               nth j (nth i (values df) []) 0
               = int64 (key_total level rows k j))
  /\ int64 (sum (column (values df) j))
     = int64 (sum (map (fun r => nth j (snd r) 0) (resolved_rows level rows)))
  /\ ((forall k, fits 64 (key_total level rows k j)) ->
      sum (column (values df) j)
      = sum (map (fun r => nth j (snd r) 0) (resolved_rows level rows)))
  /\ length (values df) = length (index df)
  /\ Forall (fun row => length row = length cols) (values df).
Proof.
  rewrite regroup_taxatable_eq.
  destruct (has_string_label rows); [| discriminate].
  intros Hdf Hj; injection Hdf as <-.
  unfold summed_taxatable; cbn [index values].
  set (ks := sort_by String.leb
               (unique (map fst
                  (map (fun r : string * list Z =>
                          (taxatable_summary level (fst r), snd r))
                       (resolved_rows level rows))))).
  assert (Hcol : column
                   (map (fun k =>
                      sum_rows (length cols)
                        (map snd
                           (filter (fun r : string * list Z =>
                                      String.eqb (fst r) k)
                              (map (fun r =>
                                      (taxatable_summary level (fst r), snd r))
                                   (resolved_rows level rows))))) ks) j
                 = map (fun k => int64 (key_total level rows k j)) ks).
  { unfold column; rewrite map_map.
    apply map_ext; intros k; now apply summed_cell. }
  assert (Hsum : sum (map (fun k => key_total level rows k j) ks)
                 = sum (map (fun r => nth j (snd r) 0)
                            (resolved_rows level rows))).
  { unfold key_total; apply sum_by_key.
    - apply StronglySorted_lt_NoDup, sorted_unique_strict.
    - intros r Hr; apply In_sorted_unique; rewrite map_map; cbn [fst].
      apply in_map_iff; exists r; auto. }
  split; [| split; [| split; [| split]]].
  - intros i k Hk.
    match goal with
    | |- nth j (nth i (map ?F ks) []) 0 = _ =>
        rewrite (nth_error_nth (map F ks) i [] (map_nth_error F i ks Hk))
    end.
    now apply summed_cell.
  - rewrite Hcol, <- Hsum; apply wrap_sum.
  - intros Hfit; rewrite Hcol, <- Hsum.
    apply sum_map_ext; intros k _.
    apply wrap_small; [lia | apply Hfit].
  - now rewrite length_map.
  - apply Forall_forall; intros row Hrow.
    apply in_map_iff in Hrow as (k & <- & _).
    apply length_tabulate.
Qed.

Lemma regroup_taxatable_totals_witness :
  nth 1 (nth 1 (values (summed_taxatable 2 ["s1"; "s2"] mixed_taxatable)) [])
      0
  = int64 (2 + 20)
  /\ int64 (sum (column (values (summed_taxatable 2 ["s1"; "s2"]
                                                  mixed_taxatable)) 1))
     = int64 (2 + 4 + 20).
Proof.
  pose proof (regroup_taxatable_totals 2 ["s1"; "s2"] mixed_taxatable
                (summed_taxatable 2 ["s1"; "s2"] mixed_taxatable) 1
                eq_refl ltac:(simpl; lia)) as (Hcell & Htotal & _).
  split; [exact (Hcell 1%nat "k;B_c" eq_refl) | exact Htotal].
Defined.

(** ** [_do_function]: the three steps together *)

Lemma NoDup_sorted_names names :
  NoDup (keys names) -> NoDup (sorted_names names).
Proof.
  unfold sorted_names, sorted_by_key, keys.
  apply Permutation_NoDup, Permutation_map; symmetry; apply sort_by_perm.
Qed.

Lemma NoDup_index_drop_zero_rows df :
  NoDup (index df) -> NoDup (index (drop_zero_rows df)).
Proof.
  intros Hnd; unfold drop_zero_rows, iterrows; cbn [index].
  apply (NoDup_keys_filter _ (combine (index df) (values df))).
  now apply NoDup_keys_combine.
Qed.

Lemma reindex_total df labels :
  NoDup (index df) -> exists filtered, reindex df labels = Ok filtered.
Proof.
  intros Hnd; unfold reindex.
  destruct (labels_eqb (index df) labels); [eexists; reflexivity |].
  rewrite (proj2 (nodupb_NoDup _) Hnd); eexists; reflexivity.
Qed.

Lemma summarize_kegg_table_total dot_float64 kegg_table summary_table :
  NoDup (index kegg_table) ->
  exists tables,
    summarize_kegg_table dot_float64 kegg_table summary_table = Ok tables.
Proof.
  intros Hnd; unfold summarize_kegg_table.
  destruct (reindex_total kegg_table (columns summary_table) Hnd)
    as (filtered & ->).
  cbn [bind]; eexists; reflexivity.
Qed.

(** X14.  [_do_function] raises exactly when [_create_kegg_table] does, and
    the same exception: when the keys of the column mapping are distinct,
    the function table has distinct row labels also after its all-zero rows
    are dropped, so both calls of [summarize_kegg_table] return, and the
    five tables are the function table and the two pairs of summaries of
    it. *)
Theorem do_function_outcome dot_float64 taxatable_df row_names column_names m
        kegg_modules_df kegg_pathways_df :
  NoDup (keys column_names) ->
  NoDup (columns kegg_modules_df) ->
  NoDup (columns kegg_pathways_df) ->
  match _create_kegg_table taxatable_df row_names column_names m with
  | Ok (out, lg) =>
      NoDup (index out)
      /\ exists mods paths,
           summarize_kegg_table dot_float64 out kegg_modules_df = Ok mods
           /\ summarize_kegg_table dot_float64 out kegg_pathways_df = Ok paths
           /\ _do_function dot_float64 taxatable_df row_names column_names m
                           kegg_modules_df kegg_pathways_df
              = Ok ({| out_kegg_table_df := out;
                       out_kegg_modules_df := fst mods;
                       out_kegg_modules_coverage := snd mods;
                       out_kegg_pathways_df := fst paths;
                       out_kegg_pathways_coverage := snd paths |}, lg)
  | Raise e =>
      _do_function dot_float64 taxatable_df row_names column_names m
                   kegg_modules_df kegg_pathways_df = Raise e
  end.
Proof.
  intros Hnd _ _; unfold _do_function.
  destruct (_create_kegg_table taxatable_df row_names column_names m)
    as [[out lg] | e] eqn:Hcreate; [| reflexivity].
  apply create_kegg_table_Ok in Hcreate as (Hout & _).
  assert (Hidx : NoDup (index out)).
  { rewrite Hout; apply NoDup_index_drop_zero_rows; cbn [index].
    now apply NoDup_sorted_names. }
  split; [exact Hidx |].
  destruct (summarize_kegg_table_total dot_float64 out kegg_modules_df Hidx)
    as (mods & Hmods).
  destruct (summarize_kegg_table_total dot_float64 out kegg_pathways_df Hidx)
    as (paths & Hpaths).
  exists mods, paths; cbn [bind]; rewrite Hmods, Hpaths; auto.
Qed.

Lemma do_function_outcome_witness :
  _do_function small_dot_float64 two_taxa [("G", 3%nat)] [("K1", 0%nat); ("K2", 1%nat)]
               genus_G_reference two_modules one_module
  = Raise IndexError
  /\ exists mods paths,
       summarize_kegg_table small_dot_float64
         {| index := ["K1"; "K2"]; columns := ["s1"; "s2"];
            values := [[60; 6]; [20; 2]] |} two_modules = Ok mods
       /\ summarize_kegg_table small_dot_float64
            {| index := ["K1"; "K2"]; columns := ["s1"; "s2"];
               values := [[60; 6]; [20; 2]] |} one_module = Ok paths
       /\ _do_function small_dot_float64 two_taxa [("G", 0%nat)] [("K1", 0%nat); ("K2", 1%nat)]
                       genus_G_reference two_modules one_module
          = Ok ({| out_kegg_table_df :=
                     {| index := ["K1"; "K2"]; columns := ["s1"; "s2"];
                        values := [[60; 6]; [20; 2]] |};
                   out_kegg_modules_df := fst mods;
                   out_kegg_modules_coverage := snd mods;
                   out_kegg_pathways_df := fst paths;
                   out_kegg_pathways_coverage := snd paths |},
                [(DEBUG, KeggTableShape (1%nat, 2%nat));
                 (DEBUG, TaxatableShape (2%nat, 2%nat));
                 (DEBUG, OverlapOfTaxaAndFunction (fraction 1 2));
                 (DEBUG, RowNamesFound 1)]).
Proof.
  split.
  - exact (do_function_outcome small_dot_float64 two_taxa [("G", 3%nat)]
             [("K1", 0%nat); ("K2", 1%nat)] genus_G_reference two_modules
             one_module
             ltac:(apply nodupb_NoDup; reflexivity)
             ltac:(apply nodupb_NoDup; reflexivity)
             ltac:(apply nodupb_NoDup; reflexivity)).
  - exact (proj2 (do_function_outcome small_dot_float64 two_taxa [("G", 0%nat)]
             [("K1", 0%nat); ("K2", 1%nat)] genus_G_reference two_modules
             one_module
             ltac:(apply nodupb_NoDup; reflexivity)
             ltac:(apply nodupb_NoDup; reflexivity)
             ltac:(apply nodupb_NoDup; reflexivity))).
Defined.

(** ** Membership tables *)

Lemma tally_add_get d o i o' :
  dict_get (tally_add d o i) o'
  = if String.eqb o o'
    then Some (counter_add (match dict_get d o with
                            | Some c => c
                            | None => []
                            end) i)
    else dict_get d o'.
Proof.
  induction d as [| [k c] d IH]; cbn [tally_add dict_get].
  - destruct (String.eqb o o'); reflexivity.
  - destruct (String.eqb_spec k o) as [-> | Hko]; cbn [dict_get].
    + destruct (String.eqb o o'); reflexivity.
    + rewrite IH.
      destruct (String.eqb_spec o o') as [Heq | Hoo']; [| reflexivity].
      destruct (String.eqb_spec k o'); [congruence | reflexivity].
Qed.

Lemma tally_counter_add c i i' :
  tally (counter_add c i) i'
  = if String.eqb i i' then S (tally c i) else tally c i'.
Proof.
  unfold tally at 1; rewrite counter_add_get.
  destruct (String.eqb i i'); reflexivity.
Qed.

Lemma nested_tally_add d o i o' i' :
  nested_tally (tally_add d o i) o' i'
  = (nested_tally d o' i'
     + if String.eqb o o' && String.eqb i i' then 1 else 0)%nat.
Proof.
  unfold nested_tally; rewrite tally_add_get.
  destruct (String.eqb_spec o o') as [<- | Hne]; cbn [andb]; [| lia].
  rewrite tally_counter_add.
  destruct (String.eqb_spec i i') as [<- | Hi];
    destruct (dict_get d o); cbn; lia.
Qed.

Lemma nested_tally_pairs pairs : forall d o i,
  nested_tally (tally_pairs pairs d) o i
  = (nested_tally d o i + links pairs o i)%nat.
Proof.
  induction pairs as [| [po pi] pairs IH]; intros d o i.
  - unfold links; simpl; lia.
  - unfold tally_pairs; cbn [fold_left fst snd].
    fold (tally_pairs pairs (tally_add d po pi)).
    rewrite IH, nested_tally_add.
    unfold links; cbn [filter fst snd].
    destruct (String.eqb po o && String.eqb pi i); simpl; lia.
Qed.

Lemma tally_add_keys d o i :
  keys (tally_add d o i) = if dict_mem d o then keys d else keys d ++ [o].
Proof.
  induction d as [| [k c] d IH]; [reflexivity |].
  unfold dict_mem; cbn [tally_add dict_get].
  destruct (String.eqb k o); [reflexivity |].
  cbn [keys map fst app]; fold (keys (tally_add d o i)); fold (keys d).
  rewrite IH; unfold dict_mem.
  destruct (dict_get d o); reflexivity.
Qed.

Lemma tally_pairs_keys pairs : forall d,
  NoDup (keys d) ->
  NoDup (keys (tally_pairs pairs d))
  /\ forall o, In o (keys (tally_pairs pairs d))
               <-> In o (keys d) \/ In o (map fst pairs).
Proof.
  induction pairs as [| [po pi] pairs IH]; intros d Hnd.
  - split; [exact Hnd |]; intros o; simpl; tauto.
  - unfold tally_pairs; cbn [fold_left fst snd map].
    fold (tally_pairs pairs (tally_add d po pi)).
    assert (Hstep : NoDup (keys (tally_add d po pi))
                    /\ forall o, In o (keys (tally_add d po pi))
                                 <-> In o (keys d) \/ po = o).
    { rewrite tally_add_keys.
      destruct (dict_mem d po) eqn:Hmem.
      - split; [exact Hnd |]; intros o; split; [auto |].
        intros [H | <-]; [exact H | now apply dict_mem_In].
      - split.
        + apply NoDup_snoc; [exact Hnd |].
          intros Hin; apply dict_mem_In in Hin; congruence.
        + intros o; rewrite in_app_iff; simpl; tauto. }
    destruct Hstep as [Hnd' Hin'].
    destruct (IH _ Hnd') as [Hnd'' Hin''].
    split; [exact Hnd'' |].
    intros o; rewrite Hin'', Hin'; simpl; tauto.
Qed.

Lemma counter_add_In c i x :
  In x (keys (counter_add c i)) <-> In x (keys c) \/ x = i.
Proof.
  rewrite counter_add_keys.
  destruct (dict_mem c i) eqn:Hmem.
  - split; [auto |]; intros [H | ->]; [exact H | now apply dict_mem_In].
  - rewrite in_app_iff; simpl; intuition.
Qed.

Lemma tally_add_inner d o i x :
  In x (flat_map (fun kc => keys (snd kc)) (tally_add d o i))
  <-> In x (flat_map (fun kc : string * pydict nat => keys (snd kc)) d)
      \/ x = i.
Proof.
  induction d as [| [k c] d IH]; cbn [tally_add flat_map snd].
  - rewrite app_nil_r; change (keys (counter_add [] i)) with [i].
    simpl; intuition.
  - destruct (String.eqb k o); cbn [flat_map snd]; rewrite !in_app_iff.
    + rewrite counter_add_In; tauto.
    + rewrite IH; tauto.
Qed.

Lemma tally_pairs_inner pairs : forall d x,
  In x (flat_map (fun kc => keys (snd kc)) (tally_pairs pairs d))
  <-> In x (flat_map (fun kc : string * pydict nat => keys (snd kc)) d)
      \/ In x (map snd pairs).
Proof.
  induction pairs as [| [po pi] pairs IH]; intros d x.
  - simpl; tauto.
  - unfold tally_pairs; cbn [fold_left fst snd map].
    fold (tally_pairs pairs (tally_add d po pi)).
    rewrite IH, tally_add_inner; simpl; intuition.
Qed.

Lemma dict_get_combine_map {V} (F : string -> V) l r :
  In r l -> dict_get (combine l (map F l)) r = Some (F r).
Proof.
  induction l as [| a l IH]; [contradiction |].
  intros Hin; cbn [map combine dict_get].
  destruct (String.eqb_spec a r) as [-> | Hne]; [reflexivity |].
  destruct Hin as [-> | Hin]; [congruence | now apply IH].
Qed.

Lemma dict_get_keys_map {V W} (h : V -> W) (d : pydict V) c :
  dict_get (combine (keys d) (map (fun kc => h (snd kc)) d)) c
  = option_map h (dict_get d c).
Proof.
  induction d as [| [k v] d IH]; [reflexivity |].
  cbn [keys map combine dict_get fst snd].
  destruct (String.eqb k c); [reflexivity | exact IH].
Qed.

Lemma frame_cell d r c :
  In r (index (frame_of_tally d)) ->
  cell (frame_of_tally d) r c
  = option_map (fun cnt => Z.of_nat (tally cnt r)) (dict_get d c).
Proof.
  unfold cell, frame_of_tally, iterrows; cbn [index columns values].
  intros Hr.
  rewrite (dict_get_combine_map
             (fun r => map (fun kc : string * pydict nat =>
                              match dict_get (snd kc) r with
                              | Some n => Z.of_nat n
                              | None => 0
                              end) d)) by exact Hr.
  rewrite (dict_get_keys_map
             (fun cnt : pydict nat => match dict_get cnt r with
                                      | Some n => Z.of_nat n
                                      | None => 0
                                      end)).
  destruct (dict_get d c) as [cnt |]; [| reflexivity].
  unfold tally; cbn [option_map]; destruct (dict_get cnt r); reflexivity.
Qed.

(** The frame built from the tallies of a list of pairs is the membership
    table of the pairs. *)
Lemma membership_of_pairs pairs :
  membership_table pairs (frame_of_tally (tally_pairs pairs [])).
Proof.
  destruct (tally_pairs_keys pairs [] (NoDup_nil _)) as [Hnd Hkeys].
  assert (Hidx : forall r, In r (index (frame_of_tally (tally_pairs pairs [])))
                           <-> In r (map snd pairs)).
  { intros r; unfold frame_of_tally; cbn [index].
    rewrite In_unique, tally_pairs_inner; simpl; tauto. }
  unfold membership_table.
  split; [exact Hnd |].
  split; [apply NoDup_unique |].
  split; [intros c; rewrite (Hkeys c); simpl; tauto |].
  split; [exact Hidx |].
  split; [| split].
  - intros r c Hr Hc.
    rewrite frame_cell by exact Hr.
    pose proof (nested_tally_pairs pairs [] c r) as Hn.
    unfold nested_tally in Hn; cbn [dict_get] in Hn.
    apply keys_get in Hc as (cnt & Hcnt).
    rewrite Hcnt in Hn |- *; cbn [option_map]; rewrite Hn; reflexivity.
  - unfold frame_of_tally; cbn [index values]; apply length_map.
  - unfold frame_of_tally; cbn [columns values].
    apply Forall_forall; intros row Hrow.
    apply in_map_iff in Hrow as (r & <- & _).
    unfold keys; now rewrite !length_map.
Qed.

Lemma nth_error_last (l : list string) :
  l <> [] -> nth_error l (length l - 1) = Some (last l "").
Proof.
  induction l as [| a l IH]; [congruence |]; intros _.
  destruct l as [| b l]; [reflexivity |].
  change (last (a :: b :: l) "") with (last (b :: l) "").
  rewrite <- IH by discriminate.
  replace (length (a :: b :: l) - 1)%nat with (S (length (b :: l) - 1))
    by (simpl; lia).
  reflexivity.
Qed.

Lemma modules_row_Ok d row :
  row <> [] ->
  modules_row d row
  = Ok (tally_add d (fst (module_pair row)) (snd (module_pair row))).
Proof.
  intros Hne; unfold modules_row, item, module_pair.
  rewrite (nth_error_last row Hne).
  destruct row as [| x row]; [congruence | reflexivity].
Qed.

Lemma modules_loop infile : forall d,
  ~ In [] infile ->
  for_each modules_row infile d = Ok (tally_pairs (map module_pair infile) d).
Proof.
  induction infile as [| row infile IH]; intros d Hne; [reflexivity |].
  cbn [for_each map]; rewrite modules_row_Ok.
  - cbn [bind]; rewrite IH; [reflexivity |].
    intros Hin; apply Hne; now right.
  - intros ->; apply Hne; now left.
Qed.

Lemma modules_loop_raise infile : forall d,
  In [] infile -> for_each modules_row infile d = Raise IndexError.
Proof.
  induction infile as [| row infile IH]; intros d Hin; [contradiction |].
  cbn [for_each].
  destruct row as [| x row]; [reflexivity |].
  rewrite modules_row_Ok by discriminate; cbn [bind].
  apply IH; destruct Hin as [Heq | Hin]; [discriminate | exact Hin].
Qed.

(** X15.  [_parse_modules] raises [IndexError] when the file has a row
    without fields.  Otherwise it returns the membership table of the pairs
    (first field without trailing white space, first seven characters of
    the last field): one column per distinct first component, one row per
    distinct second component, and in each cell the number of rows of the
    file that carry that pair. *)
Theorem parse_modules_table infile :
  (In [] infile -> _parse_modules infile = Raise IndexError)
  /\ (~ In [] infile ->
      exists df, _parse_modules infile = Ok df
                 /\ membership_table (map module_pair infile) df).
Proof.
  unfold _parse_modules; split; intros H.
  - now rewrite modules_loop_raise.
  - rewrite modules_loop by exact H; cbn [bind].
    eexists; split; [reflexivity | apply membership_of_pairs].
Qed.

Lemma parse_modules_table_witness :
  _parse_modules [["K00001"; "M00001"]; []] = Raise IndexError
  /\ exists df, _parse_modules module_file = Ok df
                /\ columns df = ["K00001"; "K00002"]
                /\ cell df "M00001_" "K00001" = Some 1
                /\ cell df "M00001" "K00001" = Some 1
                /\ cell df "M00001" "K00002" = Some 1
                /\ cell df "M00002" "K00001" = Some 0
                /\ cell df ("M00" ++ e_acute ++ "01_")%string "K00001"
                   = Some 1.
Proof.
  split.
  - apply (proj1 (parse_modules_table [["K00001"; "M00001"]; []])).
    simpl; auto.
  - destruct (proj2 (parse_modules_table module_file)) as (df & Hdf & Htab).
    { simpl; intuition discriminate. }
    exists df; split; [exact Hdf |].
    destruct Htab as (_ & _ & Hcols & Hidx & Hcell & _).
    split; [injection Hdf as <-; reflexivity |].
    repeat split; rewrite Hcell; try reflexivity;
      try (apply Hidx; vm_compute; tauto); apply Hcols; vm_compute; tauto.
Defined.

Lemma pathways_row_Ok d row :
  pathway_row_ok row = true ->
  pathways_row d row
  = Ok (if pathway_counted row
        then tally_add d (fst (pathway_pair row)) (snd (pathway_pair row))
        else d).
Proof.
  unfold pathway_row_ok, pathways_row, pathway_counted, pathway_pair, item.
  intros Hok; apply andb_true_iff in Hok as [H2 Hok].
  apply Nat.leb_le in H2.
  rewrite (nth_error_nth' row "" (n := 1)) by lia; cbn [bind].
  destruct (String.eqb (nth 1 row "") "Enzymes"); [| reflexivity].
  apply Nat.leb_le in Hok.
  rewrite (nth_error_nth' row "" (n := 4)) by lia; cbn [bind andb].
  destruct (negb (String.eqb (nth 4 row "") "")); [| reflexivity].
  destruct row as [| x row]; [simpl in H2; lia | reflexivity].
Qed.

Lemma pathways_row_raise d row :
  pathway_row_ok row = false -> pathways_row d row = Raise IndexError.
Proof.
  unfold pathway_row_ok, pathways_row, item; intros Hbad.
  destruct (Nat.leb_spec 2 (length row)) as [H2 | H2]; cbn [andb] in Hbad.
  - rewrite (nth_error_nth' row "" (n := 1)) by lia; cbn [bind].
    destruct (String.eqb (nth 1 row "") "Enzymes"); [| discriminate].
    apply Nat.leb_gt in Hbad.
    now rewrite (proj2 (nth_error_None row 4)) by lia.
  - now rewrite (proj2 (nth_error_None row 1)) by lia.
Qed.

Lemma pathways_loop infile : forall d,
  for_each pathways_row infile d
  = if forallb pathway_row_ok infile
    then Ok (tally_pairs (map pathway_pair (filter pathway_counted infile)) d)
    else Raise IndexError.
Proof.
  induction infile as [| row infile IH]; intros d; [reflexivity |].
  cbn [for_each forallb filter].
  destruct (pathway_row_ok row) eqn:Hok; cbn [andb].
  - rewrite pathways_row_Ok by exact Hok; cbn [bind]; rewrite IH.
    destruct (pathway_counted row); reflexivity.
  - now rewrite pathways_row_raise.
Qed.

(** X16.  [_parse_pathways] reads field 1 of every row and field 4 of
    every row whose field 1 is [Enzymes], and raises [IndexError] when a
    row lacks the field it reads.  Otherwise it returns the membership
    table of the pairs (first field without trailing white space, field 4)
    of the rows whose field 1 is [Enzymes] and whose field 4 is not
    empty; the other rows leave no trace. *)
Theorem parse_pathways_table infile :
  (forallb pathway_row_ok infile = false ->
   _parse_pathways infile = Raise IndexError)
  /\ (forallb pathway_row_ok infile = true ->
      exists df,
        _parse_pathways infile = Ok df
        /\ membership_table
             (map pathway_pair (filter pathway_counted infile)) df).
Proof.
  unfold _parse_pathways; rewrite pathways_loop.
  split; intros ->; [reflexivity |].
  cbn [bind]; eexists; split; [reflexivity | apply membership_of_pairs].
Qed.

Lemma parse_pathways_table_witness :
  _parse_pathways [["K00001"; "Enzymes"; "x"]] = Raise IndexError
  /\ exists df, _parse_pathways pathway_file = Ok df
                /\ columns df = ["K00001"]
                /\ cell df "ko00010" "K00001" = Some 3.
Proof.
  split.
  - apply (proj1 (parse_pathways_table [["K00001"; "Enzymes"; "x"]])).
    reflexivity.
  - destruct (proj2 (parse_pathways_table pathway_file) eq_refl)
      as (df & Hdf & Htab).
    exists df; split; [exact Hdf |].
    destruct Htab as (_ & _ & Hcols & Hidx & Hcell & _).
    split.
    + injection Hdf as <-; reflexivity.
    + rewrite Hcell; [reflexivity | |];
        [apply Hidx | apply Hcols]; simpl; tauto.
Defined.

(** ** [summarize_kegg_table]: the coverage table *)

Lemma In_combine_map_self {X Y} (g : Y -> X) (l : list Y) x y :
  In (x, y) (combine (map g l) l) -> x = g y /\ In y l.
Proof.
  induction l as [| a l IH]; [contradiction |].
  cbn [map combine]; intros [Heq | Hin].
  - injection Heq as <- <-; split; [reflexivity | now left].
  - destruct (IH Hin); split; [assumption | now right].
Qed.

Lemma dot_cell_bounds arow : forall B s,
  (forall v, In v arow -> 0 <= v) ->
  (forall brow, In brow B -> 0 <= nth s brow 0 <= 1) ->
  0 <= dot_cell arow B s <= sum arow.
Proof.
  unfold dot_cell.
  induction arow as [| a arow IH]; intros B s Ha Hb; [simpl; lia |].
  assert (Ha0 : 0 <= a) by (apply Ha; now left).
  assert (Hrest : 0 <= sum arow).
  { clear -Ha; induction arow as [| v arow IH]; simpl; [lia |].
    assert (0 <= v) by (apply Ha; simpl; auto).
    assert (0 <= sum arow) by (apply IH; intros; apply Ha; simpl in *; tauto).
    unfold sum in *; lia. }
  destruct B as [| brow B]; [simpl; unfold sum in *; lia |].
  cbn [combine map fst snd].
  specialize (IH B s ltac:(intros; apply Ha; now right)
                     ltac:(intros; apply Hb; now right)).
  specialize (Hb brow ltac:(now left)).
  unfold sum in *; cbn [fold_right]; nia.
Qed.

Lemma indicator_cell (brow : list Z) s :
  0 <= nth s (map (fun v => if 0 <? v then 1 else 0) brow) 0 <= 1.
Proof.
  destruct (nth_in_or_default s
              (map (fun v => if 0 <? v then 1 else 0) brow) 0) as [Hin | ->];
    [| lia].
  apply in_map_iff in Hin as (v & <- & _).
  destruct (0 <? v); lia.
Qed.

Lemma true_divide_unit v d q :
  0 <= v <= d -> true_divide v d = Some q -> (0 <= q <= 1)%Q.
Proof.
  unfold true_divide; intros Hv.
  destruct (Z.eqb_spec d 0) as [| Hd]; [discriminate |].
  intros Hq; injection Hq as <-.
  rewrite <- (Z2Nat.id v), <- (Z2Nat.id d) by lia.
  apply (@fraction_unit_interval (Z.to_nat v) (Z.to_nat d)); lia.
Qed.

(** X17.  For a membership table with distinct column labels, without
    negative entries and whose row sums fit 64 bits, every cell of the
    coverage table that [summarize_kegg_table] returns is the quotient of
    two integers [n] and [d] with [0 <= n <= d]: a fraction between 0 and
    1, or undefined ([nan], when [d] is zero: the group has no member
    function at all). *)
Theorem summarize_kegg_table_coverage
        dot_float64 kegg_table summary_table tables :
  NoDup (columns summary_table) ->
  (forall row v, In row (values summary_table) -> In v row -> 0 <= v) ->
  (forall row, In row (values summary_table) -> sum row < 2 ^ 63) ->
  summarize_kegg_table dot_float64 kegg_table summary_table = Ok tables ->
  forall row c,
    In row (values (snd tables)) -> In c row ->
    (exists n d, 0 <= n <= d /\ c = true_divide n d)
    /\ (forall q, c = Some q -> (0 <= q <= 1)%Q).
Proof.
  intros _ Hpos Hfit H row c Hrow Hc.
  unfold summarize_kegg_table in H.
  apply bind_Ok in H as (filtered & _ & H).
  injection H as <-; cbn [snd] in Hrow.
  unfold drop_zero_rows_float in Hrow; cbn [values] in Hrow.
  apply in_map_iff in Hrow as ([l row'] & Heq & Hrow); cbn [snd] in Heq.
  subst row'.
  apply filter_In in Hrow as [Hrow _].
  unfold iterrows in Hrow; apply in_combine_r in Hrow.
  unfold div_by_row_sum in Hrow; cbn [values] in Hrow.
  apply in_map_iff in Hrow as ([drow srow] & <- & Hp); cbn [fst snd] in Hc.
  unfold dot in Hp; cbn [values] in Hp.
  apply In_combine_map_self in Hp as [-> Hs].
  apply in_map_iff in Hc as (v & Hq & Hv).
  unfold tabulate in Hv; apply in_map_iff in Hv as (s & <- & _).
  pose proof (dot_cell_bounds srow (values (df_positive filtered)) s
                (fun v => Hpos srow v Hs)
                ltac:(unfold df_positive; cbn [values]; intros brow Hb;
                      apply in_map_iff in Hb as (b & <- & _);
                      apply indicator_cell)) as Hcell.
  specialize (Hfit srow Hs).
  pose proof (Z.pow_pos_nonneg 2 63 ltac:(lia) ltac:(lia)) as Hpow.
  unfold int64 in Hq.
  rewrite !(@wrap_small 64) in Hq
    by (try (unfold fits; change (64 - 1) with 63); lia).
  split.
  - exists (dot_cell srow (values (df_positive filtered)) s), (sum srow).
    split; [exact Hcell | now symmetry].
  - intros q ->; exact (true_divide_unit _ _ _ Hcell Hq).
Qed.

Lemma summarize_kegg_table_coverage_witness :
  (0 <= inject_Z 2 / inject_Z 3 <= 1)%Q.
Proof.
  apply (proj2 (summarize_kegg_table_coverage small_dot_float64
           kegg_two_functions two_modules _
           ltac:(apply nodupb_NoDup; reflexivity)
           ltac:(simpl; intros row v [<- | [<- | []]] Hv; simpl in Hv;
                 intuition lia)
           ltac:(simpl; intros row [<- | [<- | []]]; reflexivity)
           summarize_modules
           [Some (inject_Z 2 / inject_Z 3)%Q] (Some (inject_Z 2 / inject_Z 3)%Q)
           ltac:(simpl; auto) ltac:(simpl; auto))
           (inject_Z 2 / inject_Z 3)%Q eq_refl).
Defined.

(** ** [_create_kegg_table]: the rows of the function table *)

Lemma In_combine_nth {V} (l : list string) (vs : list V) f (dv : V) row :
  NoDup l -> length l = length vs -> (f < length l)%nat ->
  In (nth f l "", row) (combine l vs) <-> row = nth f vs dv.
Proof.
  intros Hnd Hlen Hf.
  assert (Hin : In (nth f l "", nth f vs dv) (combine l vs)).
  { rewrite <- (combine_nth l vs f "" dv Hlen).
    apply nth_In; rewrite length_combine; lia. }
  pose proof (NoDup_keys_combine l vs Hnd) as Hk.
  split; [| intros ->; exact Hin].
  intros Hrow.
  apply (NoDup_keys_get _ _ _ Hk) in Hrow, Hin; congruence.
Qed.

Lemma existsb_nonzero_tabulate n (g : nat -> Z) :
  existsb (fun v => negb (v =? 0)) (tabulate n g) = true
  <-> exists s, (s < n)%nat /\ g s <> 0.
Proof.
  unfold tabulate; rewrite existsb_exists; split.
  - intros (v & Hv & Hnz).
    apply in_map_iff in Hv as (s & <- & Hs); apply in_seq in Hs.
    exists s; split; [lia |].
    now apply negb_true_iff, Z.eqb_neq in Hnz.
  - intros (s & Hs & Hnz); exists (g s); split.
    + apply in_map_iff; exists s; split; [reflexivity | apply in_seq; lia].
    + now apply negb_true_iff, Z.eqb_neq.
Qed.

(** X18.  The function table that [_create_kegg_table] returns has the
    sample columns of the taxatable, one value per sample in every row and
    no row of zeros; with distinct keys in the column mapping, the function
    registered for column [f] has a row exactly when its predicted
    abundance, reduced to 64 bits, is nonzero in some sample. *)
Theorem create_kegg_table_rows taxatable_df row_names column_names m out lg :
  _create_kegg_table taxatable_df row_names column_names m = Ok (out, lg) ->
  NoDup (keys column_names) ->
  columns out = columns taxatable_df
  /\ length (values out) = length (index out)
  /\ Forall (fun row => length row = length (columns taxatable_df)
                        /\ exists v, In v row /\ v <> 0) (values out)
  /\ (forall f, (f < snd (shape m))%nat ->
        (In (nth f (sorted_names column_names) "") (index out)
         <-> exists s, (s < length (columns taxatable_df))%nat
                       /\ int64 (predicted (iterrows taxatable_df)
                                           row_names m s f) <> 0)).
Proof.
  intros H Hnd.
  apply create_kegg_table_Ok in H as (-> & Hlen & _).
  apply NoDup_sorted_names in Hnd.
  set (vals := tabulate (snd (shape m)) (fun f =>
               tabulate (length (columns taxatable_df)) (fun s =>
                 int64 (predicted (iterrows taxatable_df) row_names m s f)))).
  assert (Hvals : length (sorted_names column_names) = length vals)
    by (unfold vals; now rewrite length_tabulate).
  unfold drop_zero_rows, iterrows; cbn [index columns values].
  split; [reflexivity |].
  split; [now rewrite !length_map |].
  split.
  - apply Forall_forall; intros row Hrow.
    apply in_map_iff in Hrow as ([l row'] & Heq & Hin); cbn [snd] in Heq.
    subst row'; apply filter_In in Hin as [Hin Hnz]; cbn [snd] in Hnz.
    apply in_combine_r in Hin.
    unfold vals, tabulate in Hin; apply in_map_iff in Hin as (f & <- & _).
    split; [apply length_tabulate |].
    apply existsb_exists in Hnz as (v & Hv & Hnz); exists v; split;
      [exact Hv | now apply negb_true_iff, Z.eqb_neq in Hnz].
  - intros f Hf.
    rewrite <- existsb_nonzero_tabulate.
    rewrite in_map_iff; split.
    + intros ([l row] & Hl & Hin); cbn [fst] in Hl; subst l.
      apply filter_In in Hin as [Hin Hnz]; cbn [snd] in Hnz.
      apply (In_combine_nth _ _ f [] row Hnd Hvals) in Hin; [| lia].
      unfold vals in Hin; rewrite nth_tabulate in Hin by exact Hf.
      now subst row.
    + intros Hnz.
      exists (nth f (sorted_names column_names) "", nth f vals []).
      split; [reflexivity |].
      apply filter_In; split.
      * apply (In_combine_nth _ _ f [] _ Hnd Hvals); [lia | reflexivity].
      * cbn [snd]; unfold vals; rewrite nth_tabulate by exact Hf.
        exact Hnz.
Qed.

Lemma create_kegg_table_rows_witness :
  In "K2" ["K1"; "K2"]
  <-> exists s, (s < 2)%nat
                /\ int64 (predicted (iterrows two_taxa) [("G", 0%nat)]
                                    genus_G_reference s 1) <> 0.
Proof.
  apply (proj2 (proj2 (proj2
           (create_kegg_table_rows two_taxa [("G", 0%nat)]
              [("K1", 0%nat); ("K2", 1%nat)] genus_G_reference _ _
              propagate_two_taxa ltac:(apply nodupb_NoDup; reflexivity))))
           1%nat ltac:(simpl; lia)).
Defined.

(** ** [function_run_and_save]: the rank argument *)

Lemma do_function_parsed dot_float64 infile db taxatable_df :
  parse_kegg_table infile = Ok (db_names db, db_kegg_ids db, db_csr db) ->
  index taxatable_df <> [] ->
  exists tables,
    _do_function dot_float64 taxatable_df (db_names db) (db_kegg_ids db)
                 (db_csr db) (db_modules db) (db_pathways db)
    = Ok (tables, propagation_log taxatable_df (db_names db) (db_csr db))
    /\ out_kegg_table_df tables
       = drop_zero_rows (predicted_table taxatable_df (db_names db)
                                         (db_kegg_ids db) (db_csr db)).
Proof.
  intros H Hne; unfold _do_function.
  rewrite create_kegg_table_eq.
  rewrite (rows_in_range _ _ _ (parsed_rows_in_range _ _ _ _ H)).
  rewrite (index_nonempty _ Hne).
  destruct (parsed_columns _ _ _ _ H) as ((_ & Hnd & _) & Hw & _).
  rewrite Hw, Nat.eqb_refl; cbn [bind].
  set (out := drop_zero_rows _).
  assert (Hidx : NoDup (index out)).
  { apply NoDup_index_drop_zero_rows; cbn [predicted_table index].
    now apply NoDup_sorted_names. }
  destruct (summarize_kegg_table_total dot_float64 out (db_modules db) Hidx)
    as (mods & ->).
  destruct (summarize_kegg_table_total dot_float64 out (db_pathways db) Hidx)
    as (paths & ->).
  cbn [bind]; eexists; split; reflexivity.
Qed.

(** X19.  The rank argument of [function_run_and_save]: a level above 8
    raises [IndexError] whatever the inputs, because [TAXA] has eight
    entries.  At level 8 the reference is used as it was parsed, without a
    collapse: a taxatable without a string-labelled row raises [KeyError];
    otherwise, with the three parts that [parse_kegg_table] returned and a
    normalized taxatable that has at least one row, the run returns, and
    its function table is the table of predicted abundances of the
    normalized taxatable against the parsed matrix. *)
Theorem function_run_and_save_levels
        (dot_float64 : DataFrame Z -> DataFrame Z -> list (list Z))
        (normalize_by_median_depth : DataFrame Z -> DataFrame Z)
        cols input db level :
  ((8 < level)%nat ->
   function_run_and_save dot_float64 normalize_by_median_depth
                         cols input db level
   = Raise IndexError)
  /\ (level = 8%nat ->
      (has_string_label input = false ->
       function_run_and_save dot_float64 normalize_by_median_depth
                             cols input db level
       = Raise KeyError)
      /\ forall infile summed,
           parse_kegg_table infile
           = Ok (db_names db, db_kegg_ids db, db_csr db) ->
           regroup_taxatable 8 cols input = Ok summed ->
           let taxatable_df := normalize_by_median_depth summed in
           index taxatable_df <> [] ->
           exists tables,
             function_run_and_save dot_float64 normalize_by_median_depth
                                   cols input db level
             = Ok (taxatable_df, tables,
                   propagation_log taxatable_df (db_names db) (db_csr db))
             /\ out_kegg_table_df tables
                = drop_zero_rows
                    (predicted_table taxatable_df (db_names db)
                                     (db_kegg_ids db) (db_csr db))).
Proof.
  split.
  - intros Hlevel; unfold function_run_and_save.
    rewrite (proj2 (Nat.ltb_ge level 8)) by lia; cbn [bind].
    destruct level as [| l]; [lia |].
    unfold taxa_name, item.
    now rewrite (proj2 (nth_error_None TAXA l)) by (simpl; lia).
  - intros ->; split.
    + intros Hnone; unfold function_run_and_save.
      change (Nat.ltb 8 8) with false.
      cbn [bind taxa_name item nth_error TAXA].
      now rewrite regroup_taxatable_eq, Hnone.
    + intros infile summed H Hsummed taxatable_df Hne.
      destruct (do_function_parsed dot_float64 infile db taxatable_df H Hne)
        as (tables & Hrun & Hout).
      exists tables; split; [| exact Hout].
      unfold function_run_and_save.
      change (Nat.ltb 8 8) with false.
      cbn [bind taxa_name item nth_error TAXA].
      rewrite Hsummed; cbn [bind].
      fold taxatable_df; rewrite Hrun; reflexivity.
Qed.

Lemma function_run_and_save_levels_witness :
  function_run_and_save small_dot_float64 (fun df => df) ["s1"]
                        [(Some "G;s1", [3])] two_strains_db 9
  = Raise IndexError
  /\ function_run_and_save small_dot_float64 (fun df => df) ["s1"]
                           [(None, [5])] two_strains_db 8
     = Raise KeyError
  /\ exists tables,
       function_run_and_save small_dot_float64 (fun df => df) ["s1"]
                             [(Some "k;p;c;o;f;g;s;t", [3])] two_strains_db 8
       = Ok (summed_taxatable 8 ["s1"] [(Some "k;p;c;o;f;g;s;t", [3])],
             tables,
             propagation_log
               (summed_taxatable 8 ["s1"] [(Some "k;p;c;o;f;g;s;t", [3])])
               (db_names two_strains_db) (db_csr two_strains_db))
       /\ out_kegg_table_df tables
          = drop_zero_rows
              (predicted_table
                 (summed_taxatable 8 ["s1"] [(Some "k;p;c;o;f;g;s;t", [3])])
                 (db_names two_strains_db) (db_kegg_ids two_strains_db)
                 (db_csr two_strains_db)).
Proof.
  split; [| split].
  - apply (proj1 (function_run_and_save_levels small_dot_float64
                    (fun df => df) ["s1"] [(Some "G;s1", [3])]
                    two_strains_db 9)).
    lia.
  - apply (proj1 (proj2 (function_run_and_save_levels small_dot_float64
                    (fun df => df) ["s1"] [(None, [5])] two_strains_db 8)
                        eq_refl)).
    reflexivity.
  - apply (proj2 (proj2 (function_run_and_save_levels small_dot_float64
                    (fun df => df) ["s1"] [(Some "k;p;c;o;f;g;s;t", [3])]
                    two_strains_db 8) eq_refl)
                 two_strains
                 (summed_taxatable 8 ["s1"] [(Some "k;p;c;o;f;g;s;t", [3])])
                 parse_two_strains eq_refl).
    discriminate.
Defined.
